(** * aera-ai-procurement: proposal evaluation, draft reconciliation and
      comparison cache

    A shallow embedding of
    - [backend/services/proposalEvaluationService.ts] (the seven criterion
      scorers, the item matcher and the weighted overall score),
    - the cache-validity test of the [GET /compare/:rfpId] route
      ([backend/routes/ai.ts]), and
    - [normalizeRfpDraft], the draft merge of the conversation service,
      once on values and once on a store of objects,
    followed by the properties of the specification that concern them,
    and of
    - the ranking and the feedback of the evaluation service,
    - [normalizeStateUpdate], [createRfpFromDraft], [updateRfpFromDraft]
      and [processRfpDraft] of the conversation service,
    - the whole [GET /compare/:rfpId] route and the batches of
      [POST /send-rfp],
    - the in-memory cache ([cacheService.ts]) and [sanitizeString]
      ([middleware/validation.ts]),
    with their properties at the end.

    Conventions of the evaluation model.
    - A JavaScript number that carries a measure (price, budget, days,
      completeness) is a finite number, written as a rational [Q]; NaN and
      the infinities are outside the evaluation model. A score produced by
      [Math.round] or written as an integer literal is a [Z]; a quantity
      is an integer.
    - The overall score and the scores of the completeness, of the
      required items and of the other requirements are computed as the
      code computes them, in double precision: every product, quotient
      and sum is rounded to the nearest double ([double], [mul64],
      [div64], [add64]). The price and delivery scorers compare and scale
      exact values.
    - [null] and [undefined] of an optional field are both [None]; the
      source reads these fields only through [!x], [x || d] and [x ?? d].
    - Strings are ASCII strings; [toLowerCase] and the white space class
      of [/\s+/] are the ASCII ones.
    - The [reasoning] texts are presentation only and are left out; no
      score or flag depends on them. The feedback lists are not fields of
      an evaluation here: [generateFeedback] computes them from it.

    Conventions of the reconciler model.
    - The arguments are of type [any]: they are JavaScript values
      ([undefined], [null], booleans, numbers with NaN and the infinities,
      strings, arrays, objects), and a thrown exception is [None].
    - [JSON.parse] belongs to the host and is a parameter; [parseFloat],
      [parseInt], [isNaN] and [Number] are embedded for ASCII strings. *)

From Stdlib Require Import QArith Qpower Qround Qabs Qminmax Lqa ZArith String Ascii List Lia.
From Stdlib Require Import Sorted Permutation.
From stdpp Require Import gmap strings list fin_maps pretty.

Set Warnings "-register-all".

Local Open Scope Z_scope.

(** ** Strings as the source uses them *)

Definition lower_ascii (c : ascii) : ascii :=
  let n := nat_of_ascii c in
  if ((65 <=? n) && (n <=? 90))%nat then ascii_of_nat (n + 32) else c.

(** [s.toLowerCase()] *)
Fixpoint toLowerCase (s : string) : string :=
  match s with
  | EmptyString => EmptyString
  | String c s' => String (lower_ascii c) (toLowerCase s')
  end.

(** [s.includes(sub)] *)
Fixpoint includes (s sub : string) : bool :=
  String.prefix sub s ||
  match s with
  | EmptyString => false
  | String _ s' => includes s' sub
  end.

(** The characters matched by [\s] (tab, line feed, vertical tab, form
    feed, carriage return, space). *)
Definition is_space (c : ascii) : bool :=
  let n := nat_of_ascii c in
  ((9 <=? n) && (n <=? 13) || (n =? 32))%nat.

Definition is_digit (c : ascii) : bool :=
  let n := nat_of_ascii c in ((48 <=? n) && (n <=? 57))%nat.

Definition digit_val (c : ascii) : Z := Z.of_nat (nat_of_ascii c) - 48.

(** [s.split(/\s+/)]: [cur] is the piece under construction (reversed),
    [in_sep] tells that the previous character was white space. A leading
    or trailing run of white space yields an empty first or last piece, as
    in JavaScript. *)
Fixpoint split_ws_aux (s : string) (cur : list ascii) (in_sep : bool) : list string :=
  match s with
  | EmptyString => [string_of_list_ascii (rev cur)]
  | String c s' =>
      if is_space c then
        if in_sep then split_ws_aux s' cur true
        else string_of_list_ascii (rev cur) :: split_ws_aux s' [] true
      else split_ws_aux s' (c :: cur) false
  end.

Definition split_ws (s : string) : list string := split_ws_aux s [] false.

(** [[...s]]: the characters of [s], one string each. *)
Fixpoint chars (s : string) : list string :=
  match s with
  | EmptyString => []
  | String c s' => String c EmptyString :: chars s'
  end.

(** [parts.join(sep)] *)
Fixpoint join (sep : string) (parts : list string) : string :=
  match parts with
  | [] => EmptyString
  | [p] => p
  | p :: rest => (p ++ sep ++ join sep rest)%string
  end.

(** [s.match(/(\d+)/)]: the first maximal run of decimal digits. *)
Fixpoint take_digits (s : string) : string :=
  match s with
  | String c s' => if is_digit c then String c (take_digits s') else EmptyString
  | EmptyString => EmptyString
  end.

Fixpoint match_digits (s : string) : option string :=
  match s with
  | EmptyString => None
  | String c s' => if is_digit c then Some (take_digits s) else match_digits s'
  end.

(** [parseInt] on a string of decimal digits. *)
Definition digits_value (s : string) : Z :=
  fold_left (fun acc c => 10 * acc + digit_val c) (list_ascii_of_string s) 0.

(** ** Numbers *)

(** [Math.round]: the nearest integer, a tie going up. *)
Definition Math_round (x : Q) : Z := Qfloor (x + (1 # 2)).

Definition Qlt_bool (x y : Q) : bool := negb (Qle_bool y x).

(** [x] when it is a number other than 0, the values for which [!x] is
    false. *)
Definition truthy_num (x : option Q) : option Q :=
  match x with
  | Some q => if Qeq_bool q 0 then None else Some q
  | None => None
  end.

(** [s] when it is a non-empty string. *)
Definition truthy_str (x : option string) : option string :=
  match x with
  | Some s => if String.eqb s "" then None else Some s
  | None => None
  end.

(** [a ?? b] *)
Definition nullish_or {A} (a b : option A) : option A :=
  match a with Some _ => a | None => b end.

(** ** Double-precision arithmetic

    A double is the rational it stands for, and the result of an
    operation is the exact result rounded to the nearest double (IEEE 754
    binary64: 53 significant bits, the last bit no finer than [2^-1074],
    a tie going to the even neighbour). No value here comes near the
    largest double. *)

(** The [k] with [2^k <= q < 2^(k+1)], for [0 < q]. *)
Definition Qlog2 (q : Q) : Z :=
  let k := Z.log2 (Qnum q) - Z.log2 (Zpos (Qden q)) in
  if Qle_bool (2 ^ k)%Q q then k else k - 1.

(** The exponent of the last bit of the double nearest to [q]. *)
Definition ulp_exponent (q : Q) : Z := Z.max (Qlog2 q - 52) (-1074).

(** The nearest integer, a tie going to the even one. *)
Definition round_half_even (x : Q) : Z :=
  let f := Qfloor x in
  let r := (x - inject_Z f)%Q in
  if Qlt_bool r (1 # 2) then f
  else if Qlt_bool (1 # 2) r then f + 1
  else if Z.even f then f else f + 1.

Definition nearest_double_pos (q : Q) : Q :=
  let e := ulp_exponent q in
  (inject_Z (round_half_even (q / 2 ^ e)) * 2 ^ e)%Q.

(** The double nearest to [q]: what a decimal literal denotes, and what
    an operation returns for the exact result [q]. *)
Definition double (q : Q) : Q :=
  match (q ?= 0)%Q with
  | Eq => 0%Q
  | Gt => Qred (nearest_double_pos q)
  | Lt => Qred (- nearest_double_pos (- q))%Q
  end.

(** [a * b], [a / b] and [a + b] on doubles. *)
Definition mul64 (a b : Q) : Q := double (a * b)%Q.
Definition div64 (a b : Q) : Q := double (a / b)%Q.
Definition add64 (a b : Q) : Q := double (a + b)%Q.

(** ** Data of the evaluation service *)

Record RequirementItem := {
  name : string;
  quantity : option Z;
  specifications : option string;
}.

Record RFPRequirements := {
  items : option (list RequirementItem);
  deliveryDays : option Q;
  paymentTerms : option string;
  warranty : option string;
  otherRequirements : option (list string);
}.

(** An element of [itemPrices]. *)
Record ItemPrice := {
  item : string;
  price : Q;
  ip_quantity : option Z;
}.

(** The fields of a proposal row that the evaluator reads, and the same
    fields inside its [parsedData] blob. *)
Record ParsedData := {
  pd_totalPrice : option Q;
  pd_itemPrices : option (list ItemPrice);
  pd_deliveryDays : option Q;
  pd_paymentTerms : option string;
  pd_warranty : option string;
  pd_notes : option string;
  pd_completeness : option Q;
}.

Record Proposal := {
  p_totalPrice : option Q;
  p_deliveryDays : option Q;
  p_paymentTerms : option string;
  p_warranty : option string;
  p_notes : option string;
  p_completeness : option Q;
  p_rawEmail : option string;
  p_parsedData : option ParsedData;
}.

Record Rfp := {
  budget : option Q;
  requirements : RFPRequirements;
}.

(** [EvaluationCriteria], one record per criterion. *)
Record PriceCriterion := {
  price_score : Z;
  matchesBudget : bool;
  deviation : Q;
}.

Record DeliveryCriterion := {
  delivery_score : Z;
  meetsDeadline : bool;
  daysDifference : option Q;
}.

Record ItemBreakdown := {
  itemName : string;
  requiredQuantity : option Z;
  proposedQuantity : option Z;
  matchesQuantity : bool;
  specificationsMatch : bool;
}.

Record RequirementsCriterion := {
  requirements_score : Z;
  itemsMatched : nat;
  itemsTotal : nat;
  itemBreakdown : list ItemBreakdown;
}.

Record PaymentTermsCriterion := {
  paymentTerms_score : Z;
  matches : bool;
}.

Record WarrantyCriterion := {
  warranty_score : Z;
  meetsRequirement : bool;
}.

Record CompletenessCriterion := {
  completeness_score : Z;
}.

Record OtherRequirementsCriterion := {
  otherRequirements_score : Z;
  or_matches : nat;
  or_total : nat;
  missing : list string;
}.

Record EvaluationCriteria := {
  c_price : PriceCriterion;
  c_delivery : DeliveryCriterion;
  c_requirements : RequirementsCriterion;
  c_paymentTerms : PaymentTermsCriterion;
  c_warranty : WarrantyCriterion;
  c_completeness : CompletenessCriterion;
  c_otherRequirements : OtherRequirementsCriterion;
}.

(** ** The criterion scorers *)

Local Open Scope Q_scope.

(** [evaluatePrice]: price score based on budget compliance. *)
Definition evaluatePrice (proposalPrice budget : option Q) : PriceCriterion :=
  match truthy_num proposalPrice with
  | None => {| price_score := 0; matchesBudget := false; deviation := 0 |}
  | Some proposalPrice =>
    match truthy_num budget with
    | None => {| price_score := 80; matchesBudget := true; deviation := 0 |}
    | Some budget =>
      let deviation := ((proposalPrice - budget) / budget) * 100 in
      let absDeviation := Qabs deviation in
      let score : Q :=
        if Qlt_bool deviation 0 then
          (* under budget *)
          if Qle_bool absDeviation 5 then 100
          else if Qle_bool absDeviation 10 then 95
          else if Qle_bool absDeviation 20 then 85
          else if Qle_bool absDeviation 30 then 75
          else if Qle_bool absDeviation 50 then 60
          else Qmax 30 (70 - absDeviation * (5 # 10))
        else
          (* over budget *)
          if Qle_bool absDeviation 5 then 95
          else if Qle_bool absDeviation 10 then 85
          else if Qle_bool absDeviation 20 then 70
          else if Qle_bool absDeviation 30 then 50
          else if Qle_bool absDeviation 50 then 30
          else Qmax 0 (40 - absDeviation * (3 # 10)) in
      {| price_score := Math_round score;
         matchesBudget := Qle_bool deviation 10;
         deviation := inject_Z (Math_round (deviation * 100)) / 100 |}
    end
  end.

(** The deviation that [evaluatePrice] computes, in percent of the budget. *)
Definition deviation_of (proposalPrice budget : Q) : Q :=
  ((proposalPrice - budget) / budget) * 100.

(** [evaluateDelivery]: delivery timeline against the RFP requirement. *)
Definition evaluateDelivery (proposalDeliveryDays requiredDeliveryDays : option Q)
  : DeliveryCriterion :=
  match truthy_num proposalDeliveryDays with
  | None => {| delivery_score := 0; meetsDeadline := false; daysDifference := None |}
  | Some proposalDeliveryDays =>
    match truthy_num requiredDeliveryDays with
    | None => {| delivery_score := 80; meetsDeadline := true; daysDifference := None |}
    | Some requiredDeliveryDays =>
      let daysDifference := proposalDeliveryDays - requiredDeliveryDays in
      let meetsDeadline := Qle_bool daysDifference 0 in
      let score : Q :=
        if Qle_bool daysDifference 0 then
          Qmax 90 (Qmin 100 (100 - Qabs daysDifference * 2))
        else if Qle_bool daysDifference 7 then 75
        else if Qle_bool daysDifference 14 then 60
        else if Qle_bool daysDifference 30 then 40
        else Qmax 0 (30 - daysDifference / 10) in
      {| delivery_score := Math_round score;
         meetsDeadline := meetsDeadline;
         daysDifference := Some daysDifference |}
    end
  end.

(** The searchable text of [matchItems]. The joined line items are a
    string, and the source spreads that string into the array literal, so
    each of its characters becomes an array element of its own. *)
Definition item_line (ip : ItemPrice) : string :=
  (ip.(item) ++ " " ++
   match ip.(ip_quantity) with
   | Some q => if Z.eqb q 0 then "" else pretty q
   | None => ""
   end)%string.

Definition or_empty (s : option string) : string :=
  match truthy_str s with Some s => s | None => EmptyString end.

Definition proposalText_of (proposalItemPrices : option (list ItemPrice))
    (proposalNotes rawEmail : option string) : string :=
  toLowerCase
    (join " "
       (chars (match proposalItemPrices with
               | Some ips => join " " (map item_line ips)
               | None => EmptyString
               end)
        ++ [or_empty proposalNotes; or_empty rawEmail])).

(** Strict equality of two optional quantities ([undefined === 20] is
    false). *)
Definition quantity_eq (a b : option Z) : bool :=
  match a, b with
  | Some x, Some y => Z.eqb x y
  | None, None => true
  | _, _ => false
  end.

Definition truthy_quantity (q : option Z) : bool :=
  match q with Some n => negb (Z.eqb n 0) | None => false end.

(** [!!rfpItem.specifications] *)
Definition has_specifications (rfpItem : RequirementItem) : bool :=
  match truthy_str (specifications rfpItem) with Some _ => true | None => false end.

(** [proposalItemPrices?.find(...)]: the first line item whose name
    contains the required name or is contained in it. *)
Definition matchingProposalItem (proposalItemPrices : option (list ItemPrice))
    (itemNameLower : string) : option ItemPrice :=
  match proposalItemPrices with
  | Some ips =>
      List.find (fun ip => includes (toLowerCase ip.(item)) itemNameLower
                        || includes itemNameLower (toLowerCase ip.(item))) ips
  | None => None
  end.

(** The body of the loop of [matchItems] for one required item: whether
    the item counts as matched, and its breakdown entry. *)
Definition matchItem (proposalItemPrices : option (list ItemPrice))
    (proposalText : string) (rfpItem : RequirementItem) : bool * ItemBreakdown :=
  let itemNameLower := toLowerCase rfpItem.(name) in
  let matchingProposalItem := matchingProposalItem proposalItemPrices itemNameLower in
  let '(proposedQuantity, matchesQuantity) :=
    match matchingProposalItem with
    | Some mp =>
        (mp.(ip_quantity),
         if truthy_quantity rfpItem.(quantity)
         then quantity_eq mp.(ip_quantity) rfpItem.(quantity)
         else true)
    | None =>
        let fuzzyMatch := includes proposalText itemNameLower in
        (None, negb (truthy_quantity rfpItem.(quantity)) || fuzzyMatch)
    end in
  let specificationsMatch :=
    match truthy_str rfpItem.(specifications) with
    | Some specs =>
        let specKeywords := split_ws (toLowerCase specs) in
        existsb (fun keyword => includes proposalText keyword
                             && (3 <? String.length keyword)%nat) specKeywords
    | None => true
    end in
  let itemMatch :=
    match matchingProposalItem with
    | Some _ => true
    | None => includes proposalText itemNameLower
    end in
  (itemMatch
   && (matchesQuantity || negb (truthy_quantity rfpItem.(quantity)))
   && (specificationsMatch || negb (has_specifications rfpItem)),
   {| itemName := rfpItem.(name);
      requiredQuantity := rfpItem.(quantity);
      proposedQuantity := proposedQuantity;
      matchesQuantity := matchesQuantity;
      specificationsMatch := specificationsMatch |}).

Definition Q_of_nat (n : nat) : Q := inject_Z (Z.of_nat n).

(** [matchItems]: proposal items against the RFP requirements. *)
Definition matchItems (rfpItems : list RequirementItem)
    (proposalItemPrices : option (list ItemPrice))
    (proposalNotes rawEmail : option string) : RequirementsCriterion :=
  match rfpItems with
  | [] => {| requirements_score := 100; itemsMatched := 0; itemsTotal := 0;
             itemBreakdown := [] |}
  | _ =>
    let proposalText := proposalText_of proposalItemPrices proposalNotes rawEmail in
    let results := map (matchItem proposalItemPrices proposalText) rfpItems in
    let itemsMatched := List.length (List.filter fst results) in
    let matchPercentage :=
      mul64 (div64 (Q_of_nat itemsMatched) (Q_of_nat (List.length rfpItems))) 100 in
    {| requirements_score := Math_round matchPercentage;
       itemsMatched := itemsMatched;
       itemsTotal := List.length rfpItems;
       itemBreakdown := map snd results |}
  end.

Definition paymentKeywords : list string :=
  ["net"; "days"; "30"; "60"; "90"; "advance"; "upon delivery"; "installment"]%string.

(** [evaluatePaymentTerms] *)
Definition evaluatePaymentTerms (proposalTerms requiredTerms : option string)
  : PaymentTermsCriterion :=
  match truthy_str proposalTerms with
  | None => {| paymentTerms_score := 50; matches := false |}
  | Some proposalTerms =>
    match truthy_str requiredTerms with
    | None => {| paymentTerms_score := 80; matches := true |}
    | Some requiredTerms =>
      let proposalLower := toLowerCase proposalTerms in
      let requiredLower := toLowerCase requiredTerms in
      let proposalKeywords := List.filter (fun k => includes proposalLower k) paymentKeywords in
      let requiredKeywords := List.filter (fun k => includes requiredLower k) paymentKeywords in
      let matches :=
        if (0 <? List.length requiredKeywords)%nat
        then existsb (fun k => existsb (String.eqb k) proposalKeywords) requiredKeywords
        else includes proposalLower requiredLower || includes requiredLower proposalLower in
      {| paymentTerms_score := if matches then 100 else 60; matches := matches |}
    end
  end.

(** [evaluateWarranty] *)
Definition evaluateWarranty (proposalWarranty requiredWarranty : option string)
  : WarrantyCriterion :=
  match truthy_str proposalWarranty with
  | None => {| warranty_score := 50; meetsRequirement := false |}
  | Some proposalWarranty =>
    match truthy_str requiredWarranty with
    | None => {| warranty_score := 80; meetsRequirement := true |}
    | Some requiredWarranty =>
      match match_digits proposalWarranty, match_digits requiredWarranty with
      | Some proposalMatch, Some requiredMatch =>
          let proposalValue := digits_value proposalMatch in
          let requiredValue := digits_value requiredMatch in
          let meetsRequirement := (requiredValue <=? proposalValue)%Z in
          {| warranty_score := if meetsRequirement then 100 else 50;
             meetsRequirement := meetsRequirement |}
      | _, _ =>
          let matches :=
            includes (toLowerCase proposalWarranty) (toLowerCase requiredWarranty)
            || includes (toLowerCase requiredWarranty) (toLowerCase proposalWarranty) in
          {| warranty_score := if matches then 100 else 60; meetsRequirement := matches |}
      end
    end
  end.

(** [evaluateCompleteness]: only [null] and [undefined] count as missing,
    a completeness of 0 is a value. *)
Definition evaluateCompleteness (completeness : option Q) : CompletenessCriterion :=
  match completeness with
  | None => {| completeness_score := 50 |}
  | Some completeness =>
      {| completeness_score := Math_round (mul64 (double completeness) 100) |}
  end.

(** [evaluateOtherRequirements] *)
Definition requirement_addressed (proposalText requirement : string) : bool :=
  let keywords := List.filter (fun w => (3 <? String.length w)%nat)
                              (split_ws (toLowerCase requirement)) in
  existsb (fun keyword => includes proposalText keyword) keywords.

Definition evaluateOtherRequirements (proposalNotes rawEmail : option string)
    (otherRequirements : option (list string)) : OtherRequirementsCriterion :=
  match otherRequirements with
  | None | Some [] =>
      {| otherRequirements_score := 100; or_matches := 0; or_total := 0; missing := [] |}
  | Some otherRequirements =>
    let proposalText :=
      toLowerCase (join " " [or_empty proposalNotes; or_empty rawEmail]) in
    let matches :=
      List.length (List.filter (requirement_addressed proposalText) otherRequirements) in
    let missing :=
      List.filter (fun r => negb (requirement_addressed proposalText r)) otherRequirements in
    let matchPercentage :=
      mul64 (div64 (Q_of_nat matches) (Q_of_nat (List.length otherRequirements))) 100 in
    {| otherRequirements_score := Math_round matchPercentage;
       or_matches := matches;
       or_total := List.length otherRequirements;
       missing := missing |}
  end.

(** A score is an integer between 0 and 100. *)
Definition score_ok (s : Z) : Prop := (0 <= s <= 100)%Z.

(** The weights of [calculateOverallScore], as the decimal literals of the
    source; [double] gives the doubles that they denote. *)
Record Weights := {
  w_price : Q; w_delivery : Q; w_requirements : Q; w_paymentTerms : Q;
  w_warranty : Q; w_completeness : Q; w_otherRequirements : Q;
}.

Definition weights : Weights :=
  {| w_price := 25 # 100; w_delivery := 20 # 100; w_requirements := 30 # 100;
     w_paymentTerms := 5 # 100; w_warranty := 10 # 100; w_completeness := 5 # 100;
     w_otherRequirements := 5 # 100 |}.

(** The weighted sum as the code computes it: each product and each sum,
    from left to right, rounded to the nearest double. *)
Definition weightedSum (criteria : EvaluationCriteria) : Q :=
  add64 (add64 (add64 (add64 (add64 (add64
    (mul64 (inject_Z criteria.(c_price).(price_score)) (double weights.(w_price)))
    (mul64 (inject_Z criteria.(c_delivery).(delivery_score)) (double weights.(w_delivery))))
    (mul64 (inject_Z criteria.(c_requirements).(requirements_score))
           (double weights.(w_requirements))))
    (mul64 (inject_Z criteria.(c_paymentTerms).(paymentTerms_score))
           (double weights.(w_paymentTerms))))
    (mul64 (inject_Z criteria.(c_warranty).(warranty_score)) (double weights.(w_warranty))))
    (mul64 (inject_Z criteria.(c_completeness).(completeness_score))
           (double weights.(w_completeness))))
    (mul64 (inject_Z criteria.(c_otherRequirements).(otherRequirements_score))
           (double weights.(w_otherRequirements))).


(** [calculateOverallScore] *)
Definition calculateOverallScore (criteria : EvaluationCriteria) : Z :=
  Math_round (weightedSum criteria).

Record ProposalEvaluation := {
  overallScore : Z;
  criteria : EvaluationCriteria;
}.

(** The proposal data as [evaluateProposal] resolves it: the top-level
    field when it is not nullish, the field of [parsedData] otherwise
    ([parsedData || {}] when the blob is absent). *)
Definition pd_field {A} (proposal : Proposal) (f : ParsedData -> option A) : option A :=
  match proposal.(p_parsedData) with Some pd => f pd | None => None end.

Definition resolved_completeness (proposal : Proposal) : option Q :=
  nullish_or proposal.(p_completeness) (pd_field proposal pd_completeness).

Definition resolved_deliveryDays (proposal : Proposal) : option Q :=
  nullish_or proposal.(p_deliveryDays) (pd_field proposal pd_deliveryDays).

Definition evaluateCriteria (proposal : Proposal) (rfp : Rfp) : EvaluationCriteria :=
  let totalPrice := nullish_or proposal.(p_totalPrice) (pd_field proposal pd_totalPrice) in
  let itemPrices := pd_field proposal pd_itemPrices in
  let paymentTerms' := nullish_or proposal.(p_paymentTerms) (pd_field proposal pd_paymentTerms) in
  let warranty' := nullish_or proposal.(p_warranty) (pd_field proposal pd_warranty) in
  let notes := nullish_or proposal.(p_notes) (pd_field proposal pd_notes) in
  let rawEmail := proposal.(p_rawEmail) in
  {| c_price := evaluatePrice totalPrice rfp.(budget);
     c_delivery := evaluateDelivery (resolved_deliveryDays proposal)
                     (truthy_num rfp.(requirements).(deliveryDays));
     c_requirements := matchItems (default [] rfp.(requirements).(items))
                         itemPrices notes rawEmail;
     c_paymentTerms := evaluatePaymentTerms paymentTerms'
                         (truthy_str rfp.(requirements).(paymentTerms));
     c_warranty := evaluateWarranty warranty' (truthy_str rfp.(requirements).(warranty));
     c_completeness := evaluateCompleteness (resolved_completeness proposal);
     c_otherRequirements := evaluateOtherRequirements notes rawEmail
                              rfp.(requirements).(otherRequirements) |}.

(** [evaluateProposal] *)
Definition evaluateProposal (proposal : Proposal) (rfp : Rfp) : ProposalEvaluation :=
  let criteria := evaluateCriteria proposal rfp in
  {| overallScore := calculateOverallScore criteria; criteria := criteria |}.

(** ** The comparison cache of [GET /compare/:rfpId] *)

Local Open Scope Z_scope.

(** A proposal row as the route reads it: its [updatedAt] in milliseconds,
    when it has one. *)
Record ProposalRow := {
  updatedAt : option Z;
}.

(** The cached comparison; the route reads only its [evaluations]. *)
Record ComparisonResult := {
  evaluations : option (list ProposalEvaluation);
}.

(** The [reduce] that finds the latest proposal update. *)
Definition lastProposalUpdate (proposals : list ProposalRow) : option Z :=
  fold_left
    (fun (latest : option Z) (proposal : ProposalRow) =>
       let proposalUpdate := proposal.(updatedAt) in
       match latest with
       | None => proposalUpdate
       | Some l =>
           match proposalUpdate with
           | None => latest
           | Some u => if l <? u then Some u else Some l
           end
       end)
    proposals None.

(** The time stamp [o], when there is one, is not after [t]. *)
Definition not_after (o : option Z) (t : Z) : Prop :=
  match o with Some l => l <= t | None => True end.

(** The validity test on a cache that is present: [proposalCountMatches &&
    cacheIsNewer]. *)
Definition cacheIsValid (cachedComparison : ComparisonResult) (cacheUpdate : Z)
    (proposals : list ProposalRow) : bool :=
  let cachedProposalCount :=
    match cachedComparison.(evaluations) with
    | Some evs => List.length evs
    | None => 0%nat
    end in
  let currentProposalCount := List.length proposals in
  let proposalCountMatches := Nat.eqb cachedProposalCount currentProposalCount in
  let cacheIsNewer :=
    match lastProposalUpdate proposals with
    | None => true
    | Some last => last <=? cacheUpdate
    end in
  proposalCountMatches && cacheIsNewer.

(** Whether the route answers from the cache. *)
Definition usesCache (refresh : bool) (comparisonCache : option ComparisonResult)
    (comparisonCacheUpdatedAt : option Z) (proposals : list ProposalRow) : bool :=
  match comparisonCache, comparisonCacheUpdatedAt with
  | Some cachedComparison, Some cacheUpdate =>
      negb refresh && cacheIsValid cachedComparison cacheUpdate proposals
  | _, _ => false
  end.

(** ** Sample data (Scenario A of the specification) *)

Definition laptop20 : RequirementItem :=
  {| name := "Laptop"; quantity := Some 20; specifications := None |}.

Definition rfpA : Rfp :=
  {| budget := Some (inject_Z 10000);
     requirements := {| items := Some [laptop20]; deliveryDays := None;
                        paymentTerms := None; warranty := None;
                        otherRequirements := None |} |}.

Definition proposalA : Proposal :=
  {| p_totalPrice := Some (inject_Z 9000); p_deliveryDays := None;
     p_paymentTerms := None; p_warranty := None; p_notes := None;
     p_completeness := Some (9 # 10); p_rawEmail := None;
     p_parsedData :=
       Some {| pd_totalPrice := None;
               pd_itemPrices := Some [{| item := "Laptop"; price := inject_Z 9000;
                                         ip_quantity := Some 20 |}];
               pd_deliveryDays := None; pd_paymentTerms := None;
               pd_warranty := None; pd_notes := None; pd_completeness := None |} |}.

(** A reply that mentions the required item only in its free text. *)
Definition notes_only_reply : string := "We can supply laptop units next month".



(** ** JavaScript values of the draft reconciler

    [normalizeRfpDraft] takes two arguments of type [any]: the draft kept
    in the agent state and the fragment produced by the language model.
    Both are JSON data, modelled as trees: [undefined], [null], booleans,
    numbers, strings, arrays and plain objects. An array also carries the
    named properties that an assignment may have added to it. Finite
    numbers are exact rationals. *)

Inductive number :=
| NaN
| Inf (negative : bool)
| Fin (q : Q).

Inductive value :=
| VUndefined
| VNull
| VBool (b : bool)
| VNum (n : number)
| VStr (s : string)
| VArr (elems : list value) (props : gmap string value)
| VObj (props : gmap string value).

(** An array literal and an object literal. *)
Definition arr (elems : list value) : value := VArr elems ∅.
Definition obj (fields : list (string * value)) : value := VObj (list_to_map fields).

Definition num (z : Z) : value := VNum (Fin (inject_Z z)).

(** *** Number parsing of the host *)

Fixpoint trim_start (s : string) : string :=
  match s with
  | String c s' => if is_space c then trim_start s' else s
  | EmptyString => EmptyString
  end.

Definition string_rev (s : string) : string :=
  string_of_list_ascii (rev (list_ascii_of_string s)).

Definition trim (s : string) : string :=
  string_rev (trim_start (string_rev (trim_start s))).

(** The value of [c] as a digit of radix [r], when it is one. *)
Definition digit_in_radix (r : Z) (c : ascii) : option Z :=
  let n := Z.of_nat (nat_of_ascii c) in
  let v := if (48 <=? n) && (n <=? 57) then n - 48
           else if (97 <=? n) && (n <=? 122) then n - 87
           else if (65 <=? n) && (n <=? 90) then n - 55
           else r in
  if v <? r then Some v else None.

(** The longest prefix of digits of radix [r]: its digits, and the rest. *)
Fixpoint span_radix (r : Z) (s : string) : list Z * string :=
  match s with
  | String c s' =>
      match digit_in_radix r c with
      | Some v => let '(ds, rest) := span_radix r s' in (v :: ds, rest)
      | None => ([], s)
      end
  | EmptyString => ([], EmptyString)
  end.

Definition radix_value (r : Z) (ds : list Z) : Z :=
  fold_left (fun acc d => r * acc + d) ds 0.

Definition read_sign (s : string) : bool * string :=
  match s with
  | String "-" s' => (true, s')
  | String "+" s' => (false, s')
  | _ => (false, s)
  end.

Definition negate (n : number) : number :=
  match n with
  | NaN => NaN
  | Inf neg => Inf (negb neg)
  | Fin q => Fin (Qred (- q))
  end.

Definition signed (negative : bool) (n : number) : number :=
  if negative then negate n else n.

(** An optional exponent part [e±ddd]; without digits there is none. *)
Definition read_exponent (s : string) : Z * string :=
  match s with
  | String c s' =>
      if (Ascii.eqb c "e" || Ascii.eqb c "E")%bool then
        let '(neg, s2) := read_sign s' in
        match span_radix 10 s2 with
        | ([], _) => (0, s)
        | (ds, rest) => ((if neg then - radix_value 10 ds else radix_value 10 ds), rest)
        end
      else (0, s)
  | EmptyString => (0, s)
  end.

Fixpoint drop_chars (n : nat) (s : string) : string :=
  match n, s with
  | S n', String _ s' => drop_chars n' s'
  | _, _ => s
  end.

(** The longest prefix that is an unsigned decimal literal ([Infinity],
    [12], [12.5], [12.], [.5], each but the first with an optional
    exponent): its value and the rest of the string. *)
Definition read_unsigned_decimal (s : string) : option (number * string) :=
  if String.prefix "Infinity" s then Some (Inf false, drop_chars 8 s)
  else
    let '(ip, r1) := span_radix 10 s in
    let '(fp, r2) :=
      match r1 with
      | String "." r => span_radix 10 r
      | _ => ([], r1)
      end in
    match ip, fp with
    | [], [] => None
    | _, _ =>
        let '(e, r3) := read_exponent r2 in
        Some (Fin (Qred (inject_Z (radix_value 10 (ip ++ fp))
                         * Qpower 10 (e - Z.of_nat (List.length fp)))), r3)
    end.

(** [parseFloat(s)] *)
Definition parseFloat (s : string) : number :=
  let '(neg, s') := read_sign (trim_start s) in
  match read_unsigned_decimal s' with
  | Some (n, _) => signed neg n
  | None => NaN
  end.

(** [parseInt(s)], without a radix argument. *)
Definition parseInt (s : string) : number :=
  let '(neg, s') := read_sign (trim_start s) in
  let '(radix, s'') :=
    if (String.prefix "0x" s' || String.prefix "0X" s')%bool
    then (16, drop_chars 2 s') else (10, s') in
  match span_radix radix s'' with
  | ([], _) => NaN
  | (ds, _) => signed neg (Fin (inject_Z (radix_value radix ds)))
  end.

(** [Number(s)]: the whole trimmed string has to be a numeric literal; the
    empty string is 0. *)
Definition StringToNumber (s : string) : number :=
  let t := trim s in
  if String.eqb t "" then Fin 0
  else
    let nondecimal (radix : Z) : number :=
      match span_radix radix (drop_chars 2 t) with
      | ((_ :: _) as ds, EmptyString) => Fin (inject_Z (radix_value radix ds))
      | _ => NaN
      end in
    if (String.prefix "0x" t || String.prefix "0X" t)%bool then nondecimal 16
    else if (String.prefix "0o" t || String.prefix "0O" t)%bool then nondecimal 8
    else if (String.prefix "0b" t || String.prefix "0B" t)%bool then nondecimal 2
    else
      let '(neg, t') := read_sign t in
      match read_unsigned_decimal t' with
      | Some (n, EmptyString) => signed neg n
      | _ => NaN
      end.

(** *** Operations on values *)

(** [!!v] *)
Definition truthy (v : value) : bool :=
  match v with
  | VUndefined | VNull => false
  | VBool b => b
  | VNum NaN => false
  | VNum (Inf _) => true
  | VNum (Fin q) => negb (Qeq_bool q 0)
  | VStr s => negb (String.eqb s "")
  | VArr _ _ | VObj _ => true
  end.

(** [a || b] *)
Definition or_else (a b : value) : value := if truthy a then a else b.

Definition nullish (v : value) : bool :=
  match v with VUndefined | VNull => true | _ => false end.

(** [o[k]] for a local object [o] whose own properties are [m]. *)
Definition field (m : gmap string value) (k : string) : value :=
  default VUndefined (m !! k).

(** [v.k] on a value that is neither [null] nor [undefined], for a
    property name [k] that no built-in prototype defines and that is not
    an array index. The reconciler reads [requirements], [items],
    [deliveryRequirements], [deliveryDays], [budget], [deadline] and
    [name] only. *)
Definition get (v : value) (k : string) : value :=
  match v with
  | VObj m => field m k
  | VArr _ m => field m k
  | _ => VUndefined
  end.

(** [v.k]; reading a property of [null] or [undefined] throws. *)
Definition get_member (v : value) (k : string) : option value :=
  if nullish v then None else Some (get v k).

(** [v?.k] *)
Definition opt_chain (v : value) (k : string) : value :=
  if nullish v then VUndefined else get v k.

(** [v.k = x] in strict mode: a property can be created on an object or an
    array, the assignment throws on a primitive. *)
Definition set_member (v : value) (k : string) (x : value) : option value :=
  match v with
  | VObj m => Some (VObj (<[k := x]> m))
  | VArr l m => Some (VArr l (<[k := x]> m))
  | _ => None
  end.

(** The index-keyed properties of an array or of a string. *)
Definition indexed (l : list value) : gmap string value :=
  list_to_map (imap (fun i x => (pretty i, x)) l).

(** [{...v}]: the own enumerable properties of [v]. *)
Definition spread (v : value) : gmap string value :=
  match v with
  | VObj m => m
  | VArr l m => indexed l ∪ m
  | VStr s => indexed (map VStr (chars s))
  | _ => ∅
  end.

(** [[...v]]: the elements of an iterable, a [TypeError] otherwise. *)
Definition iterate (v : value) : option (list value) :=
  match v with
  | VArr l _ => Some l
  | VStr s => Some (map VStr (chars s))
  | _ => None
  end.

Definition number_eq (a b : number) : bool :=
  match a, b with
  | Fin x, Fin y => Qeq_bool x y
  | Inf x, Inf y => Bool.eqb x y
  | _, _ => false
  end.

(** [a === b]. Primitives compare by value ([NaN] differs from itself);
    arrays and objects compare by identity. The values are trees, so two
    of them found at different places are different objects: [same_place]
    tells whether [a] and [b] were read from the same place. *)
Definition strict_equals (same_place : bool) (a b : value) : bool :=
  match a, b with
  | VUndefined, VUndefined => true
  | VNull, VNull => true
  | VBool x, VBool y => Bool.eqb x y
  | VNum x, VNum y => number_eq x y
  | VStr x, VStr y => String.eqb x y
  | VArr _ _, VArr _ _ => same_place
  | VObj _, VObj _ => same_place
  | _, _ => false
  end.

(** [Number(v)], as [isNaN] applies it. An array converts through its
    string form, the elements joined by commas: the empty array gives 0,
    an array of one element converts like the string form of that
    element, and no text with a comma is a number. *)
Fixpoint ToNumber (v : value) : number :=
  match v with
  | VUndefined => NaN
  | VNull => Fin 0
  | VBool b => Fin (if b then 1 else 0)
  | VNum n => n
  | VStr s => StringToNumber s
  | VArr [] _ => Fin 0
  | VArr [x] _ =>
      match x with
      | VUndefined | VNull => Fin 0
      | VNum n => n
      | VStr s => StringToNumber s
      | VBool _ => NaN
      | VArr _ _ => ToNumber x
      | VObj _ => NaN
      end
  | VArr _ _ => NaN
  | VObj _ => NaN
  end.

(** The global [isNaN(v)] *)
Definition isNaN (v : value) : bool :=
  match ToNumber v with NaN => true | _ => false end.

(** ** The draft reconciler

    A thrown exception is [None]. The host's [JSON.parse] is a parameter of
    the model: it returns the parsed value, or [None] when it throws. *)

Section Reconciler.

Variable JSON_parse : string -> option value.

(** The copy of the existing draft, its [requirements] parsed when they
    are a non-empty string and removed when the string does not parse. *)
Definition normalizeExisting (existingDraft : value) : gmap string value :=
  let normalizedExistingRfpDraft := spread existingDraft in
  match field normalizedExistingRfpDraft "requirements" with
  | VStr s =>
      if truthy (VStr s) then
        match JSON_parse s with
        | Some parsed => <["requirements" := parsed]> normalizedExistingRfpDraft
        | None => delete "requirements" normalizedExistingRfpDraft
        end
      else normalizedExistingRfpDraft
  | _ => normalizedExistingRfpDraft
  end.

(** [if (!update.requirements) update.requirements = {}] *)
Definition ensureRequirements (update : gmap string value) : gmap string value :=
  if truthy (field update "requirements") then update
  else <["requirements" := VObj ∅]> update.

(** [update.requirements.k = x] *)
Definition setRequirement (update : gmap string value) (k : string) (x : value)
  : option (gmap string value) :=
  r ← set_member (field update "requirements") k x;
  Some (<["requirements" := r]> update).

(** Move [items] from the top level to [requirements.items]. In the
    string case the assignment stands in a [try] whose handler repeats it
    with the fallback value, so a failing assignment fails in the handler
    again. *)
Definition moveItems (update : gmap string value) : option (gmap string value) :=
  if truthy (field update "items")
     && negb (truthy (opt_chain (field update "requirements") "items"))
  then
    let update := ensureRequirements update in
    update ←
      match field update "items" with
      | VStr s =>
          setRequirement update "items"
            (match JSON_parse s with
             | Some parsed => parsed
             | None => arr [VObj {["name" := VStr s]}]
             end)
      | VArr l m => setRequirement update "items" (VArr l m)
      | _ => Some update
      end;
    Some (delete "items" update)
  else Some update.

(** Move [deliveryRequirements] to [requirements.deliveryDays]. *)
Definition moveDeliveryRequirements (update : gmap string value)
  : option (gmap string value) :=
  if truthy (field update "deliveryRequirements")
     && negb (truthy (opt_chain (field update "requirements") "deliveryDays"))
  then
    let update := ensureRequirements update in
    let deliveryDays :=
      match field update "deliveryRequirements" with
      | VStr s => VNum (parseInt s)
      | other => other
      end in
    update ←
      (if negb (isNaN deliveryDays)
       then setRequirement update "deliveryDays" deliveryDays
       else Some update);
    Some (delete "deliveryRequirements" update)
  else Some update.

(** Normalize [budget]. *)
Definition normalizeBudget (update : gmap string value) : gmap string value :=
  match field update "budget" with
  | VNull => delete "budget" update
  | VStr s =>
      if String.eqb s "" then delete "budget" update
      else
        let budgetNum := parseFloat s in
        <["budget" := if isNaN (VNum budgetNum) then VUndefined else VNum budgetNum]> update
  | _ => update
  end.

(** Normalize [deadline]. *)
Definition normalizeDeadline (update : gmap string value) : gmap string value :=
  match field update "deadline" with
  | VNull => delete "deadline" update
  | VStr s => if String.eqb s "" then delete "deadline" update else update
  | _ => update
  end.

(** [self.findIndex((i) => i.name === item.name)], from index [j] on;
    [item] is the element at index [k]. *)
Fixpoint findIndex_name (rest : list value) (j : nat) (item : value) (k : nat)
  : option (option nat) :=
  match rest with
  | [] => Some None
  | i :: rest' =>
      ni ← get_member i "name";
      nitem ← get_member item "name";
      if strict_equals (j =? k)%nat ni nitem then Some (Some j)
      else findIndex_name rest' (S j) item k
  end.

(** [self.filter((item, index, self) => index === self.findIndex(...))],
    from index [k] on. *)
Fixpoint filter_first (self rest : list value) (k : nat) : option (list value) :=
  match rest with
  | [] => Some []
  | item :: rest' =>
      found ← findIndex_name self 0 item k;
      kept ← filter_first self rest' (S k);
      Some (match found with
            | Some j => if (j =? k)%nat then item :: kept else kept
            | None => kept
            end)
  end.

(** The merge of the two copies. *)
Definition mergeDrafts (normalizedExistingRfpDraft update : gmap string value)
  : option value :=
  let existingRequirements := field normalizedExistingRfpDraft "requirements" in
  let updateRequirements := field update "requirements" in
  requirements ←
    (if truthy (or_else updateRequirements existingRequirements) then
       existingItems ← iterate (or_else (opt_chain existingRequirements "items") (arr []));
       updateItems ← iterate (or_else (opt_chain updateRequirements "items") (arr []));
       let all := existingItems ++ updateItems in
       items ← filter_first all all 0;
       Some (VObj (<["items" := arr items]>
                     (spread (or_else updateRequirements (VObj ∅))
                      ∪ spread (or_else existingRequirements (VObj ∅)))))
     else Some VUndefined);
  Some (VObj (<["requirements" := requirements]> (update ∪ normalizedExistingRfpDraft))).

(** [normalizeRfpDraft] *)
Definition normalizeRfpDraft (existingDraft draftUpdate : value) : option value :=
  let normalizedExistingRfpDraft := normalizeExisting existingDraft in
  if negb (truthy draftUpdate) then Some (VObj normalizedExistingRfpDraft)
  else
    let update := spread draftUpdate in
    update ← moveItems update;
    update ← moveDeliveryRequirements update;
    let update := normalizeDeadline (normalizeBudget update) in
    mergeDrafts normalizedExistingRfpDraft update.

End Reconciler.

(** A host parser that rejects every text. The sample drafts below hold no
    JSON text, so the reconciler never calls the parser on them. *)
Definition no_json : string -> option value := fun _ => None.

(** *** Deduplication, stated directly

    [keep_first seen l] keeps an element of [l] when its name equals
    neither a name in [seen] nor the name of an earlier element of [l],
    and equals itself (a [NaN] name does not). It is what the
    [filter]/[findIndex] pair computes, see [filter_first_keep_first]. *)

Definition name_of (v : value) : value := get v "name".

Definition seen_in (seen : list value) (n : value) : bool :=
  existsb (fun m => strict_equals false m n) seen.

Fixpoint keep_first (seen : list value) (l : list value) : list value :=
  match l with
  | [] => []
  | x :: l' =>
      let n := name_of x in
      if seen_in seen n || negb (strict_equals true n n)
      then keep_first (seen ++ [n]) l'
      else x :: keep_first (seen ++ [n]) l'
  end.



(** [merged.requirements.items] of a result of the reconciler. *)
Definition merged_items (result : option value) : option (list value) :=
  merged ← result;
  match get (get merged "requirements") "items" with
  | VArr l _ => Some l
  | _ => None
  end.

(** A merged draft is an object whose [requirements] are [undefined] or an
    object whose [items] are an array that the filter leaves as it is. *)
Definition canonical (merged : gmap string value) : Prop :=
  merged !! "requirements" = Some VUndefined
  \/ exists r items,
       merged !! "requirements" = Some (VObj r)
       /\ r !! "items" = Some (arr items)
       /\ filter_first items items 0 = Some items.


(** The [requirements] of the existing draft, read from the text when the
    draft stores them as text. *)
Definition existingRequirements (parse : string -> option value)
    (existing : gmap string value) : value :=
  match field existing "requirements" with
  | VStr s =>
      if truthy (VStr s) then
        match parse s with
        | Some parsed => parsed
        | None => VUndefined
        end
      else VStr s
  | requirements => requirements
  end.




(** *** Sample drafts *)

Definition item_Laptop : value := obj [("name", VStr "Laptop")].
Definition item_laptop : value := obj [("name", VStr "laptop"); ("quantity", num 20)].
Definition item_Laptop_again : value := obj [("name", VStr "Laptop"); ("quantity", num 20)].

Definition draft_Laptop_fields : gmap string value :=
  list_to_map [("title", VStr "Office laptops"); ("budget", num 5000);
               ("requirements", obj [("items", arr [item_Laptop])])].

Definition draft_Laptop : value := VObj draft_Laptop_fields.

Definition fragment_laptop : value :=
  obj [("requirements", obj [("items", arr [item_laptop])])].

Definition fragment_Laptop_again_fields : gmap string value :=
  list_to_map [("requirements", obj [("items", arr [item_Laptop_again])])].

Definition fragment_Laptop_again : value := VObj fragment_Laptop_again_fields.

Definition fragment_bad_budget : value :=
  obj [("budget", VStr "about five thousand")].

Definition fragment_empty_budget : value :=
  obj [("budget", VStr ""); ("description", VStr "Laptops for the new office")].

Definition item_Monitor : value := obj [("name", VStr "Monitor"); ("quantity", num 5)].

(** An existing draft whose requirements have no items yet. *)
Definition draft_no_items_fields : gmap string value :=
  list_to_map [("title", VStr "Office laptops");
               ("requirements", obj [("deliveryDays", num 30)])].

(** A fragment in the legacy shape, its items at the top level. *)
Definition fragment_legacy_items_fields : gmap string value :=
  list_to_map [("items", arr [item_Laptop_again; item_Monitor; item_laptop])].

(** A fragment in the legacy shape whose items are a text. *)
Definition fragment_text_items_fields : gmap string value :=
  list_to_map [("items", VStr "Laptop")].

(** A fragment without requirement items. *)
Definition fragment_delivery_only_fields : gmap string value :=
  list_to_map [("deliveryRequirements", VStr "30 days")].

(** ** The draft reconciler on a store

    The model above returns values. Whether the reconciler changes the
    objects it is given is a question about the store, so this second model
    of the same function keeps objects in a store and values that refer to
    them: two values may be the same object, and an assignment to a
    property is seen through every reference to the object.

    The two shallow copies [normalizedExistingRfpDraft] and [update] are
    objects that only the function holds until it returns; their property
    tables are passed along explicitly and an object is allocated for the
    one that is returned. Objects that are dropped within an expression
    (the defaults [{}] and [[]] of [x || {}] and [x || []], and the array
    that [filter] reads) are not allocated. *)

Module Store.

Abbreviation loc := positive.

(** A value: a primitive, or a reference to an object of the store. *)
Inductive ref_value :=
| RUndefined
| RNull
| RBool (b : bool)
| RNum (n : number)
| RStr (s : string)
| RRef (l : loc).

(** An object of the store: an array with its elements, or a plain object
    (no elements), and the named properties. *)
Record object := {
  is_array : bool;
  elements : list ref_value;
  properties : gmap string ref_value;
}.

Definition plain (props : gmap string ref_value) : object :=
  {| is_array := false; elements := []; properties := props |}.

Definition array (elems : list ref_value) : object :=
  {| is_array := true; elements := elems; properties := ∅ |}.

Abbreviation heap := (gmap loc object).

(** A computation on the store; [None] is a thrown exception (or a
    reference that the store does not hold). *)
Definition M (A : Type) : Type := heap -> option (A * heap).

Definition ret {A} (a : A) : M A := fun h => Some (a, h).

Definition bind {A B} (m : M A) (f : A -> M B) : M B :=
  fun h => match m h with Some (a, h') => f a h' | None => None end.

Notation "'do' x <- m ; k" := (bind m (fun x => k))
  (at level 10, x name, m at level 100, k at level 200).

Definition throw {A} : M A := fun _ => None.

(** A result that only reads the store. *)
Definition reading {A} (f : heap -> option A) : M A :=
  fun h => match f h with Some a => Some (a, h) | None => None end.

(** A new object. *)
Definition alloc (o : object) : M ref_value :=
  fun h => let l := fresh (dom h) in Some (RRef l, <[l := o]> h).

(** [v.k = x] in strict mode. *)
Definition set_member (v : ref_value) (k : string) (x : ref_value) : M unit :=
  match v with
  | RRef l =>
      fun h =>
        match h !! l with
        | Some o =>
            Some (tt, <[l := {| is_array := is_array o; elements := elements o;
                                properties := <[k := x]> (properties o) |}]> h)
        | None => None
        end
  | _ => throw
  end.

Definition truthy (v : ref_value) : bool :=
  match v with
  | RUndefined | RNull => false
  | RBool b => b
  | RNum NaN => false
  | RNum (Inf _) => true
  | RNum (Fin q) => negb (Qeq_bool q 0)
  | RStr s => negb (String.eqb s "")
  | RRef _ => true
  end.

Definition or_else (a b : ref_value) : ref_value := if truthy a then a else b.

Definition nullish (v : ref_value) : bool :=
  match v with RUndefined | RNull => true | _ => false end.

Definition field (m : gmap string ref_value) (k : string) : ref_value :=
  default RUndefined (m !! k).

(** [v.k] for the property names that the reconciler reads. *)
Definition get_member (h : heap) (v : ref_value) (k : string) : option ref_value :=
  match v with
  | RUndefined | RNull => None
  | RRef l => o ← h !! l; Some (field (properties o) k)
  | _ => Some RUndefined
  end.

(** [v?.k] *)
Definition opt_chain (h : heap) (v : ref_value) (k : string) : option ref_value :=
  if nullish v then Some RUndefined else get_member h v k.

Definition indexed (l : list ref_value) : gmap string ref_value :=
  list_to_map (imap (fun i x => (pretty i, x)) l).

(** [{...v}] *)
Definition spread (h : heap) (v : ref_value) : option (gmap string ref_value) :=
  match v with
  | RRef l => o ← h !! l; Some (indexed (elements o) ∪ properties o)
  | RStr s => Some (indexed (map RStr (chars s)))
  | _ => Some ∅
  end.

(** [[...v]] *)
Definition iterate (h : heap) (v : ref_value) : option (list ref_value) :=
  match v with
  | RRef l => o ← h !! l; if is_array o then Some (elements o) else None
  | RStr s => Some (map RStr (chars s))
  | _ => None
  end.

Definition isArray (h : heap) (v : ref_value) : bool :=
  match v with
  | RRef l => match h !! l with Some o => is_array o | None => false end
  | _ => false
  end.

(** [a === b]: two references are equal when they are the same object. *)
Definition strict_equals (a b : ref_value) : bool :=
  match a, b with
  | RUndefined, RUndefined => true
  | RNull, RNull => true
  | RBool x, RBool y => Bool.eqb x y
  | RNum x, RNum y => number_eq x y
  | RStr x, RStr y => String.eqb x y
  | RRef x, RRef y => Pos.eqb x y
  | _, _ => false
  end.

(** [Number(v)]; [depth] bounds the nesting of arrays that is followed (an
    array that contains itself converts to the empty text, hence to 0). *)
Fixpoint ToNumber (depth : nat) (h : heap) (v : ref_value) : number :=
  match v with
  | RUndefined => NaN
  | RNull => Fin 0
  | RBool b => Fin (if b then 1 else 0)
  | RNum n => n
  | RStr s => StringToNumber s
  | RRef l =>
      match depth, h !! l with
      | S depth', Some o =>
          if is_array o then
            match elements o with
            | [] => Fin 0
            | [x] =>
                match x with
                | RUndefined | RNull => Fin 0
                | RNum n => n
                | RStr s => StringToNumber s
                | RBool _ => NaN
                | RRef _ => ToNumber depth' h x
                end
            | _ => NaN
            end
          else NaN
      | O, Some o => if is_array o then Fin 0 else NaN
      | _, None => NaN
      end
  end.

Definition isNaN (h : heap) (v : ref_value) : bool :=
  match ToNumber (S (size h)) h v with NaN => true | _ => false end.

Section Reconciler.

(** The host's [JSON.parse] on the store: the parsed value and the store
    with the objects it has created, or [None] when it throws. *)
Variable JSON_parse : string -> heap -> option (ref_value * heap).

(** The property table of the copy of the existing draft. *)
Definition normalizeExisting (existingDraft : ref_value) : M (gmap string ref_value) :=
  do normalizedExistingRfpDraft <- reading (fun h => spread h existingDraft);
  match field normalizedExistingRfpDraft "requirements" with
  | RStr s =>
      if truthy (RStr s) then
        fun h =>
          match JSON_parse s h with
          | Some (parsed, h') =>
              Some (<["requirements" := parsed]> normalizedExistingRfpDraft, h')
          | None => Some (delete "requirements" normalizedExistingRfpDraft, h)
          end
      else ret normalizedExistingRfpDraft
  | _ => ret normalizedExistingRfpDraft
  end.

(** [if (!update.requirements) update.requirements = {}] *)
Definition ensureRequirements (update : gmap string ref_value)
  : M (gmap string ref_value) :=
  if truthy (field update "requirements") then ret update
  else do fresh_requirements <- alloc (plain ∅);
       ret (<["requirements" := fresh_requirements]> update).

(** Move [items] from the top level to [requirements.items]. The object
    written to is the one that [update.requirements] refers to. *)
Definition moveItems (update : gmap string ref_value) : M (gmap string ref_value) :=
  do nested <- reading (fun h => opt_chain h (field update "requirements") "items");
  if truthy (field update "items") && negb (truthy nested) then
    do update <- ensureRequirements update;
    do _ <-
      match field update "items" with
      | RStr s =>
          fun h =>
            match JSON_parse s h with
            | Some (parsed, h') =>
                (* a failing assignment is caught, and fails in the
                   handler again *)
                set_member (field update "requirements") "items" parsed h'
            | None =>
                (do named <- alloc (plain {["name" := RStr s]});
                 do fallback <- alloc (array [named]);
                 set_member (field update "requirements") "items" fallback) h
            end
      | items =>
          do is_arr <- reading (fun h => Some (isArray h items));
          if is_arr then set_member (field update "requirements") "items" items
          else ret tt
      end;
    ret (delete "items" update)
  else ret update.

(** Move [deliveryRequirements] to [requirements.deliveryDays]. *)
Definition moveDeliveryRequirements (update : gmap string ref_value)
  : M (gmap string ref_value) :=
  do nested <- reading (fun h => opt_chain h (field update "requirements") "deliveryDays");
  if truthy (field update "deliveryRequirements") && negb (truthy nested) then
    do update <- ensureRequirements update;
    let deliveryDays :=
      match field update "deliveryRequirements" with
      | RStr s => RNum (parseInt s)
      | other => other
      end in
    do is_nan <- reading (fun h => Some (isNaN h deliveryDays));
    do _ <- (if negb is_nan
             then set_member (field update "requirements") "deliveryDays" deliveryDays
             else ret tt);
    ret (delete "deliveryRequirements" update)
  else ret update.

Definition normalizeBudget (update : gmap string ref_value) : gmap string ref_value :=
  match field update "budget" with
  | RNull => delete "budget" update
  | RStr s =>
      if String.eqb s "" then delete "budget" update
      else
        let budgetNum := parseFloat s in
        <["budget" := match budgetNum with NaN => RUndefined | _ => RNum budgetNum end]>
          update
  | _ => update
  end.

Definition normalizeDeadline (update : gmap string ref_value) : gmap string ref_value :=
  match field update "deadline" with
  | RNull => delete "deadline" update
  | RStr s => if String.eqb s "" then delete "deadline" update else update
  | _ => update
  end.

Fixpoint findIndex_name (h : heap) (rest : list ref_value) (j : nat) (item : ref_value)
  : option (option nat) :=
  match rest with
  | [] => Some None
  | i :: rest' =>
      ni ← get_member h i "name";
      nitem ← get_member h item "name";
      if strict_equals ni nitem then Some (Some j)
      else findIndex_name h rest' (S j) item
  end.

Fixpoint filter_first (h : heap) (self rest : list ref_value) (k : nat)
  : option (list ref_value) :=
  match rest with
  | [] => Some []
  | item :: rest' =>
      found ← findIndex_name h self 0 item;
      kept ← filter_first h self rest' (S k);
      Some (match found with
            | Some j => if (j =? k)%nat then item :: kept else kept
            | None => kept
            end)
  end.

(** The items to merge from one side: [[...(r?.items || [])]]. *)
Definition items_of (h : heap) (r : ref_value) : option (list ref_value) :=
  nested ← opt_chain h r "items";
  if truthy nested then iterate h nested else Some [].

(** The properties to merge from one side: [{...(r || {})}]. *)
Definition properties_of (h : heap) (r : ref_value)
  : option (gmap string ref_value) :=
  if truthy r then spread h r else Some ∅.

Definition mergeDrafts (normalizedExistingRfpDraft update : gmap string ref_value)
  : M ref_value :=
  let existingRequirements := field normalizedExistingRfpDraft "requirements" in
  let updateRequirements := field update "requirements" in
  do requirements <-
    (if truthy (or_else updateRequirements existingRequirements) then
       do existingProperties <- reading (fun h => properties_of h existingRequirements);
       do updateProperties <- reading (fun h => properties_of h updateRequirements);
       do existingItems <- reading (fun h => items_of h existingRequirements);
       do updateItems <- reading (fun h => items_of h updateRequirements);
       let all := existingItems ++ updateItems in
       do items <- reading (fun h => filter_first h all all 0);
       do items_array <- alloc (array items);
       alloc (plain (<["items" := items_array]> (updateProperties ∪ existingProperties)))
     else ret RUndefined);
  alloc (plain (<["requirements" := requirements]> (update ∪ normalizedExistingRfpDraft))).

(** [normalizeRfpDraft] *)
Definition normalizeRfpDraft (existingDraft draftUpdate : ref_value) : M ref_value :=
  do normalizedExistingRfpDraft <- normalizeExisting existingDraft;
  if negb (truthy draftUpdate) then alloc (plain normalizedExistingRfpDraft)
  else
    do update <- reading (fun h => spread h draftUpdate);
    do update <- moveItems update;
    do update <- moveDeliveryRequirements update;
    let update := normalizeDeadline (normalizeBudget update) in
    mergeDrafts normalizedExistingRfpDraft update.

End Reconciler.

(** A host parser that rejects every text. *)
Definition no_json : string -> heap -> option (ref_value * heap) := fun _ _ => None.

(** The tree that a value of the store stands for, references followed to
    depth [depth]. *)
Fixpoint reify (depth : nat) (h : heap) (v : ref_value) : value :=
  match v with
  | RUndefined => VUndefined
  | RNull => VNull
  | RBool b => VBool b
  | RNum n => VNum n
  | RStr s => VStr s
  | RRef l =>
      match depth, h !! l with
      | S depth', Some o =>
          if is_array o
          then VArr (map (reify depth' h) (elements o)) (reify depth' h <$> properties o)
          else VObj (reify depth' h <$> properties o)
      | _, _ => VUndefined
      end
  end.

(** *** Objects of the caller

    [h0] is the store at the call and [r] the value of
    [draftUpdate.requirements]. *)

(** Every object of the caller is still there, and is the same unless [r]
    refers to it. *)
Definition kept (h0 : heap) (r : ref_value) (h : heap) : Prop :=
  forall l, is_Some (h0 !! l) ->
            is_Some (h !! l) /\ (r <> RRef l -> h !! l = h0 !! l).

(** [v] may be assigned to: it is [r] or an object created since the call. *)
Definition assignable (h0 : heap) (r : ref_value) (v : ref_value) : Prop :=
  forall t, v = RRef t -> r = RRef t \/ h0 !! t = None.

(** The objects of a tree, created in the store. *)
Fixpoint to_store (v : value) : M ref_value :=
  match v with
  | VUndefined => ret RUndefined
  | VNull => ret RNull
  | VBool b => ret (RBool b)
  | VNum n => ret (RNum n)
  | VStr s => ret (RStr s)
  | VArr l m =>
      do elems <- (fix go (l : list value) : M (list ref_value) :=
                     match l with
                     | [] => ret []
                     | x :: l' => do rx <- to_store x; do rl <- go l'; ret (rx :: rl)
                     end) l;
      do props <- map_fold (fun k x (acc : M (gmap string ref_value)) =>
                              do m' <- acc; do rx <- to_store x; ret (<[k := rx]> m'))
                           (ret ∅) m;
      alloc {| is_array := true; elements := elems; properties := props |}
  | VObj m =>
      do props <- map_fold (fun k x (acc : M (gmap string ref_value)) =>
                              do m' <- acc; do rx <- to_store x; ret (<[k := rx]> m'))
                           (ret ∅) m;
      alloc (plain props)
  end.

(** The store model run on two trees, its result read back as a tree. *)
Definition run_on_trees (existingDraft draftUpdate : value) : option value :=
  match (do a <- to_store existingDraft;
         do b <- to_store draftUpdate;
         normalizeRfpDraft no_json a b) ∅ with
  | Some (result, h) => Some (reify 8 h result)
  | None => None
  end.

(** *** A sample store

    [1] is an existing draft without requirements. [2] is a fragment in
    the legacy shape, with [items] at the top level ([3], holding the item
    [5]) next to a [requirements] object [4] that has only
    [deliveryDays]. *)
Definition sample_heap : heap :=
  list_to_map
    [(1%positive, plain (list_to_map [("title", RStr "Office laptops")]));
     (2%positive, plain (list_to_map [("items", RRef 3%positive); ("requirements", RRef 4%positive)]));
     (3%positive, array [RRef 5%positive]);
     (4%positive, plain (list_to_map [("deliveryDays", RNum (Fin 7))]));
     (5%positive, plain (list_to_map [("name", RStr "Laptop")]))].

End Store.

(** The same two arguments as trees. *)
Definition draft_untitled : value := obj [("title", VStr "Office laptops")].

Definition fragment_legacy : value :=
  obj [("items", arr [item_Laptop]);
       ("requirements", obj [("deliveryDays", VNum (Fin 7))])].

(** The reconciler run on the sample store, with the draft [1] and the
    fragment [2]. *)
Definition sample_run : option (Store.ref_value * Store.heap) :=
  Store.normalizeRfpDraft Store.no_json (Store.RRef 1%positive) (Store.RRef 2%positive)
    Store.sample_heap.

(** Pairs of arguments off the data model: legacy shapes, a string or an
    array where an object is expected, items that are [null], names that
    are objects or [NaN], and no fragment at all. *)
Definition edge_cases : list (value * value) :=
  [ (draft_Laptop, obj [("items", VStr "chairs"); ("deliveryRequirements", VStr "14 days")]);
    (draft_Laptop, obj [("items", arr [item_laptop; item_Laptop_again; VNull])]);
    (draft_Laptop, obj [("items", arr [item_laptop]); ("requirements", arr [])]);
    (draft_Laptop, obj [("items", arr [item_laptop]); ("requirements", VStr "abc")]);
    (draft_Laptop, VStr "abc");
    (draft_Laptop, arr [num 1]);
    (VStr "abc", obj []);
    (obj [("requirements", VStr "{}")],
     obj [("deliveryRequirements", arr [arr [VStr " 7 "]])]);
    (obj [("requirements", obj [("items", VStr "ab")])],
     obj [("deliveryRequirements", VBool true);
          ("requirements",
           obj [("items", arr [obj [("name", obj [])]; obj [("name", obj [])];
                               obj [("name", VNum NaN)]; VStr "a"; num 3])]);
          ("budget", VStr " 12.50 USD"); ("deadline", VNull)]);
    (obj [("requirements", obj [("items", num 5)])], obj []);
    (obj [], obj [("deliveryRequirements", obj [])]);
    (obj [], obj [("deliveryRequirements", arr [num 1; num 2]); ("budget", VNull)]);
    (VNull, VBool true);
    (draft_Laptop, VNull);
    (draft_Laptop, num 0) ].

(** The route merges the same fragment object twice in one request (once
    for the agent state, once in [processRfpDraft]): the second call has
    the result of the first as its existing draft. *)
Definition sample_second_run : option (Store.ref_value * Store.heap) :=
  match sample_run with
  | Some (merged, h) =>
      Store.normalizeRfpDraft Store.no_json merged (Store.RRef 2%positive) h
  | None => None
  end.

(** [draft.items], the top-level property, of a result on the store. *)
Definition top_level_items (run : option (Store.ref_value * Store.heap)) : option value :=
  match run with
  | Some (merged, h) => Some (get (Store.reify 4 h merged) "items")
  | None => None
  end.

(** ** More of the evaluation service *)

(** [evaluations.sort((a, b) => b.overallScore - a.overallScore)]. The
    order that [Array.prototype.sort] returns is fixed by its
    specification, a stable sort under a consistent comparator, whatever
    algorithm the engine uses; it is computed here by insertion. An
    evaluation goes in front of the first one that does not score higher. *)
Fixpoint insert_by_score (e : ProposalEvaluation) (sorted : list ProposalEvaluation)
  : list ProposalEvaluation :=
  match sorted with
  | [] => [e]
  | x :: rest =>
      if (overallScore e <? overallScore x)%Z then x :: insert_by_score e rest
      else e :: x :: rest
  end.

Definition sort_by_score (evaluations : list ProposalEvaluation)
  : list ProposalEvaluation :=
  fold_right insert_by_score [] evaluations.

(** [evaluateProposals] *)
Definition evaluateProposals (proposals : list Proposal) (rfp : Rfp)
  : list ProposalEvaluation :=
  let evaluations := map (fun proposal => evaluateProposal proposal rfp) proposals in
  sort_by_score evaluations.



(** Every criterion of [c1] scores at most what it scores in [c2]. *)
Definition scores_le (c1 c2 : EvaluationCriteria) : Prop :=
  (price_score (c_price c1) <= price_score (c_price c2)
   /\ delivery_score (c_delivery c1) <= delivery_score (c_delivery c2)
   /\ requirements_score (c_requirements c1) <= requirements_score (c_requirements c2)
   /\ paymentTerms_score (c_paymentTerms c1) <= paymentTerms_score (c_paymentTerms c2)
   /\ warranty_score (c_warranty c1) <= warranty_score (c_warranty c2)
   /\ completeness_score (c_completeness c1) <= completeness_score (c_completeness c2)
   /\ otherRequirements_score (c_otherRequirements c1)
      <= otherRequirements_score (c_otherRequirements c2))%Z.

(** The total price as [evaluateProposal] resolves it. *)
Definition resolved_totalPrice (proposal : Proposal) : option Q :=
  nullish_or proposal.(p_totalPrice) (pd_field proposal pd_totalPrice).

(** The three lists of [generateFeedback]. *)
Record Feedback := {
  strengths : list string;
  weaknesses : list string;
  concerns : list string;
}.

Definition no_feedback : Feedback :=
  {| strengths := []; weaknesses := []; concerns := [] |}.

(** The pushes of one block after those of the blocks before. *)
Definition feedback_app (a b : Feedback) : Feedback :=
  {| strengths := strengths a ++ strengths b;
     weaknesses := weaknesses a ++ weaknesses b;
     concerns := concerns a ++ concerns b |}.

Definition priceFeedback (price : PriceCriterion) : Feedback :=
  if (90 <=? price_score price)%Z then
    {| strengths := ["Excellent price competitiveness"]; weaknesses := []; concerns := [] |}
  else if (price_score price <? 60)%Z then
    {| strengths := [];
       weaknesses := [("Price significantly "
                       ++ (if Qlt_bool 0 (deviation price) then "over" else "under")
                       ++ " budget")%string];
       concerns := if Qlt_bool 30 (Qabs (deviation price))
                   then ["Price deviation may be a concern"] else [] |}
  else no_feedback.

Definition deliveryFeedback (delivery : DeliveryCriterion) : Feedback :=
  if (90 <=? delivery_score delivery)%Z then
    {| strengths := ["Delivery timeline meets or exceeds requirements"];
       weaknesses := []; concerns := [] |}
  else if (delivery_score delivery <? 60)%Z then
    {| strengths := [];
       weaknesses := ["Delivery timeline may not meet requirements"];
       concerns := match truthy_num (daysDifference delivery) with
                   | Some d => if Qlt_bool 14 d then ["Significant delivery delay"] else []
                   | None => []
                   end |}
  else no_feedback.

Definition requirementsFeedback (r : RequirementsCriterion) : Feedback :=
  if (90 <=? requirements_score r)%Z then
    {| strengths := ["All required items are addressed"]; weaknesses := []; concerns := [] |}
  else if (requirements_score r <? 70)%Z then
    let missingItems := (Z.of_nat (itemsTotal r) - Z.of_nat (itemsMatched r))%Z in
    {| strengths := [];
       weaknesses := [(pretty missingItems ++ " required item(s) not properly addressed")%string];
       concerns := ["Missing required items may disqualify this proposal"] |}
  else no_feedback.

Definition paymentTermsFeedback (p : PaymentTermsCriterion) : Feedback :=
  if (paymentTerms_score p =? 100)%Z then
    {| strengths := ["Payment terms align with requirements"]; weaknesses := []; concerns := [] |}
  else if negb (matches p) then
    {| strengths := []; weaknesses := ["Payment terms may not align with requirements"];
       concerns := [] |}
  else no_feedback.

Definition warrantyFeedback (w : WarrantyCriterion) : Feedback :=
  if (warranty_score w =? 100)%Z then
    {| strengths := ["Warranty meets or exceeds requirements"]; weaknesses := []; concerns := [] |}
  else if negb (meetsRequirement w) then
    {| strengths := []; weaknesses := ["Warranty may not meet requirements"]; concerns := [] |}
  else no_feedback.

Definition completenessFeedback (c : CompletenessCriterion) : Feedback :=
  if (80 <=? completeness_score c)%Z then
    {| strengths := ["Comprehensive and detailed proposal"]; weaknesses := []; concerns := [] |}
  else if (completeness_score c <? 60)%Z then
    {| strengths := []; weaknesses := ["Proposal may lack important details"];
       concerns := ["Incomplete proposal may require clarification"] |}
  else no_feedback.

Definition otherRequirementsFeedback (o : OtherRequirementsCriterion) : Feedback :=
  if (0 <? List.length (missing o))%nat then
    {| strengths := [];
       weaknesses := [(pretty (List.length (missing o))
                       ++ " other requirement(s) not addressed")%string];
       concerns := [] |}
  else no_feedback.

(** [generateFeedback]: strengths, weaknesses and concerns from an
    evaluation, criterion by criterion. *)
Definition generateFeedback (evaluation : ProposalEvaluation) : Feedback :=
  let c := criteria evaluation in
  feedback_app (priceFeedback (c_price c))
    (feedback_app (deliveryFeedback (c_delivery c))
       (feedback_app (requirementsFeedback (c_requirements c))
          (feedback_app (paymentTermsFeedback (c_paymentTerms c))
             (feedback_app (warrantyFeedback (c_warranty c))
                (feedback_app (completenessFeedback (c_completeness c))
                   (otherRequirementsFeedback (c_otherRequirements c))))))).

(** ** More of the conversation service

    [normalizeStateUpdate] prepares the state update of the language model
    before validation; [processRfpDraft] merges its draft fragment into the
    draft of the conversation and creates or updates the RFP row from the
    merged draft. The database is outside the model: the row that a lookup
    finds is an argument, and the row that is inserted or the columns that
    are written are the result. *)

(** [typeof v === 'object'] *)
Definition typeof_object (v : value) : bool :=
  match v with
  | VNull | VArr _ _ | VObj _ => true
  | _ => false
  end.

(** [v.length] of a value that is neither [null] nor [undefined]. *)
Definition length_of (v : value) : value :=
  match v with
  | VArr l _ => num (Z.of_nat (List.length l))
  | VStr s => num (Z.of_nat (String.length s))
  | VObj m => field m "length"
  | _ => VUndefined
  end.

(** [v > 0] *)
Definition greater_than_zero (v : value) : bool :=
  match ToNumber v with
  | Fin q => Qlt_bool 0 q
  | Inf negative => negb negative
  | NaN => false
  end.

(** [v && v.length > 0] as a condition. *)
Definition non_empty (v : value) : bool :=
  truthy v && greater_than_zero (length_of v).

(** [v && v.trim() !== ''] as a condition. It holds when [v] is a string
    [s] that is not blank, and then gives [s]; [v.trim()] throws on a truthy
    value that is not a string. *)
Definition non_blank (v : value) : option (option string) :=
  if truthy v then
    match v with
    | VStr s => Some (if String.eqb (trim s) "" then None else Some s)
    | _ => None
    end
  else Some None.

Definition placeholderTitle : string := "Auto-generated title".

(** The [requirements] object that [updateRfpFromDraft] and
    [createRfpFromDraft] build from [mergedRfpDraft.requirements]. *)
Definition requirementsOf (r : value) : value :=
  obj [("items", or_else (opt_chain r "items") (arr []));
       ("deliveryDays", or_else (opt_chain r "deliveryDays") VNull);
       ("paymentTerms", or_else (opt_chain r "paymentTerms") VNull);
       ("warranty", or_else (opt_chain r "warranty") VNull);
       ("otherRequirements", or_else (opt_chain r "otherRequirements") (arr []))].

(** [hasRequirementsData] *)
Definition hasRequirementsData (r : value) : bool :=
  non_empty (opt_chain r "items")
  || truthy (opt_chain r "deliveryDays")
  || truthy (opt_chain r "paymentTerms")
  || truthy (opt_chain r "warranty")
  || non_empty (opt_chain r "otherRequirements").

(** The columns of an RFP row that [updateRfpFromDraft] reads. *)
Record RfpRow := {
  rfp_title : string;
  rfp_description : string;
}.

(** [updateData] without its [updatedAt]: the columns that are written.
    [u_deadline] is the argument of [new Date]; [u_cacheCleared] tells that
    [comparisonCache] and [comparisonCacheUpdatedAt] are set to [null]. *)
Record UpdateData := {
  u_title : option string;
  u_description : option string;
  u_budget : option value;
  u_deadline : option value;
  u_requirements : option value;
  u_cacheCleared : bool;
}.

(** [Object.keys(updateData).length > 1] *)
Definition writes_something (title description : option string)
    (budget deadline requirements : option value) : bool :=
  bool_decide (is_Some title) || bool_decide (is_Some description)
  || bool_decide (is_Some budget) || bool_decide (is_Some deadline)
  || bool_decide (is_Some requirements).

(** [updateRfpFromDraft]: [None] is a thrown exception, [Some None] a call
    that writes nothing. *)
Definition updateRfpFromDraft (existingRfp : option RfpRow) (mergedRfpDraft : value)
  : option (option UpdateData) :=
  match existingRfp with
  | None => Some None
  | Some existingRfp =>
    r ← get_member mergedRfpDraft "requirements";
    let requirements := requirementsOf r in
    let draftTitle := get mergedRfpDraft "title" in
    let draftDescription := get mergedRfpDraft "description" in
    fromDescription ←
      (if String.eqb existingRfp.(rfp_title) placeholderTitle
       then non_blank draftDescription else Some None);
    title ←
      match fromDescription with
      | Some description =>
          Some (Some (if (40 <? String.length description)%nat
                      then (trim (substring 0 40 description) ++ "...")%string
                      else trim description))
      | None =>
          t ← non_blank draftTitle;
          Some (match t with
                | Some t =>
                    if negb (String.eqb t placeholderTitle)
                       && negb (String.eqb t existingRfp.(rfp_title))
                    then Some t else None
                | None => None
                end)
      end;
    d ← non_blank draftDescription;
    let description :=
      match d with
      | Some d => if negb (String.eqb d existingRfp.(rfp_description)) then Some d else None
      | None => None
      end in
    let budget :=
      if nullish (get mergedRfpDraft "budget") then None
      else Some (get mergedRfpDraft "budget") in
    let deadline :=
      if truthy (get mergedRfpDraft "deadline") then Some (get mergedRfpDraft "deadline")
      else None in
    let requirements := if hasRequirementsData r then Some requirements else None in
    if writes_something title description budget deadline requirements then
      Some (Some {| u_title := title; u_description := description; u_budget := budget;
                    u_deadline := deadline; u_requirements := requirements;
                    u_cacheCleared := bool_decide (is_Some requirements)
                                      || bool_decide (is_Some budget) |})
    else Some None
  end.

(** The row that [createRfpFromDraft] inserts, without its [id], [status]
    and time stamps. [n_deadline] is the argument of [new Date], or [null]. *)
Record NewRfp := {
  n_title : string;
  n_description : value;
  n_budget : value;
  n_deadline : value;
  n_requirements : value;
}.

(** [createRfpFromDraft]: [None] is a thrown exception, [Some None] the
    [null] of a draft that is not complete enough. *)
Definition createRfpFromDraft (mergedRfpDraft : value) : option (option NewRfp) :=
  draftTitle ← get_member mergedRfpDraft "title";
  let draftDescription := get mergedRfpDraft "description" in
  let r := get mergedRfpDraft "requirements" in
  hasTitle ← non_blank draftTitle;
  hasDescription ← non_blank draftDescription;
  let hasItems := non_empty (opt_chain r "items") in
  match hasTitle with
  | None => Some None
  | Some title =>
    if negb (bool_decide (is_Some hasDescription)) && negb hasItems then Some None
    else
      let requirements := requirementsOf r in
      finalTitle ←
        (if String.eqb title placeholderTitle && truthy draftDescription then
           match draftDescription with
           | VStr description =>
               let desc := trim description in
               Some (if (50 <? String.length desc)%nat
                     then (trim (substring 0 50 desc) ++ "...")%string
                     else desc)
           | _ => None
           end
         else Some title);
      Some (Some {| n_title := finalTitle;
                    n_description := or_else draftDescription (VStr finalTitle);
                    n_budget := or_else (get mergedRfpDraft "budget") VNull;
                    n_deadline := if truthy (get mergedRfpDraft "deadline")
                                  then get mergedRfpDraft "deadline" else VNull;
                    n_requirements := requirements |})
  end.

(** What [processRfpDraft] does. *)
Inductive Processed :=
| NoDraft (rfpId : option string)
| Updated (rfpId : string) (written : option UpdateData)
| Created (row : NewRfp)
| NotCreated.

Section StateUpdate.

Variable JSON_parse : string -> option value.

(** [normalizeStateUpdate] *)
Definition normalizeStateUpdate (stateUpdate : value) : value :=
  if negb (truthy stateUpdate) || negb (typeof_object stateUpdate) then stateUpdate
  else
    let normalized := spread stateUpdate in
    if truthy (field normalized "rfpDraft") && typeof_object (field normalized "rfpDraft")
    then
      let rfpDraft := spread (field normalized "rfpDraft") in
      let rfpDraft :=
        match field rfpDraft "requirements" with
        | VUndefined => rfpDraft
        | VStr s =>
            match JSON_parse s with
            | Some parsed =>
                if typeof_object parsed && negb (nullish parsed)
                then <["requirements" := parsed]> rfpDraft
                else delete "requirements" rfpDraft
            | None => delete "requirements" rfpDraft
            end
        | VArr _ _ | VObj _ => rfpDraft
        | _ => delete "requirements" rfpDraft
        end in
      VObj (<["rfpDraft" := VObj rfpDraft]> normalized)
    else VObj normalized.

(** The test of the salvage step of [chatWithAgentState] on the copy of
    the normalized state update: [salvaged.rfpDraft?.requirements &&
    typeof salvaged.rfpDraft.requirements !== 'object']. *)
Definition salvage_deletes (normalizedStateUpdate : value) : bool :=
  let salvaged := spread normalizedStateUpdate in
  let requirements := opt_chain (field salvaged "rfpDraft") "requirements" in
  truthy requirements && negb (typeof_object requirements).

(** [processRfpDraft], for the draft and the RFP id of the agent state and
    the row that the lookup of that id finds. *)
Definition processRfpDraft (agent_rfpId : option string) (agent_rfpDraft : value)
    (existingRfp : option RfpRow) (stateUpdate : value) : option Processed :=
  rfpDraft ← get_member stateUpdate "rfpDraft";
  if negb (truthy rfpDraft) then Some (NoDraft (truthy_str agent_rfpId))
  else
    let existingRfpDraft := or_else agent_rfpDraft (VObj ∅) in
    mergedRfpDraft ← normalizeRfpDraft JSON_parse existingRfpDraft rfpDraft;
    match truthy_str agent_rfpId with
    | Some rfpId =>
        written ← updateRfpFromDraft existingRfp mergedRfpDraft;
        Some (Updated rfpId written)
    | None =>
        created ← createRfpFromDraft mergedRfpDraft;
        Some (match created with
              | Some row => Created row
              | None => NotCreated
              end)
    end.

End StateUpdate.

(** What [normalizeStateUpdate] leaves as the [requirements] of a draft
    fragment: nothing, an object or an array. *)
Definition requirements_shape (rfpDraft : gmap string value) : Prop :=
  match field rfpDraft "requirements" with
  | VUndefined | VArr _ _ | VObj _ => True
  | _ => False
  end.

(** The two moving steps of [normalizeRfpDraft] on the copy of a fragment. *)
Definition moveSteps (JSON_parse : string -> option value) (update : gmap string value)
  : option (gmap string value) :=
  update ← moveItems JSON_parse update;
  moveDeliveryRequirements update.

(** A state update whose draft has its items at the top level and a text
    as its requirements. *)
Definition stateUpdate_text_requirements : value :=
  obj [("rfpDraft", obj [("items", arr [item_Laptop]);
                         ("requirements", VStr "five laptops")])].

(** A merged draft that still has the placeholder title, a description of
    one space and one requirement item. *)
Definition draft_blank_description : value :=
  obj [("title", VStr placeholderTitle); ("description", VStr " ");
       ("requirements", obj [("items", arr [item_Laptop])])].

(** ** The [GET /compare/:rfpId] route as a whole

    A proposal row is read twice: [compareProposals] evaluates its data,
    the cache test reads its [updatedAt]. The language model contributes
    the text of a comparison, which is not part of [ComparisonResult];
    whether its call succeeds is an argument. *)

Record StoredProposal := {
  sp_data : Proposal;
  sp_row : ProposalRow;
}.

(** [compareProposals]: the evaluations, ranked, once the language model
    has answered; its failure is rethrown. *)
Definition compareProposals (model_answers : bool) (rfp : Rfp) (proposals : list Proposal)
  : option ComparisonResult :=
  let evaluations := evaluateProposals proposals rfp in
  if model_answers then Some {| evaluations := Some evaluations |} else None.

(** The outcome of the route for an RFP that exists: the answer carries
    the comparison, the [cached] flag of the response, and the cache that
    is saved with its time stamp when the comparison was generated. *)
Inductive CompareOutcome :=
| NoProposals
| Failed
| Answer (comparison : ComparisonResult) (cached : bool)
         (saved : option (ComparisonResult * Z)).

Definition compareRoute (refresh : option string) (rfp : Rfp)
    (comparisonCache : option ComparisonResult) (comparisonCacheUpdatedAt : option Z)
    (proposals : list StoredProposal) (model_answers : bool) (now : Z) : CompareOutcome :=
  if (List.length proposals =? 0)%nat then NoProposals
  else
    let refresh := bool_decide (is_Some (truthy_str refresh)) in
    let cached := negb refresh && bool_decide (is_Some comparisonCache)
                  && bool_decide (is_Some comparisonCacheUpdatedAt) in
    let comparison :=
      if usesCache refresh comparisonCache comparisonCacheUpdatedAt (map sp_row proposals)
      then comparisonCache else None in
    match comparison with
    | Some comparison => Answer comparison cached None
    | None =>
        match compareProposals model_answers rfp (map sp_data proposals) with
        | Some comparison => Answer comparison cached (Some (comparison, now))
        | None => Failed
        end
    end.

(** ** The in-memory cache ([cacheService.ts])

    The [Map] of the service is the state, and the reading of the clock,
    [Date.now()], is an argument of every operation that reads it. *)

Module CacheService.

Record CacheEntry (T : Type) := {
  data : T;
  expiresAt : Z;
}.

Arguments data {T} _.
Arguments expiresAt {T} _.

Abbreviation Cache T := (gmap string (CacheEntry T)).

Section Cache.

Context {T : Type}.

(** [get]: the data, or [null], and the map afterwards. *)
Definition get (now : Z) (key : string) (cache : Cache T) : option T * Cache T :=
  match cache !! key with
  | None => (None, cache)
  | Some entry =>
      if (expiresAt entry <? now)%Z then (None, base.delete key cache)
      else (Some (data entry), cache)
  end.

(** [set] *)
Definition set (now : Z) (key : string) (data : T) (ttlMs : Z) (cache : Cache T)
  : Cache T :=
  <[key := {| data := data; expiresAt := (now + ttlMs)%Z |}]> cache.

(** [delete] *)
Definition delete (key : string) (cache : Cache T) : Cache T := base.delete key cache.

(** [clear] *)
Definition clear (cache : Cache T) : Cache T := ∅.

(** [clearExpired] *)
Definition clearExpired (now : Z) (cache : Cache T) : Cache T :=
  base.filter (fun kv => negb (expiresAt kv.2 <? now)%Z = true) cache.

End Cache.

End CacheService.

(** ** [sanitizeString] ([middleware/validation.ts]) *)

(** Whether a [>] occurs in [s]. *)
Fixpoint has_gt (s : string) : bool :=
  match s with
  | EmptyString => false
  | String c s' => Ascii.eqb c ">" || has_gt s'
  end.

(** [s.replace(/<[^>]*>/g, '')]. A [<] opens a match when a [>] follows
    somewhere, and the match ends at the first [>]; [in_tag] tells that
    the scan is inside a match. *)
Fixpoint strip_tags (in_tag : bool) (s : string) : string :=
  match s with
  | EmptyString => EmptyString
  | String c s' =>
      if in_tag then strip_tags (negb (Ascii.eqb c ">")) s'
      else if Ascii.eqb c "<" && has_gt s' then strip_tags true s'
      else String c (strip_tags false s')
  end.

(** [sanitizeString] *)
Definition sanitizeString (input : option string) : option string :=
  match truthy_str input with
  | None => None
  | Some input => Some (strip_tags false (trim input))
  end.

(** The text holds a [<] with a [>] somewhere after it, which is what the
    pattern [<[^>]*>] matches in. *)
Fixpoint has_tag (s : string) : bool :=
  match s with
  | EmptyString => false
  | String c s' => Ascii.eqb c "<" && has_gt s' || has_tag s'
  end.

(** ** Sending to the vendors in batches ([POST /send-rfp]) *)

(** The loop [for (i = 0; i < vendors.length; i += CONCURRENCY_LIMIT)]
    with [batch = vendors.slice(i, i + CONCURRENCY_LIMIT)]: the batches
    from index [i] on. The number of rounds is at most the number of
    vendors, which [rounds] starts from. *)
Definition CONCURRENCY_LIMIT : nat := 5.

Fixpoint batches_from {V} (rounds i : nat) (vendors : list V) : list (list V) :=
  match rounds with
  | O => []
  | S rounds' =>
      if (i <? List.length vendors)%nat
      then firstn CONCURRENCY_LIMIT (skipn i vendors)
           :: batches_from rounds' (i + CONCURRENCY_LIMIT) vendors
      else []
  end.

(** The [results] of the route: the results of each batch, which
    [Promise.all] returns in the order of the batch, pushed batch after
    batch. [processVendorEmail] catches its own errors and always gives a
    result. *)
Definition send_results {V R} (processVendorEmail : V -> R) (vendors : list V) : list R :=
  concat (map (map processVendorEmail) (batches_from (List.length vendors) 0 vendors)).

(** ** The cached lists of the chat route

    [let rfps = cache.get(KEY); if (!rfps) { rfps = await query;
    cache.set(KEY, rfps, TTL) }]. The clock is read twice: by [get] at
    [now] and, after the awaited query, by [set] at [stored]. While the
    query is awaited other requests run on the same cache: [during] is
    what they do to it. [queried] is the list that the query returns. A
    list is truthy, also when it is empty, so a cached list is always
    used. *)
Definition cachedRead {T} (now : Z) (key : string) (ttlMs : Z) (queried : T)
    (during : CacheService.Cache T -> CacheService.Cache T) (stored : Z)
    (cache : CacheService.Cache T) : T * CacheService.Cache T :=
  match CacheService.get now key cache with
  | (Some list, cache) => (list, cache)
  | (None, cache) =>
      (queried, CacheService.set stored key queried ttlMs (during cache))
  end.

(** A fragment that sets only the delivery time, for a draft that has
    payment terms. *)
Definition draft_with_terms : value :=
  obj [("title", VStr "Office laptops");
       ("requirements", obj [("items", arr [item_Laptop]);
                             ("paymentTerms", VStr "Net 30");
                             ("deliveryDays", num 30)])].

Definition fragment_delivery : value :=
  obj [("requirements", obj [("deliveryDays", num 14)])].

(** * Properties *)

Local Open Scope Q_scope.

(** ** Rounding and comparisons *)

Lemma Qlt_bool_iff (x y : Q) : Qlt_bool x y = true <-> x < y.
Proof.
  unfold Qlt_bool. rewrite negb_true_iff, <- not_true_iff_false, Qle_bool_iff.
  split; [apply Qnot_le_lt | apply Qlt_not_le].
Qed.

Lemma Qle_bool_false (x y : Q) : Qle_bool x y = false <-> y < x.
Proof.
  rewrite <- not_true_iff_false, Qle_bool_iff.
  split; [apply Qnot_le_lt | apply Qlt_not_le].
Qed.

Lemma Math_round_mono (x y : Q) : x <= y -> (Math_round x <= Math_round y)%Z.
Proof. intros H. apply Qfloor_resp_le. lra. Qed.

Lemma Math_round_Z (n : Z) : Math_round (inject_Z n) = n.
Proof.
  unfold Math_round. apply Z.le_antisymm.
  - assert (H : (Qfloor (inject_Z n + (1 # 2)) < n + 1)%Z); [|lia].
    rewrite Zlt_Qlt. eapply Qle_lt_trans; [apply Qfloor_le|].
    rewrite inject_Z_plus. change (inject_Z 1) with 1. lra.
  - rewrite <- (Qfloor_Z n) at 1. apply Qfloor_resp_le. lra.
Qed.

Lemma Math_round_range (x : Q) (lo hi : Z) :
  inject_Z lo <= x <= inject_Z hi -> (lo <= Math_round x <= hi)%Z.
Proof.
  intros [Hlo Hhi]. split.
  - rewrite <- (Math_round_Z lo). now apply Math_round_mono.
  - rewrite <- (Math_round_Z hi). now apply Math_round_mono.
Qed.

(** Case analysis on every comparison of a scorer, turning each test into
    the inequality it decides. *)
Ltac split_tests :=
  repeat match goal with
  | |- context [Qle_bool ?a ?b] =>
      let E := fresh "E" in
      destruct (Qle_bool a b) eqn:E;
      [apply Qle_bool_iff in E | apply Qle_bool_false in E]
  | |- context [Qlt_bool ?a ?b] =>
      let E := fresh "E" in
      destruct (Qlt_bool a b) eqn:E;
      [apply Qlt_bool_iff in E
      | apply not_true_iff_false in E; rewrite Qlt_bool_iff in E; apply Qnot_lt_le in E]
  end.

Ltac max_cases :=
  repeat match goal with
  | |- context [Qmax ?a ?b] =>
      let H := fresh "Hmax" in
      destruct (Q.max_spec a b) as [[? H] | [? H]]; rewrite H
  | |- context [Qmin ?a ?b] =>
      let H := fresh "Hmin" in
      destruct (Q.min_spec a b) as [[? H] | [? H]]; rewrite H
  end.

(** ** Rounding to the nearest double *)

Lemma pow2_pos (e : Z) : 0 < 2 ^ e.
Proof. now apply Qpower_0_lt. Qed.

Lemma pow2_succ (e : Z) : 2 ^ (e + 1) == 2 * 2 ^ e.
Proof. rewrite Qpower_plus by discriminate. change (2 ^ 1) with 2. ring. Qed.

Lemma pow2_le (a b : Z) : (a <= b)%Z -> 2 ^ a <= 2 ^ b.
Proof. intros H. apply Qpower_le_compat_l; [exact H | discriminate]. Qed.

Lemma pow2_lt (a b : Z) : (a < b)%Z -> 2 ^ a < 2 ^ b.
Proof. intros H. apply Qpower_lt_compat_l; [exact H | reflexivity]. Qed.

Lemma pow2_Z (a : Z) : (0 <= a)%Z -> inject_Z (2 ^ a) == 2 ^ a.
Proof. intros H. now rewrite Zpower_Qpower. Qed.

Lemma Qdiv_le_cross (a b c d : Q) : 0 < b -> 0 < d -> a * d <= c * b -> a / b <= c / d.
Proof.
  intros Hb Hd H. apply Qle_shift_div_r; [exact Hb|].
  setoid_replace (c / d * b) with (c * b / d) using relation Qeq by (field; lra).
  apply Qle_shift_div_l; [exact Hd | exact H].
Qed.

Lemma Qdiv_lt_cross (a b c d : Q) : 0 < b -> 0 < d -> a * d < c * b -> a / b < c / d.
Proof.
  intros Hb Hd H. apply Qlt_shift_div_r; [exact Hb|].
  setoid_replace (c / d * b) with (c * b / d) using relation Qeq by (field; lra).
  apply Qlt_shift_div_l; [exact Hd | exact H].
Qed.

Lemma Qlog2_spec (q : Q) : 0 < q -> 2 ^ Qlog2 q <= q /\ q < 2 ^ (Qlog2 q + 1).
Proof.
  intros Hq. unfold Qlog2. cbv zeta.
  destruct q as [n d]. assert (Hn : (0 < n)%Z).
  { unfold Qlt in Hq. simpl in Hq. lia. }
  cbn [Qnum Qden].
  set (a := Z.log2 n). set (b := Z.log2 (Z.pos d)).
  assert (Ha0 : (0 <= a)%Z) by apply Z.log2_nonneg.
  assert (Hb0 : (0 <= b)%Z) by apply Z.log2_nonneg.
  destruct (Z.log2_spec n Hn) as [Ha1 Ha2]. fold a in Ha1, Ha2.
  destruct (Z.log2_spec (Z.pos d) eq_refl) as [Hb1 Hb2]. fold b in Hb1, Hb2.
  rewrite Zle_Qle, pow2_Z in Ha1, Hb1 by assumption.
  rewrite Zlt_Qlt, pow2_Z in Ha2, Hb2 by lia.
  unfold Z.succ in Ha2, Hb2. rewrite pow2_succ in Ha2, Hb2.
  pose proof (pow2_pos a) as HA. pose proof (pow2_pos b) as HB.
  assert (HD : 0 < inject_Z (Z.pos d)) by reflexivity.
  assert (Eq : n # d == inject_Z n / inject_Z (Z.pos d)) by apply Qmake_Qdiv.
  assert (Ek : 2 ^ (a - b) == 2 ^ a / 2 ^ b) by (apply Qpower_minus; discriminate).
  set (A := 2 ^ a) in *. set (B := 2 ^ b) in *.
  set (N := inject_Z n) in *. set (D := inject_Z (Z.pos d)) in *.
  destruct (Qle_bool (2 ^ (a - b)) (n # d)) eqn:E.
  - apply Qle_bool_iff in E. split; [exact E|].
    rewrite pow2_succ, Ek, Eq.
    setoid_replace (2 * (A / B)) with ((2 * A) / B) using relation Qeq by (field; lra).
    apply Qdiv_lt_cross; [exact HD | exact HB |].
    apply Qle_lt_trans with (N * D).
    + apply Qmult_le_l; [lra | exact Hb1].
    + apply Qmult_lt_r; [exact HD | exact Ha2].
  - apply not_true_iff_false in E. rewrite Qle_bool_iff in E. apply Qnot_le_lt in E.
    split.
    + replace (a - b - 1)%Z with (a - (b + 1))%Z by ring.
      rewrite Qpower_minus by discriminate. rewrite pow2_succ, Eq. fold A B.
      apply Qdiv_le_cross; [lra | exact HD |].
      apply Qle_trans with (N * D).
      * apply Qmult_le_r; [exact HD | exact Ha1].
      * apply Qmult_le_l; [lra | lra].
    + replace (a - b - 1 + 1)%Z with (a - b)%Z by ring. exact E.
Qed.

Lemma Qlog2_mono (x y : Q) : 0 < x -> x <= y -> (Qlog2 x <= Qlog2 y)%Z.
Proof.
  intros Hx Hxy. destruct (Qlog2_spec x Hx) as [Lx _].
  destruct (Qlog2_spec y) as [_ Uy]; [lra|].
  destruct (Z.le_gt_cases (Qlog2 x) (Qlog2 y)) as [H|H]; [exact H | exfalso].
  assert (2 ^ (Qlog2 y + 1) <= 2 ^ Qlog2 x) by (apply pow2_le; lia). lra.
Qed.


(** The nearest integer, ties to even: within a half, monotone, and exact
    on the integers. *)


Lemma round_half_even_Z (n : Z) : round_half_even (inject_Z n) = n.
Proof.
  unfold round_half_even. cbv zeta. rewrite Qfloor_Z.
  assert (E : Qlt_bool (inject_Z n - inject_Z n) (1 # 2) = true).
  { unfold Qlt_bool. apply negb_true_iff. apply not_true_iff_false.
    rewrite Qle_bool_iff. lra. }
  now rewrite E.
Qed.

Lemma round_half_even_mono (x y : Q) :
  x <= y -> (round_half_even x <= round_half_even y)%Z.
Proof.
  intros Hxy. pose proof (Qfloor_resp_le _ _ Hxy) as Hf.
  assert (Hx : (round_half_even x <= Qfloor x + 1)%Z).
  { unfold round_half_even. cbv zeta.
    repeat match goal with |- context [if ?c then _ else _] => destruct c end; lia. }
  assert (Hy : (Qfloor y <= round_half_even y)%Z).
  { unfold round_half_even. cbv zeta.
    repeat match goal with |- context [if ?c then _ else _] => destruct c end; lia. }
  destruct (Z.eq_dec (Qfloor x) (Qfloor y)) as [E|N]; [|lia].
  unfold round_half_even. cbv zeta. rewrite E.
  set (f := Qfloor y).
  destruct (Qlt_bool (y - inject_Z f) (1 # 2)) eqn:Y1.
  - assert (X1 : Qlt_bool (x - inject_Z f) (1 # 2) = true).
    { unfold Qlt_bool in *. apply negb_true_iff in Y1. apply negb_true_iff.
      apply not_true_iff_false in Y1. apply not_true_iff_false.
      rewrite Qle_bool_iff in *. lra. }
    rewrite X1. lia.
  - destruct (Qlt_bool (x - inject_Z f) (1 # 2));
      [destruct (Qlt_bool (1 # 2) (y - inject_Z f)), (Z.even f); lia|].
    destruct (Qlt_bool (1 # 2) (y - inject_Z f)) eqn:Y2.
    + destruct (Qlt_bool (1 # 2) (x - inject_Z f)), (Z.even f); lia.
    + assert (X2 : Qlt_bool (1 # 2) (x - inject_Z f) = false).
      { unfold Qlt_bool in *. apply negb_false_iff in Y2. apply negb_false_iff.
        rewrite Qle_bool_iff in *. lra. }
      rewrite X2. lia.
Qed.

Lemma round_half_even_comp (x y : Q) : x == y -> round_half_even x = round_half_even y.
Proof.
  intros H. apply Z.le_antisymm; apply round_half_even_mono; rewrite H; apply Qle_refl.
Qed.

(** Rounding to the multiples of [2^e]. *)
Lemma grid_mono (e : Z) (x y : Q) :
  x <= y ->
  inject_Z (round_half_even (x / 2 ^ e)) * 2 ^ e
  <= inject_Z (round_half_even (y / 2 ^ e)) * 2 ^ e.
Proof.
  intros H. pose proof (pow2_pos e) as He.
  apply Qmult_le_compat_r; [|lra]. rewrite <- Zle_Qle.
  apply round_half_even_mono. unfold Qdiv. apply Qmult_le_compat_r; [exact H|].
  apply Qinv_le_0_compat. lra.
Qed.

Lemma grid_pow2 (e k : Z) :
  (e <= k)%Z -> inject_Z (round_half_even (2 ^ k / 2 ^ e)) * 2 ^ e == 2 ^ k.
Proof.
  intros H. pose proof (pow2_pos e) as He.
  assert (E : 2 ^ k / 2 ^ e == inject_Z (2 ^ (k - e))).
  { rewrite pow2_Z by lia. rewrite Qpower_minus by discriminate. reflexivity. }
  rewrite (round_half_even_comp _ _ E), round_half_even_Z, <- E. field. lra.
Qed.


Lemma ulp_exponent_mono (x y : Q) : 0 < x -> x <= y -> (ulp_exponent x <= ulp_exponent y)%Z.
Proof. intros Hx Hxy. unfold ulp_exponent. pose proof (Qlog2_mono x y Hx Hxy). lia. Qed.

Lemma nearest_double_pos_nonneg (q : Q) : 0 < q -> 0 <= nearest_double_pos q.
Proof.
  intros Hq. unfold nearest_double_pos. cbv zeta.
  pose proof (pow2_pos (ulp_exponent q)) as He.
  apply Qmult_le_0_compat; [|lra].
  change 0 with (inject_Z 0). rewrite <- Zle_Qle.
  apply Z.le_trans with (round_half_even (inject_Z 0)); [now rewrite round_half_even_Z|].
  apply round_half_even_mono. change (inject_Z 0) with 0.
  apply Qle_shift_div_l; [exact He | lra].
Qed.

Lemma nearest_double_pos_mono (x y : Q) :
  0 < x -> x <= y -> nearest_double_pos x <= nearest_double_pos y.
Proof.
  intros Hx Hxy. assert (Hy : 0 < y) by lra.
  unfold nearest_double_pos. cbv zeta.
  pose proof (ulp_exponent_mono x y Hx Hxy) as He.
  destruct (Z.eq_dec (ulp_exponent x) (ulp_exponent y)) as [E|N].
  - rewrite E. now apply grid_mono.
  - assert (Hlt : (ulp_exponent x < ulp_exponent y)%Z) by lia.
    destruct (Qlog2_spec x Hx) as [_ Ux]. destruct (Qlog2_spec y Hy) as [Ly _].
    assert (Hlog : (Qlog2 x + 1 <= Qlog2 y)%Z) by (unfold ulp_exponent in *; lia).
    assert (HxB : x <= 2 ^ Qlog2 y).
    { apply Qle_trans with (2 ^ (Qlog2 x + 1)); [lra | now apply pow2_le]. }
    apply Qle_trans with (2 ^ Qlog2 y).
    + rewrite <- (grid_pow2 (ulp_exponent x) (Qlog2 y)) by (unfold ulp_exponent in *; lia).
      now apply grid_mono.
    + rewrite <- (grid_pow2 (ulp_exponent y) (Qlog2 y)) at 1 by (unfold ulp_exponent in *; lia).
      now apply grid_mono.
Qed.

Lemma double_nonneg (q : Q) : 0 <= q -> 0 <= double q.
Proof.
  intros H. unfold double. destruct (Qcompare_spec q 0) as [E|L|G]; [lra | lra |].
  rewrite Qred_correct. now apply nearest_double_pos_nonneg.
Qed.

Lemma double_nonpos (q : Q) : q <= 0 -> double q <= 0.
Proof.
  intros H. unfold double. destruct (Qcompare_spec q 0) as [E|L|G]; [lra | | lra].
  rewrite Qred_correct. pose proof (nearest_double_pos_nonneg (- q)). lra.
Qed.

(** Rounding to the nearest double is monotone. *)
Lemma double_mono (x y : Q) : x <= y -> double x <= double y.
Proof.
  intros H.
  destruct (Qlt_le_dec 0 x) as [Hx|Hx].
  - unfold double. destruct (Qcompare_spec x 0) as [E|L|G]; [lra | lra |].
    destruct (Qcompare_spec y 0) as [E'|L'|G']; [lra | lra |].
    rewrite !Qred_correct. now apply nearest_double_pos_mono.
  - destruct (Qlt_le_dec 0 y) as [Hy|Hy].
    + apply Qle_trans with 0; [now apply double_nonpos | apply double_nonneg; lra].
    + destruct (Qlt_le_dec y 0) as [Hy0|Hy0].
      * unfold double. destruct (Qcompare_spec x 0) as [E|L|G]; [lra | | lra].
        destruct (Qcompare_spec y 0) as [E'|L'|G']; [lra | | lra].
        rewrite !Qred_correct.
        assert (nearest_double_pos (- y) <= nearest_double_pos (- x))
          by (apply nearest_double_pos_mono; lra).
        lra.
      * apply Qle_trans with 0; [now apply double_nonpos | apply double_nonneg; lra].
Qed.

Lemma double_comp (x y : Q) : x == y -> double x == double y.
Proof. intros H. apply Qle_antisym; apply double_mono; lra. Qed.


(** Samples of the arithmetic: [0.1 + 0.2], the product [0.575 * 100] and
    a weighted sum that falls just below a tie. *)
Example double_samples :
  add64 (double (1 # 10)) (double (2 # 10)) == 1351079888211149 # 4503599627370496
  /\ ~ add64 (double (1 # 10)) (double (2 # 10)) == double (3 # 10)
  /\ mul64 (double (575 # 1000)) 100 == 8092405580431359 # 140737488355328
  /\ Math_round (mul64 (double (575 # 1000)) 100) = 57%Z
  /\ double (1 # 4) == 1 # 4
  /\ double (-1 # 3) == - double (1 # 3).
Proof. repeat split; vm_compute; (reflexivity || discriminate). Qed.

(** ** Every criterion score lies in [0,100] *)

Lemma evaluatePrice_score_ok p b : score_ok (price_score (evaluatePrice p b)).
Proof.
  unfold evaluatePrice, score_ok.
  destruct (truthy_num p) as [p'|]; [|simpl; lia].
  destruct (truthy_num b) as [b'|]; [|simpl; lia].
  cbv zeta. cbn [price_score].
  set (d := Qabs _). assert (Hd : 0 <= d) by apply Qabs_nonneg.
  apply Math_round_range.
  split_tests; max_cases; change (inject_Z 0) with 0; change (inject_Z 100) with 100; lra.
Qed.









(** ** The weighted sum in double precision *)










(** ** Delivery *)

Lemma evaluateDelivery_missing (requiredDeliveryDays : option Q) :
  delivery_score (evaluateDelivery None requiredDeliveryDays) = 0%Z.
Proof. reflexivity. Qed.

(** C7. A proposal whose delivery days are absent (neither the row nor
    its parsed data has them) scores 0 on delivery, whatever the RFP
    requires, and in particular when the RFP has no delivery requirement:
    the missing-field rule is tested before the no-requirement rule. *)
Theorem delivery_absent_scores_zero (proposal : Proposal) (rfp : Rfp) :
  resolved_deliveryDays proposal = None ->
  delivery_score (c_delivery (criteria (evaluateProposal proposal rfp))) = 0%Z.
Proof.
  intros H. unfold evaluateProposal, evaluateCriteria. cbn [criteria c_delivery].
  rewrite H. apply evaluateDelivery_missing.
Qed.

Lemma delivery_absent_scores_zero_witness :
  resolved_deliveryDays proposalA = None
  /\ deliveryDays (requirements rfpA) = None
  /\ delivery_score (c_delivery (criteria (evaluateProposal proposalA rfpA))) = 0%Z.
Proof.
  split; [reflexivity|]. split; [reflexivity|].
  apply (delivery_absent_scores_zero proposalA rfpA). reflexivity.
Defined.

(** ** Price *)

Lemma truthy_num_nonzero (q : Q) : ~ q == 0 -> truthy_num (Some q) = Some q.
Proof.
  intros H. unfold truthy_num. destruct (Qeq_bool q 0) eqn:E; [|reflexivity].
  apply Qeq_bool_iff in E. contradiction.
Qed.

Lemma truthy_num_zero (q : Q) : q == 0 -> truthy_num (Some q) = None.
Proof.
  intros H. unfold truthy_num. apply Qeq_bool_iff in H. now rewrite H.
Qed.

Lemma deviation_of_ratio (p b : Q) : 0 < b -> deviation_of p b == (p / b - 1) * 100.
Proof. intros Hb. unfold deviation_of. field. lra. Qed.

Lemma deviation_of_lower (p b : Q) : 0 < b -> 0 <= p -> -100 <= deviation_of p b.
Proof.
  intros Hb Hp. rewrite deviation_of_ratio by assumption.
  assert (0 <= p / b) by (apply Qle_shift_div_l; [assumption | lra]). lra.
Qed.

Lemma deviation_of_zero (b : Q) (p : Q) : 0 < b -> p == 0 -> deviation_of p b == -100.
Proof.
  intros Hb Hp. rewrite deviation_of_ratio by assumption. rewrite Hp. field. lra.
Qed.

(** C8. For a fixed positive budget the price score is monotone on each
    side of the budget: among non-negative prices under budget, a smaller
    deviation magnitude never has a smaller score, and over budget a
    larger deviation magnitude never has a larger score. *)
Theorem price_score_monotone (b p1 p2 : Q) :
  0 < b ->
  (0 <= p1 ->
   deviation_of p1 b < 0 -> deviation_of p2 b < 0 ->
   Qabs (deviation_of p2 b) < Qabs (deviation_of p1 b) ->
   (price_score (evaluatePrice (Some p1) (Some b))
    <= price_score (evaluatePrice (Some p2) (Some b)))%Z)
  /\ (0 <= deviation_of p1 b -> 0 <= deviation_of p2 b ->
      Qabs (deviation_of p1 b) < Qabs (deviation_of p2 b) ->
      (price_score (evaluatePrice (Some p2) (Some b))
       <= price_score (evaluatePrice (Some p1) (Some b)))%Z).
Proof.
  intros Hb.
  assert (Hb0 : ~ b == 0) by lra.
  split; [intros Hp1 Hd1 Hd2 Habs | intros Hd1 Hd2 Habs].
  - (* under budget *)
    rewrite (Qabs_neg (deviation_of p1 b)), (Qabs_neg (deviation_of p2 b)) in Habs by lra.
    destruct (Qeq_dec p1 0) as [Z1|N1].
    { unfold evaluatePrice at 1. rewrite (truthy_num_zero _ Z1). cbn [price_score].
      apply evaluatePrice_score_ok. }
    destruct (Qeq_dec p2 0) as [Z2|N2].
    { pose proof (deviation_of_zero b p2 Hb Z2).
      pose proof (deviation_of_lower p1 b Hb Hp1). lra. }
    unfold evaluatePrice.
    rewrite (truthy_num_nonzero _ N1), (truthy_num_nonzero _ N2), (truthy_num_nonzero _ Hb0).
    cbv zeta. cbn [price_score]. fold (deviation_of p1 b) (deviation_of p2 b).
    set (d1 := deviation_of p1 b) in *. set (d2 := deviation_of p2 b) in *.
    pose proof (Qabs_neg d1 ltac:(lra)) as A1. pose proof (Qabs_neg d2 ltac:(lra)) as A2.
    set (a1 := Qabs d1) in *. set (a2 := Qabs d2) in *.
    apply Math_round_mono. split_tests; max_cases; lra.
  - (* over budget *)
    rewrite (Qabs_pos (deviation_of p1 b)), (Qabs_pos (deviation_of p2 b)) in Habs by lra.
    assert (N1 : ~ p1 == 0).
    { intros Z1. pose proof (deviation_of_zero b p1 Hb Z1). lra. }
    assert (N2 : ~ p2 == 0).
    { intros Z2. pose proof (deviation_of_zero b p2 Hb Z2). lra. }
    unfold evaluatePrice.
    rewrite (truthy_num_nonzero _ N1), (truthy_num_nonzero _ N2), (truthy_num_nonzero _ Hb0).
    cbv zeta. cbn [price_score]. fold (deviation_of p1 b) (deviation_of p2 b).
    set (d1 := deviation_of p1 b) in *. set (d2 := deviation_of p2 b) in *.
    pose proof (Qabs_pos d1 ltac:(lra)) as A1. pose proof (Qabs_pos d2 ltac:(lra)) as A2.
    set (a1 := Qabs d1) in *. set (a2 := Qabs d2) in *.
    apply Math_round_mono. split_tests; max_cases; lra.
Qed.

Lemma price_score_monotone_witness :
  0 < 100 /\ 0 <= 40
  /\ Z.le (price_score (evaluatePrice (Some 40) (Some 100)))
          (price_score (evaluatePrice (Some 80) (Some 100)))
  /\ Z.le (price_score (evaluatePrice (Some 160) (Some 100)))
          (price_score (evaluatePrice (Some 110) (Some 100))).
Proof.
  split; [reflexivity|]. split; [discriminate|]. split.
  - apply (proj1 (price_score_monotone 100 40 80 ltac:(reflexivity)));
      solve [reflexivity | discriminate].
  - apply (proj2 (price_score_monotone 100 110 160 ltac:(reflexivity)));
      solve [reflexivity | discriminate].
Defined.

(** A negative price is outside the data model, and the bound [0 <= p1]
    cannot be dropped: against the budget 100 the price -10 scores 30 and
    the price 0, which counts as not specified, scores 0. *)
Remark price_score_negative_price :
  price_score (evaluatePrice (Some (-10)) (Some 100)) = 30%Z
  /\ price_score (evaluatePrice (Some 0) (Some 100)) = 0%Z.
Proof. split; reflexivity. Qed.

(** A price at or under a positive budget always has the flag set: the
    test reads the signed deviation. *)
Lemma matchesBudget_under_budget (p b : Q) :
  0 < b -> ~ p == 0 -> p <= b -> matchesBudget (evaluatePrice (Some p) (Some b)) = true.
Proof.
  intros Hb Hp Hpb. assert (Hb0 : ~ b == 0) by lra. unfold evaluatePrice.
  rewrite (truthy_num_nonzero _ Hp), (truthy_num_nonzero _ Hb0).
  cbv zeta. cbn [matchesBudget]. apply Qle_bool_iff.
  fold (deviation_of p b). rewrite deviation_of_ratio by exact Hb.
  assert (p / b <= 1) by (apply Qle_shift_div_r; lra). lra.
Qed.

(** C9 at the failing input: a price of 50 against a budget of 100. The
    deviation is -50 (the difference -50, the quotient -1/2 and the product
    -50 are doubles, so the code computes exactly these values), the
    absolute deviation 50 is above 10, and [matchesBudget] is true. The
    claim says false. *)
Theorem matchesBudget_far_under_budget :
  deviation_of 50 100 == - 50
  /\ Qabs (deviation_of 50 100) == 50
  /\ ~ Qabs (deviation_of 50 100) <= 10
  /\ deviation (evaluatePrice (Some 50) (Some 100)) == - 50
  /\ matchesBudget (evaluatePrice (Some 50) (Some 100)) = true.
Proof.
  split; [reflexivity|]. split; [reflexivity|].
  split; [intros H; vm_compute in H; now apply H|].
  split; reflexivity.
Qed.

(** ** Item matching *)

(** C10 as stated fails: the required item carries quantity 20, the reply
    has no line items and mentions the item only in its notes; the item is
    counted as matched although the proposal supplies no quantity. *)
Lemma fuzzy_match_ignores_quantity_counterexample :
  let proposalText := proposalText_of None (Some notes_only_reply) None in
  matchingProposalItem None (toLowerCase (name laptop20)) = None
  /\ includes proposalText (toLowerCase (name laptop20)) = true
  /\ fst (matchItem None proposalText laptop20) = true
  /\ proposedQuantity (snd (matchItem None proposalText laptop20)) = None
  /\ quantity_eq None (quantity laptop20) = false
  /\ itemsMatched (matchItems [laptop20] None (Some notes_only_reply) None) = 1%nat.
Proof. vm_compute. repeat split. Qed.

(** C10, amended. For a required item that carries a required quantity, has
    no structured line-item match and is found by the scan of the proposal
    text, no proposal quantity is read and the quantity is taken as
    matching; the item counts as matched iff its specifications match or it
    has none. *)
Theorem fuzzy_match_assumes_quantity (proposalItemPrices : option (list ItemPrice))
    (proposalText : string) (rfpItem : RequirementItem) :
  truthy_quantity (quantity rfpItem) = true ->
  matchingProposalItem proposalItemPrices (toLowerCase (name rfpItem)) = None ->
  includes proposalText (toLowerCase (name rfpItem)) = true ->
  let r := matchItem proposalItemPrices proposalText rfpItem in
  proposedQuantity (snd r) = None
  /\ matchesQuantity (snd r) = true
  /\ fst r = (specificationsMatch (snd r) || negb (has_specifications rfpItem)).
Proof.
  intros Hq Hnone Hfuzzy. unfold matchItem. cbv zeta.
  rewrite Hnone, Hfuzzy, Hq. cbn [fst snd proposedQuantity matchesQuantity specificationsMatch].
  unfold has_specifications. repeat split.
Qed.

Lemma fuzzy_match_assumes_quantity_witness :
  let proposalText := proposalText_of None (Some notes_only_reply) None in
  truthy_quantity (quantity laptop20) = true
  /\ proposedQuantity (snd (matchItem None proposalText laptop20)) = None
  /\ matchesQuantity (snd (matchItem None proposalText laptop20)) = true
  /\ fst (matchItem None proposalText laptop20) = true.
Proof.
  cbv zeta. split; [reflexivity|].
  pose proof (fuzzy_match_assumes_quantity None
                (proposalText_of None (Some notes_only_reply) None) laptop20
                eq_refl eq_refl eq_refl) as H.
  cbv zeta in H. destruct H as (H1 & H2 & H3).
  split; [exact H1|]. split; [exact H2|]. rewrite H3. reflexivity.
Defined.

(** ** Comparison cache *)

Local Open Scope Z_scope.

Lemma lastProposalUpdate_fold (t : Z) (proposals : list ProposalRow) (acc : option Z) :
  not_after
    (fold_left
       (fun (latest : option Z) (proposal : ProposalRow) =>
          match latest with
          | None => updatedAt proposal
          | Some l =>
              match updatedAt proposal with
              | None => latest
              | Some u => if l <? u then Some u else Some l
              end
          end) proposals acc) t
  <-> not_after acc t
      /\ (forall p, In p proposals -> forall u, updatedAt p = Some u -> u <= t).
Proof.
  revert acc. induction proposals as [|q qs IH]; intros acc; simpl.
  - split; [intros H; split; [exact H | intros p []] | intros [H _]; exact H].
  - rewrite IH. clear IH.
    split.
    + intros [Hacc Hqs]. split.
      * destruct acc as [l|]; [|exact I]. simpl.
        destruct (updatedAt q) as [u|]; [|exact Hacc].
        destruct (Z.ltb_spec l u); simpl in Hacc; lia.
      * intros p [->|Hp] u Hu; [|now apply (Hqs p Hp)].
        destruct acc as [l|]; rewrite Hu in Hacc; [|exact Hacc].
        destruct (Z.ltb_spec l u); simpl in Hacc; lia.
    + intros [Hacc Hall]. split; [|intros p Hp; apply Hall; now right].
      destruct acc as [l|].
      * destruct (updatedAt q) as [u|] eqn:Hu; [|exact Hacc].
        pose proof (Hall q (or_introl eq_refl) u Hu).
        destruct (Z.ltb_spec l u); simpl in *; lia.
      * destruct (updatedAt q) as [u|] eqn:Hu; [|exact I].
        exact (Hall q (or_introl eq_refl) u Hu).
Qed.

Lemma cacheIsValid_count (cachedComparison : ComparisonResult) (cacheUpdate : Z)
    (proposals : list ProposalRow) :
  cacheIsValid cachedComparison cacheUpdate proposals = true ->
  List.length (default [] (evaluations cachedComparison)) = List.length proposals.
Proof.
  intros H. unfold cacheIsValid in H. apply andb_true_iff in H as [H _].
  apply Nat.eqb_eq in H. destruct (evaluations cachedComparison); exact H.
Qed.

(** C6. A cached comparison (present, with its time stamp, and no refresh
    requested) is used iff the number of cached evaluations equals the
    number of current proposals and the cache time stamp is at or after
    the [updatedAt] of every proposal that has one; hence a cache that is
    valid for the current proposals is invalid as soon as one more
    proposal is added. *)
Theorem cacheIsValid_iff (cachedComparison : ComparisonResult) (cacheUpdate : Z)
    (proposals : list ProposalRow) :
  (usesCache false (Some cachedComparison) (Some cacheUpdate) proposals = true <->
   List.length (default [] (evaluations cachedComparison)) = List.length proposals
   /\ (forall p, In p proposals -> forall u, updatedAt p = Some u -> u <= cacheUpdate))
  /\ (usesCache false (Some cachedComparison) (Some cacheUpdate) proposals = true ->
      forall extra,
        usesCache false (Some cachedComparison) (Some cacheUpdate) (proposals ++ [extra])
        = false).
Proof.
  change (usesCache false (Some cachedComparison) (Some cacheUpdate) proposals)
    with (cacheIsValid cachedComparison cacheUpdate proposals).
  split.
  - split.
    + intros H. split; [exact (cacheIsValid_count _ _ _ H)|].
      unfold cacheIsValid in H. apply andb_true_iff in H as [_ H].
      apply (lastProposalUpdate_fold cacheUpdate proposals None).
      unfold lastProposalUpdate in H.
      destruct (fold_left _ proposals None); simpl; [now apply Z.leb_le | exact I].
    + intros [Hlen Hall]. unfold cacheIsValid. apply andb_true_iff. split.
      * apply Nat.eqb_eq. destruct (evaluations cachedComparison); exact Hlen.
      * pose proof (proj2 (lastProposalUpdate_fold cacheUpdate proposals None)
                      (conj I Hall)) as H.
        unfold lastProposalUpdate.
        destruct (fold_left _ proposals None); simpl in H; [now apply Z.leb_le | reflexivity].
  - intros H extra. apply cacheIsValid_count in H.
    change (usesCache false (Some cachedComparison) (Some cacheUpdate) (proposals ++ [extra]))
      with (cacheIsValid cachedComparison cacheUpdate (proposals ++ [extra])).
    unfold cacheIsValid. apply andb_false_iff. left. apply Nat.eqb_neq.
    rewrite length_app. simpl.
    destruct (evaluations cachedComparison); simpl in *; lia.
Qed.

(** A cache of two evaluations written at time 50: valid for two proposals
    last updated at 10 and 40, stale once one of them is updated at 60. *)
Example cache_samples :
  let cache := {| evaluations := Some [evaluateProposal proposalA rfpA;
                                       evaluateProposal proposalA rfpA] |} in
  usesCache false (Some cache) (Some 50)
    [{| updatedAt := Some 10 |}; {| updatedAt := Some 40 |}] = true
  /\ usesCache false (Some cache) (Some 50)
       [{| updatedAt := Some 10 |}; {| updatedAt := Some 60 |}] = false
  /\ usesCache false (Some cache) (Some 50)
       [{| updatedAt := None |}; {| updatedAt := None |}] = true
  /\ usesCache true (Some cache) (Some 50)
       [{| updatedAt := Some 10 |}; {| updatedAt := Some 40 |}] = false.
Proof. repeat split. Qed.

(** ** The host functions on samples *)

Example parseFloat_samples :
  parseFloat "12.5abc" = Fin (25 # 2) /\ parseFloat "  -3e2" = Fin (-300)
  /\ parseFloat "1.5e3x" = Fin 1500 /\ parseFloat ".5" = Fin (1 # 2)
  /\ parseFloat "5.e1" = Fin 50 /\ parseFloat "1e-" = Fin 1
  /\ parseFloat "0x10" = Fin 0 /\ parseFloat "1,000" = Fin 1
  /\ parseFloat "-Infinity and beyond" = Inf true
  /\ parseFloat "" = NaN /\ parseFloat "." = NaN /\ parseFloat "$5000" = NaN
  /\ parseFloat "about five thousand" = NaN.
Proof. repeat split. Qed.

Example parseInt_samples :
  parseInt "5 days" = Fin 5 /\ parseInt "  -12.7" = Fin (-12)
  /\ parseInt "0x1f" = Fin 31 /\ parseInt "-0x1A" = Fin (-26)
  /\ parseInt "08" = Fin 8 /\ parseInt "1e3" = Fin 1
  /\ parseInt "days" = NaN /\ parseInt "0x" = NaN /\ parseInt "" = NaN.
Proof. repeat split. Qed.

Example isNaN_samples :
  isNaN (VStr " 12 ") = false /\ isNaN (VStr "") = false /\ isNaN (VStr "12px") = true
  /\ isNaN (VStr "0x1f") = false /\ isNaN (VStr "-0x1f") = true
  /\ isNaN (VBool true) = false /\ isNaN VNull = false /\ isNaN VUndefined = true
  /\ isNaN (arr []) = false /\ isNaN (arr [arr [VStr " 7 "]]) = false
  /\ isNaN (arr [num 1; num 2]) = true /\ isNaN (obj []) = true.
Proof. repeat split. Qed.

(** ** Draft reconciliation *)

(** *** The filter keeps first occurrences *)

Lemma findIndex_name_ge (rest : list value) (j : nat) (item : value) (k : nat) :
  Forall (fun v => nullish v = false) rest -> nullish item = false ->
  exists r, findIndex_name rest j item k = Some r
            /\ forall j', r = Some j' -> (j <= j')%nat.
Proof.
  intros Hrest Hitem. revert j. induction Hrest as [|i rest Hi Hrest IH]; intros j.
  - exists None. split; [reflexivity | discriminate].
  - simpl. unfold get_member. rewrite Hi, Hitem. simpl.
    destruct (strict_equals _ _ _).
    + exists (Some j). split; [reflexivity|]. intros j' [= <-]. lia.
    + destruct (IH (S j)) as (r & Hr & Hge). exists r. split; [exact Hr|].
      intros j' Hj'. specialize (Hge j' Hj'). lia.
Qed.

Lemma findIndex_name_own (pre post : list value) (item : value) (j : nat) :
  Forall (fun v => nullish v = false) (pre ++ item :: post) ->
  exists r, findIndex_name (pre ++ item :: post) j item (j + List.length pre) = Some r
    /\ match r with Some j' => (j' =? j + List.length pre)%nat | None => false end
       = negb (seen_in (map name_of pre) (name_of item))
         && strict_equals true (name_of item) (name_of item).
Proof.
  revert j. induction pre as [|i pre IH]; intros j Hall.
  - simpl in *. apply Forall_cons in Hall as [Hitem Hpost].
    unfold get_member. rewrite Hitem. simpl. rewrite Nat.add_0_r, Nat.eqb_refl.
    fold (name_of item).
    destruct (strict_equals true (name_of item) (name_of item)).
    + exists (Some j). split; [reflexivity|]. now rewrite Nat.eqb_refl.
    + destruct (findIndex_name_ge post (S j) item j Hpost Hitem) as (r & Hr & Hge).
      exists r. split; [exact Hr|]. destruct r as [j'|]; [|reflexivity].
      specialize (Hge j' eq_refl). apply Nat.eqb_neq. lia.
  - simpl in Hall. apply Forall_cons in Hall as [Hi Hall].
    assert (Hitem : nullish item = false).
    { apply Forall_app in Hall as [_ H]. now apply Forall_cons in H as [H _]. }
    simpl. unfold get_member. rewrite Hi, Hitem. simpl.
    fold (name_of i) (name_of item).
    replace (j =? j + S (List.length pre))%nat with false
      by (symmetry; apply Nat.eqb_neq; lia).
    destruct (strict_equals false (name_of i) (name_of item)) eqn:E.
    + exists (Some j). split; [reflexivity|]. simpl.
      apply Nat.eqb_neq. lia.
    + destruct (IH (S j) Hall) as (r & Hr & Hflag).
      replace (S j + List.length pre)%nat with (j + S (List.length pre))%nat in * by lia.
      exists r. split; [exact Hr|]. rewrite Hflag. reflexivity.
Qed.

(** The [filter]/[findIndex] pair computes [keep_first]. *)
Lemma filter_first_keep_first_from (pre rest : list value) :
  Forall (fun v => nullish v = false) (pre ++ rest) ->
  filter_first (pre ++ rest) rest (List.length pre)
  = Some (keep_first (map name_of pre) rest).
Proof.
  revert pre. induction rest as [|item rest IH]; intros pre Hall; [reflexivity|].
  simpl. destruct (findIndex_name_own pre rest item 0 Hall) as (r & Hr & Hflag).
  simpl in Hr, Hflag. rewrite Hr. simpl.
  specialize (IH (pre ++ [item])).
  rewrite <- app_assoc, length_app, map_app in IH. simpl in IH.
  rewrite Nat.add_1_r in IH. rewrite (IH Hall). simpl.
  destruct (seen_in (map name_of pre) (name_of item));
    destruct (strict_equals true (name_of item) (name_of item));
    simpl in *; destruct r as [j'|]; try rewrite Hflag; try discriminate; reflexivity.
Qed.

Lemma filter_first_keep_first (self : list value) :
  Forall (fun v => nullish v = false) self ->
  filter_first self self 0 = Some (keep_first [] self).
Proof. intros H. exact (filter_first_keep_first_from [] self H). Qed.

(** The filter throws on an element that is [null] or [undefined]. *)
Lemma filter_first_Some_nonnullish (self rest : list value) (k : nat) (out : list value) :
  self <> [] -> filter_first self rest k = Some out ->
  Forall (fun v => nullish v = false) rest.
Proof.
  intros Hself. revert k out. induction rest as [|item rest IH]; intros k out H.
  - constructor.
  - simpl in H. destruct self as [|i self']; [contradiction|].
    destruct (findIndex_name (i :: self') 0 item k) as [found|] eqn:Hf; [|discriminate].
    simpl in H. destruct (filter_first (i :: self') rest (S k)) as [kept|] eqn:Hk;
      [|discriminate].
    constructor; [|exact (IH _ _ Hk)].
    simpl in Hf. unfold get_member in Hf.
    destruct (nullish i); [discriminate|]. simpl in Hf.
    destruct (nullish item); [discriminate | reflexivity].
Qed.

Lemma seen_in_app (s1 s2 : list value) (n : value) :
  seen_in (s1 ++ s2) n = seen_in s1 n || seen_in s2 n.
Proof. apply existsb_app. Qed.

Lemma keep_first_idempotent (s1 s2 l : list value) :
  (forall n, seen_in s2 n = true -> seen_in s1 n = true) ->
  keep_first s2 (keep_first s1 l) = keep_first s1 l.
Proof.
  revert s1 s2. induction l as [|x l IH]; intros s1 s2 Hsub; [reflexivity|].
  assert (Hsub' : forall n, seen_in (s2 ++ [name_of x]) n = true ->
                            seen_in (s1 ++ [name_of x]) n = true).
  { intros n. rewrite !seen_in_app, !orb_true_iff. intros [H|H]; auto. }
  simpl. destruct (seen_in s1 (name_of x)) eqn:E1; simpl.
  - apply IH. intros n H. rewrite seen_in_app. rewrite (Hsub n H). reflexivity.
  - destruct (strict_equals true (name_of x) (name_of x)) eqn:E2; simpl.
    + destruct (seen_in s2 (name_of x)) eqn:E3.
      { rewrite (Hsub _ E3) in E1. discriminate. }
      rewrite E2. simpl. f_equal. now apply IH.
    + apply IH. intros n H. rewrite seen_in_app. rewrite (Hsub n H). reflexivity.
Qed.

Lemma keep_first_Forall (P : value -> Prop) (seen l : list value) :
  Forall P l -> Forall P (keep_first seen l).
Proof.
  intros H. revert seen. induction H as [|x l Hx Hl IH]; intros seen; simpl.
  - constructor.
  - destruct (_ || _); [apply IH | constructor; [exact Hx | apply IH]].
Qed.

(** The filter applied to its own result changes nothing. *)
Lemma filter_first_idempotent (self out : list value) :
  filter_first self self 0 = Some out -> filter_first out out 0 = Some out.
Proof.
  intros H. destruct (decide (self = [])) as [->|Hne].
  { simpl in H. injection H as <-. reflexivity. }
  assert (Hall := filter_first_Some_nonnullish _ _ _ _ Hne H).
  rewrite (filter_first_keep_first _ Hall) in H. injection H as <-.
  rewrite filter_first_keep_first by (apply keep_first_Forall; exact Hall).
  f_equal. now apply keep_first_idempotent.
Qed.

(** *** The shape of a merged draft *)

Lemma mergeDrafts_canonical (existing update : gmap string value) (merged : value) :
  mergeDrafts existing update = Some merged ->
  exists m, merged = VObj m /\ canonical m.
Proof.
  unfold mergeDrafts. intros H.
  destruct (truthy (or_else (field update "requirements") (field existing "requirements"))).
  - destruct (iterate (or_else (opt_chain (field existing "requirements") "items") (arr [])))
      as [existingItems|]; [|discriminate].
    destruct (iterate (or_else (opt_chain (field update "requirements") "items") (arr [])))
      as [updateItems|]; [|discriminate].
    simpl in H.
    destruct (filter_first (existingItems ++ updateItems) (existingItems ++ updateItems) 0)
      as [items|] eqn:Hf; [|discriminate].
    simpl in H. injection H as <-. eexists. split; [reflexivity|].
    right. eexists _, items. split; [apply lookup_insert_eq|].
    split; [apply lookup_insert_eq|]. exact (filter_first_idempotent _ _ Hf).
  - simpl in H. injection H as <-. eexists. split; [reflexivity|].
    left. apply lookup_insert_eq.
Qed.

Lemma normalizeRfpDraft_canonical parse (existingDraft draftUpdate merged : value) :
  truthy draftUpdate = true ->
  normalizeRfpDraft parse existingDraft draftUpdate = Some merged ->
  exists m, merged = VObj m /\ canonical m.
Proof.
  intros Ht H. unfold normalizeRfpDraft in H. rewrite Ht in H. simpl in H.
  destruct (moveItems parse (spread draftUpdate)) as [u1|]; [|discriminate].
  simpl in H. destruct (moveDeliveryRequirements u1) as [u2|]; [|discriminate].
  simpl in H. exact (mergeDrafts_canonical _ _ _ H).
Qed.

(** Merging the empty fragment into a canonical draft returns the draft. *)
Lemma normalizeRfpDraft_empty_fragment parse (m : gmap string value) :
  canonical m -> normalizeRfpDraft parse (VObj m) (VObj ∅) = Some (VObj m).
Proof.
  intros Hc.
  assert (Hexisting : normalizeExisting parse (VObj m) = m).
  { unfold normalizeExisting, field. simpl.
    destruct Hc as [-> | (r & items & -> & _)]; reflexivity. }
  unfold normalizeRfpDraft. rewrite Hexisting. simpl.
  assert (Hfield : forall k, field (∅ : gmap string value) k = VUndefined).
  { intros k. unfold field. now rewrite lookup_empty. }
  unfold moveItems. rewrite Hfield. simpl.
  unfold moveDeliveryRequirements. rewrite Hfield. simpl.
  unfold normalizeBudget. rewrite Hfield.
  unfold normalizeDeadline. rewrite Hfield.
  unfold mergeDrafts. rewrite Hfield. rewrite (left_id_L ∅ (∪) m).
  destruct Hc as [Hu | (r & items & Hr & Hi & Hf)].
  - unfold field. rewrite Hu. simpl. now rewrite insert_id.
  - unfold field at 1 2 3. rewrite Hr. simpl.
    unfold opt_chain, get, field. simpl. rewrite Hi. simpl.
    rewrite app_nil_r, Hf. simpl.
    rewrite (left_id_L ∅ (∪) r). rewrite (insert_id r) by exact Hi.
    now rewrite insert_id.
Qed.

(** C5. Merging the empty fragment is a no-op: for every existing draft
    [A] and every fragment [B] (a value that the guard [!draftUpdate] lets
    through), merging [A] with [B] and then the result with the empty
    object gives what merging [A] with [B] gives. An exception of the
    first merge is the outcome of both sides. *)
Theorem normalizeRfpDraft_idempotent parse (A B : value) :
  truthy B = true ->
  (M ← normalizeRfpDraft parse A B; normalizeRfpDraft parse M (VObj ∅))
  = normalizeRfpDraft parse A B.
Proof.
  intros Ht. destruct (normalizeRfpDraft parse A B) as [M|] eqn:H; [|reflexivity].
  simpl. destruct (normalizeRfpDraft_canonical parse A B M Ht H) as (m & -> & Hc).
  now apply normalizeRfpDraft_empty_fragment.
Qed.

Lemma normalizeRfpDraft_idempotent_witness :
  truthy fragment_laptop = true
  /\ is_Some (normalizeRfpDraft no_json draft_Laptop fragment_laptop)
  /\ (M ← normalizeRfpDraft no_json draft_Laptop fragment_laptop;
      normalizeRfpDraft no_json M (VObj ∅))
     = normalizeRfpDraft no_json draft_Laptop fragment_laptop.
Proof.
  split; [reflexivity|]. split.
  - destruct (normalizeRfpDraft no_json draft_Laptop fragment_laptop) eqn:H;
      [eauto | vm_compute in H; discriminate].
  - exact (normalizeRfpDraft_idempotent no_json draft_Laptop fragment_laptop eq_refl).
Defined.

(** Without a fragment the existing draft is returned as it is, not in
    merged form, which is why C5 is about fragments that are present. *)
Remark normalizeRfpDraft_absent_fragment :
  normalizeRfpDraft no_json (VObj ∅) VNull = Some (VObj ∅)
  /\ normalizeRfpDraft no_json (VObj ∅) (VObj ∅) = Some (obj [("requirements", VUndefined)]).
Proof. split; vm_compute; reflexivity. Qed.

(** *** Deduplication by exact name *)












Lemma setRequirement_other (u u' : gmap string value) (k k' : string) (x : value) :
  k' <> "requirements" -> setRequirement u k x = Some u' -> u' !! k' = u !! k'.
Proof.
  intros Hk. unfold setRequirement.
  destruct (set_member (field u "requirements") k x); [|discriminate].
  simpl. intros [= <-]. now rewrite lookup_insert_ne.
Qed.

Lemma ensureRequirements_other (u : gmap string value) (k' : string) :
  k' <> "requirements" -> ensureRequirements u !! k' = u !! k'.
Proof.
  intros Hk. unfold ensureRequirements.
  destruct (truthy _); [reflexivity | now rewrite lookup_insert_ne].
Qed.














(** The instance of the specification with equal names: exactly one item,
    the existing one. *)
Example merge_same_name_keeps_existing :
  merged_items (normalizeRfpDraft no_json draft_Laptop fragment_Laptop_again)
  = Some [item_Laptop].
Proof. vm_compute. reflexivity. Qed.

(** The same deduplication in the other shapes of the two drafts: items at
    the top level of the fragment, as an array or as a text; a fragment
    without items; existing requirements without items. *)
Example merge_other_shapes :
  merged_items (normalizeRfpDraft no_json draft_Laptop (VObj fragment_legacy_items_fields))
  = Some [item_Laptop; item_Monitor; item_laptop]
  /\ merged_items (normalizeRfpDraft no_json draft_Laptop (VObj fragment_text_items_fields))
     = Some [item_Laptop]
  /\ merged_items (normalizeRfpDraft no_json draft_Laptop (VObj fragment_delivery_only_fields))
     = Some [item_Laptop]
  /\ merged_items (normalizeRfpDraft no_json (VObj draft_no_items_fields) fragment_Laptop_again)
     = Some [item_Laptop_again]
  /\ merged_items (normalizeRfpDraft no_json (VObj draft_no_items_fields)
                     (VObj fragment_delivery_only_fields))
     = Some [].
Proof. repeat split; vm_compute; reflexivity. Qed.

(** *** Budget *)

Lemma moveItems_other parse (u u' : gmap string value) (k' : string) :
  k' <> "requirements" -> k' <> "items" ->
  moveItems parse u = Some u' -> u' !! k' = u !! k'.
Proof.
  intros Hr Hi. unfold moveItems.
  destruct (truthy (field u "items") && _); [|now intros [= <-]].
  destruct (field (ensureRequirements u) "items") as [| | | |s|l m|m];
    try (simpl; intros [= <-]; rewrite lookup_delete_ne by congruence;
         now apply ensureRequirements_other).
  - destruct (setRequirement _ _ _) as [u1|] eqn:E; [|discriminate].
    simpl. intros [= <-]. rewrite lookup_delete_ne by congruence.
    rewrite (setRequirement_other _ _ _ _ _ Hr E). now apply ensureRequirements_other.
  - destruct (setRequirement _ _ _) as [u1|] eqn:E; [|discriminate].
    simpl. intros [= <-]. rewrite lookup_delete_ne by congruence.
    rewrite (setRequirement_other _ _ _ _ _ Hr E). now apply ensureRequirements_other.
Qed.

Lemma moveDeliveryRequirements_other (u u' : gmap string value) (k' : string) :
  k' <> "requirements" -> k' <> "deliveryRequirements" ->
  moveDeliveryRequirements u = Some u' -> u' !! k' = u !! k'.
Proof.
  intros Hr Hd. unfold moveDeliveryRequirements.
  destruct (truthy (field u "deliveryRequirements") && _); [|now intros [= <-]].
  destruct (negb (isNaN _)).
  - destruct (setRequirement _ _ _) as [u1|] eqn:E; [|discriminate].
    simpl. intros [= <-]. rewrite lookup_delete_ne by congruence.
    rewrite (setRequirement_other _ _ _ _ _ Hr E). now apply ensureRequirements_other.
  - simpl. intros [= <-]. rewrite lookup_delete_ne by congruence.
    now apply ensureRequirements_other.
Qed.

Lemma normalizeExisting_other parse (existingDraft : value) (k' : string) :
  k' <> "requirements" ->
  normalizeExisting parse existingDraft !! k' = spread existingDraft !! k'.
Proof.
  intros Hk. unfold normalizeExisting.
  destruct (field _ "requirements") as [| | | |s| |]; try reflexivity.
  destruct (truthy (VStr s)); [|reflexivity].
  destruct (parse s); [now rewrite lookup_insert_ne | now rewrite lookup_delete_ne].
Qed.

Lemma normalizeDeadline_other (u : gmap string value) (k' : string) :
  k' <> "deadline" -> normalizeDeadline u !! k' = u !! k'.
Proof.
  intros Hk. unfold normalizeDeadline.
  destruct (field u "deadline") as [| | | |s| |]; try reflexivity.
  - now rewrite lookup_delete_ne.
  - destruct (String.eqb s ""); [now rewrite lookup_delete_ne | reflexivity].
Qed.

(** What the merge does with the [budget] of the fragment [u] (after the
    two moves) and of the existing draft [e]. *)
Lemma mergeDrafts_budget (e u : gmap string value) (merged : gmap string value) :
  mergeDrafts e (normalizeDeadline (normalizeBudget u)) = Some (VObj merged) ->
  merged !! "budget"
  = match normalizeBudget u !! "budget" with
    | Some b => Some b
    | None => e !! "budget"
    end.
Proof.
  unfold mergeDrafts. intros H.
  match type of H with (?r ≫= _) = _ => destruct r as [rq|]; [|discriminate] end.
  simpl in H. injection H as <-.
  rewrite lookup_insert_ne by discriminate.
  rewrite lookup_union, normalizeDeadline_other by discriminate.
  destruct (normalizeBudget u !! "budget"), (e !! "budget"); reflexivity.
Qed.

Lemma normalizeRfpDraft_budget parse (existingDraft draftUpdate : value)
    (merged : gmap string value) :
  truthy draftUpdate = true ->
  normalizeRfpDraft parse existingDraft draftUpdate = Some (VObj merged) ->
  merged !! "budget"
  = match normalizeBudget (spread draftUpdate) !! "budget" with
    | Some b => Some b
    | None => spread existingDraft !! "budget"
    end.
Proof.
  intros Ht H. unfold normalizeRfpDraft in H. rewrite Ht in H. simpl in H.
  destruct (moveItems parse (spread draftUpdate)) as [u1|] eqn:E1; [|discriminate].
  simpl in H. destruct (moveDeliveryRequirements u1) as [u2|] eqn:E2; [|discriminate].
  simpl in H. rewrite (mergeDrafts_budget _ _ _ H).
  rewrite normalizeExisting_other by discriminate.
  assert (Hb : u2 !! "budget" = spread draftUpdate !! "budget").
  { rewrite (moveDeliveryRequirements_other _ _ "budget" ltac:(discriminate)
               ltac:(discriminate) E2).
    exact (moveItems_other parse _ _ "budget" ltac:(discriminate) ltac:(discriminate) E1). }
  assert (Hn : normalizeBudget u2 !! "budget"
               = normalizeBudget (spread draftUpdate) !! "budget").
  { unfold normalizeBudget, field. rewrite Hb.
    destruct (spread draftUpdate !! "budget") as [[| | | |s| |]|] eqn:E; simpl;
      rewrite ?lookup_delete_eq, ?Hb, ?E; try reflexivity.
    destruct (String.eqb s ""); [now rewrite !lookup_delete_eq|].
    now rewrite !lookup_insert_eq. }
  now rewrite Hn.
Qed.

(** An incoming budget that is the empty string or [null] is dropped: the
    merged draft has the budget of the existing draft. *)
Lemma empty_budget_keeps_existing parse (existingDraft draftUpdate : value)
    (merged : gmap string value) :
  truthy draftUpdate = true ->
  field (spread draftUpdate) "budget" = VStr ""
  \/ field (spread draftUpdate) "budget" = VNull ->
  normalizeRfpDraft parse existingDraft draftUpdate = Some (VObj merged) ->
  merged !! "budget" = spread existingDraft !! "budget".
Proof.
  intros Ht Hb H. rewrite (normalizeRfpDraft_budget _ _ _ _ Ht H).
  unfold normalizeBudget. destruct Hb as [-> | ->]; simpl; now rewrite lookup_delete_eq.
Qed.

(** An incoming budget that is a string without a number in front is
    replaced by [undefined], and the merged draft then has [undefined] as
    its budget, whatever the existing draft had. *)
Lemma non_numeric_budget_overwrites parse (existingDraft draftUpdate : value)
    (merged : gmap string value) (s : string) :
  truthy draftUpdate = true ->
  field (spread draftUpdate) "budget" = VStr s -> s <> EmptyString ->
  parseFloat s = NaN ->
  normalizeRfpDraft parse existingDraft draftUpdate = Some (VObj merged) ->
  merged !! "budget" = Some VUndefined.
Proof.
  intros Ht Hb Hs Hnan H. rewrite (normalizeRfpDraft_budget _ _ _ _ Ht H).
  unfold normalizeBudget. rewrite Hb.
  destruct (String.eqb_spec s ""); [contradiction|].
  rewrite Hnan. simpl. now rewrite lookup_insert_eq.
Qed.

(** C4 at the failing input: the existing draft has budget 5000, the
    fragment has the budget "about five thousand"; the merge returns, and
    the merged draft has the budget [undefined]. The claim says 5000. *)
Theorem bad_budget_loses_existing :
  draft_Laptop_fields !! "budget" = Some (num 5000)
  /\ parseFloat "about five thousand" = NaN
  /\ exists merged,
       normalizeRfpDraft no_json draft_Laptop fragment_bad_budget = Some (VObj merged)
       /\ merged !! "budget" = Some VUndefined.
Proof.
  split; [vm_compute; reflexivity|]. split; [vm_compute; reflexivity|].
  destruct (normalizeRfpDraft no_json draft_Laptop fragment_bad_budget) as [[| | | | | |m]|]
    eqn:H; try (vm_compute in H; discriminate).
  exists m. split; [reflexivity|].
  apply (non_numeric_budget_overwrites no_json draft_Laptop fragment_bad_budget m
           "about five thousand"); try (vm_compute; reflexivity); [discriminate | exact H].
Qed.

(** The sibling case on a sample: an empty budget string leaves 5000. *)
Example empty_budget_sample :
  exists merged,
    normalizeRfpDraft no_json draft_Laptop fragment_empty_budget = Some (VObj merged)
    /\ merged !! "budget" = Some (num 5000).
Proof.
  destruct (normalizeRfpDraft no_json draft_Laptop fragment_empty_budget) as [[| | | | | |m]|]
    eqn:H; try (vm_compute in H; discriminate).
  exists m. split; [reflexivity|].
  rewrite (empty_budget_keeps_existing no_json draft_Laptop fragment_empty_budget m);
    [vm_compute; reflexivity | reflexivity | left; vm_compute; reflexivity | exact H].
Qed.

(** ** The reconciler and its arguments *)

(** C3 at the failing input. The fragment [2] has [items] at the top level
    and a [requirements] object [4] without items. The copy of the fragment
    shares that object, and the move of the items assigns to it: after the
    call the object [4] of the caller has an [items] property. The claim
    says that the arguments, nested objects included, are unchanged. *)
Theorem normalizeRfpDraft_mutates_fragment :
  Store.sample_heap !! 4%positive
    = Some (Store.plain (list_to_map [("deliveryDays", Store.RNum (Fin 7))]))
  /\ exists result h',
       sample_run = Some (result, h')
       /\ h' !! 4%positive
          = Some (Store.plain (list_to_map [("deliveryDays", Store.RNum (Fin 7));
                                            ("items", Store.RRef 3%positive)]))
       /\ h' !! 1%positive = Store.sample_heap !! 1%positive
       /\ h' !! 2%positive = Store.sample_heap !! 2%positive.
Proof.
  split; [vm_compute; reflexivity|].
  destruct sample_run as [[result h']|] eqn:H; [|vm_compute in H; discriminate].
  exists result, h'. split; [reflexivity|].
  vm_compute in H. injection H as <- <-.
  repeat split; vm_compute; reflexivity.
Qed.

(** The change is seen by the next call. The first merge moves the
    top-level [items] of its copy; on the fragment as the first call has
    left it the second merge finds [requirements.items] set, moves nothing,
    and its result carries the stray top-level [items]. On values, where
    the fragment is as the caller wrote it, it does not. *)
Example second_call_sees_the_change :
  top_level_items sample_run = Some VUndefined
  /\ top_level_items sample_second_run = Some (arr [item_Laptop])
  /\ (M ← normalizeRfpDraft no_json draft_untitled fragment_legacy;
      merged ← normalizeRfpDraft no_json M fragment_legacy;
      Some (get merged "items")) = Some VUndefined.
Proof. repeat split; vm_compute; reflexivity. Qed.

(** On the samples the two models agree: the value that the store model
    returns stands for the tree that the value model returns. *)
Example models_agree_on_sample_store :
  match sample_run with
  | Some (result, h') => Some (Store.reify 4 h' result)
  | None => None
  end
  = normalizeRfpDraft no_json draft_untitled fragment_legacy.
Proof. vm_compute. reflexivity. Qed.

Example models_agree_on_samples :
  Store.run_on_trees draft_untitled fragment_legacy
    = normalizeRfpDraft no_json draft_untitled fragment_legacy
  /\ Store.run_on_trees draft_Laptop fragment_laptop
      = normalizeRfpDraft no_json draft_Laptop fragment_laptop
  /\ Store.run_on_trees draft_Laptop fragment_Laptop_again
      = normalizeRfpDraft no_json draft_Laptop fragment_Laptop_again
  /\ Store.run_on_trees draft_Laptop fragment_bad_budget
      = normalizeRfpDraft no_json draft_Laptop fragment_bad_budget
  /\ Store.run_on_trees draft_Laptop fragment_empty_budget
      = normalizeRfpDraft no_json draft_Laptop fragment_empty_budget.
Proof. repeat split; vm_compute; reflexivity. Qed.

(** The two models agree on the edge cases as well, in the result and in
    whether the call throws (the second, the fourth and the tenth do). *)
Example models_agree_on_edge_cases :
  Forall (fun '(existingDraft, draftUpdate) =>
            Store.run_on_trees existingDraft draftUpdate
            = normalizeRfpDraft no_json existingDraft draftUpdate)
         edge_cases
  /\ map (fun '(existingDraft, draftUpdate) =>
            bool_decide (normalizeRfpDraft no_json existingDraft draftUpdate = None))
         edge_cases
     = [false; true; false; true; false; false; false; false; false; true;
        false; false; false; false; false].
Proof.
  split; [repeat constructor; vm_compute; reflexivity|].
  unfold edge_cases. cbn [map].
  repeat (f_equal; [apply bool_decide_ext; split; intros H; vm_compute in H |- *;
                      congruence|]).
  reflexivity.
Qed.

(** *** What the reconciler leaves unchanged

    Apart from the object that the [requirements] of the fragment refer
    to, every object of the caller is the same after the call. *)

Module StoreFrame.
Import Store.

(** Splits a hypothesis about a sequence of steps into its steps. *)
Ltac step H :=
  match type of H with
  | bind (reading ?f) _ ?h = Some _ =>
      let a := fresh "a" in let E := fresh "E" in
      unfold bind at 1 in H; unfold reading at 1 in H;
      destruct (f h) as [a|] eqn:E; [|discriminate H]
  | bind ?m _ ?h = Some _ =>
      let a := fresh "a" in let h1 := fresh "h" in let E := fresh "E" in
      unfold bind at 1 in H;
      destruct (m h) as [[a h1]|] eqn:E; [|discriminate H]
  end.

Section Frame.

Variable JSON_parse : string -> heap -> option (ref_value * heap).

(** The host parser creates objects and changes none. *)
Hypothesis JSON_parse_extends :
  forall s h v h', JSON_parse s h = Some (v, h') -> h ⊆ h'.

(** The store at the call, and the value of [draftUpdate.requirements]. *)
Variable h0 : heap.
Variable r : ref_value.

Lemma kept_start : kept h0 r h0.
Proof. intros l Hl. split; [exact Hl | reflexivity]. Qed.

Lemma reading_inv {A} (f : heap -> option A) h a h' :
  reading f h = Some (a, h') -> h' = h /\ f h = Some a.
Proof. unfold reading. destruct (f h); [intros [= <- <-]; auto | discriminate]. Qed.

Lemma alloc_kept o h v h' :
  kept h0 r h -> alloc o h = Some (v, h') -> kept h0 r h' /\ assignable h0 r v.
Proof.
  intros Hk. unfold alloc. cbv zeta. intros [= <- <-].
  assert (Hfresh : h !! fresh (dom h) = None).
  { apply not_elem_of_dom. apply is_fresh. }
  split.
  - intros l Hl. destruct (Hk l Hl) as [Hs He].
    assert (fresh (dom h) <> l) by (intros <-; rewrite Hfresh in Hs; now destruct Hs).
    rewrite lookup_insert_ne by assumption. auto.
  - intros t [= <-]. right.
    destruct (h0 !! fresh (dom h)) eqn:E; [|reflexivity].
    destruct (Hk _ (mk_is_Some _ _ E)) as [Hs _]. rewrite Hfresh in Hs. now destruct Hs.
Qed.

Lemma set_member_kept v k x h h' :
  kept h0 r h -> assignable h0 r v -> set_member v k x h = Some (tt, h') -> kept h0 r h'.
Proof.
  intros Hk Ha. destruct v as [| | | | |t]; try discriminate. simpl.
  destruct (h !! t) as [o|] eqn:Ht; [|discriminate]. intros [= <-].
  intros l Hl. destruct (Hk l Hl) as [Hs He].
  destruct (decide (t = l)) as [->|Hne].
  - rewrite lookup_insert_eq. split; [eauto|]. intros Hr.
    destruct (Ha l eq_refl) as [Heq | Hnone]; [contradiction|].
    rewrite Hnone in Hl. now destruct Hl.
  - rewrite lookup_insert_ne by assumption. auto.
Qed.

Lemma parse_kept s h v h' :
  kept h0 r h -> JSON_parse s h = Some (v, h') -> kept h0 r h'.
Proof.
  intros Hk Hp. apply JSON_parse_extends in Hp.
  intros l Hl. destruct (Hk l Hl) as [[o Ho] He].
  pose proof (lookup_weaken _ _ _ _ Ho Hp) as Ho'.
  split; [eauto|]. intros Hr. rewrite Ho', <- Ho. auto.
Qed.

Lemma ensureRequirements_kept u h u' h' :
  kept h0 r h -> assignable h0 r (field u "requirements") ->
  ensureRequirements u h = Some (u', h') ->
  kept h0 r h' /\ assignable h0 r (field u' "requirements").
Proof.
  intros Hk Ha. unfold ensureRequirements.
  destruct (truthy (field u "requirements")).
  - intros [= <- <-]. auto.
  - unfold bind. destruct (alloc (plain ∅) h) as [[v h1]|] eqn:E; [|discriminate].
    intros [= <- <-]. destruct (alloc_kept _ _ _ _ Hk E) as [Hk1 Ha1].
    split; [exact Hk1|]. unfold field. now rewrite lookup_insert_eq.
Qed.

Lemma moveItems_kept u h u' h' :
  kept h0 r h -> assignable h0 r (field u "requirements") ->
  moveItems JSON_parse u h = Some (u', h') ->
  kept h0 r h' /\ assignable h0 r (field u' "requirements").
Proof.
  intros Hk Ha H. unfold moveItems in H. step H.
  destruct (truthy (field u "items") && negb (truthy a)).
  2: { injection H as <- <-. auto. }
  step H. destruct (ensureRequirements_kept _ _ _ _ Hk Ha E0) as [Hk1 Ha1].
  step H. injection H as <- <-.
  assert (Ha' : assignable h0 r (field (delete "items" a0) "requirements")).
  { unfold field. now rewrite lookup_delete_ne by discriminate. }
  split; [|exact Ha'].
  destruct (field a0 "items") as [| | | |s|t] eqn:Hitems.
  1-4, 6:
    (unfold bind, reading in E1; destruct (isArray _ _) in E1;
     [ destruct a1; exact (set_member_kept _ _ _ _ _ Hk1 Ha1 E1)
     | injection E1; intros; subst; exact Hk1 ]).
  destruct (JSON_parse s h1) as [[parsed hp]|] eqn:Hp.
  - destruct a1. exact (set_member_kept _ _ _ _ _ (parse_kept _ _ _ _ Hk1 Hp) Ha1 E1).
  - step E1. destruct (alloc_kept _ _ _ _ Hk1 E2) as [Hk2 _].
    step E1. destruct (alloc_kept _ _ _ _ Hk2 E3) as [Hk3 _].
    destruct a1. exact (set_member_kept _ _ _ _ _ Hk3 Ha1 E1).
Qed.

Lemma moveDeliveryRequirements_kept u h u' h' :
  kept h0 r h -> assignable h0 r (field u "requirements") ->
  moveDeliveryRequirements u h = Some (u', h') ->
  kept h0 r h' /\ assignable h0 r (field u' "requirements").
Proof.
  intros Hk Ha H. unfold moveDeliveryRequirements in H. step H.
  destruct (truthy (field u "deliveryRequirements") && negb (truthy a)).
  2: { injection H as <- <-. auto. }
  step H. destruct (ensureRequirements_kept _ _ _ _ Hk Ha E0) as [Hk1 Ha1].
  cbv zeta in H. step H. injection E1 as <-. step H. injection H as <- <-.
  split; [|unfold field; now rewrite lookup_delete_ne by discriminate].
  subst h2. destruct (negb (isNaN h1 _)).
  - destruct a1. exact (set_member_kept _ _ _ _ _ Hk1 Ha1 E1).
  - injection E1; intros; subst; exact Hk1.
Qed.

Lemma mergeDrafts_kept e u h v h' :
  kept h0 r h -> mergeDrafts e u h = Some (v, h') -> kept h0 r h'.
Proof.
  intros Hk H. unfold mergeDrafts in H. cbv zeta in H. step H.
  apply (alloc_kept _ _ _ _) in H; [tauto|].
  destruct (truthy (or_else (field u "requirements") (field e "requirements"))).
  2: { injection E; intros; subst; exact Hk. }
  do 5 step E. cbv zeta in E. step E.
  destruct (alloc_kept _ _ _ _ Hk E5) as [Hk1 _].
  apply (alloc_kept _ _ _ _ Hk1) in E. tauto.
Qed.

Lemma normalizeExisting_kept existingDraft h e h' :
  kept h0 r h -> normalizeExisting JSON_parse existingDraft h = Some (e, h') -> kept h0 r h'.
Proof.
  intros Hk H. unfold normalizeExisting in H. step H.
  destruct (field a "requirements") as [| | | |s|t];
    try (injection H; intros; subst; exact Hk).
  destruct (truthy (RStr s)); [|injection H; intros; subst; exact Hk].
  destruct (JSON_parse s h) as [[parsed hp]|] eqn:Hp.
  - injection H; intros; subst. exact (parse_kept _ _ _ _ Hk Hp).
  - injection H; intros; subst. exact Hk.
Qed.

Lemma normalizeExisting_extends existingDraft h e h' :
  normalizeExisting JSON_parse existingDraft h = Some (e, h') -> h ⊆ h'.
Proof.
  intros H. unfold normalizeExisting in H. step H.
  destruct (field a "requirements") as [| | | |s|t];
    try (injection H; intros; subst; reflexivity).
  destruct (truthy (RStr s)); [|injection H; intros; subst; reflexivity].
  destruct (JSON_parse s h) as [[parsed hp]|] eqn:Hp.
  - injection H; intros; subst. exact (JSON_parse_extends _ _ _ _ Hp).
  - injection H; intros; subst. reflexivity.
Qed.

End Frame.

(** The frame of [normalizeRfpDraft]: with a host parser that only creates
    objects, every object that the store holds at the call is the same
    after the call, except the object that [draftUpdate.requirements]
    refers to. The two argument objects themselves are never written. *)
Theorem normalizeRfpDraft_frame JSON_parse (existingDraft draftUpdate result : ref_value)
    (h0 h' : heap) (update : gmap string ref_value) :
  (forall s h v h1, JSON_parse s h = Some (v, h1) -> h ⊆ h1) ->
  spread h0 draftUpdate = Some update ->
  normalizeRfpDraft JSON_parse existingDraft draftUpdate h0 = Some (result, h') ->
  forall l o, h0 !! l = Some o -> field update "requirements" <> RRef l ->
              h' !! l = Some o.
Proof.
  intros Hparse Hspread H l o Hl Hne.
  set (r := field update "requirements") in *.
  assert (Hk : kept h0 r h') .
  { unfold normalizeRfpDraft in H. step H.
    pose proof (normalizeExisting_kept JSON_parse Hparse h0 r _ _ _ _
                  (kept_start h0 r) E) as Hk1.
    destruct (negb (truthy draftUpdate)).
    - apply (alloc_kept _ _ _ _ _ _ Hk1) in H. tauto.
    - step H. step H. step H. cbv zeta in H.
      assert (Ha : assignable h0 r (field a0 "requirements")).
      { pose proof (normalizeExisting_extends JSON_parse Hparse _ _ _ _ E) as Hsub.
        assert (Hsame : spread h draftUpdate = Some update).
        { destruct draftUpdate as [| | | | |t]; try exact Hspread.
          simpl in *. destruct (h0 !! t) as [ob|] eqn:Ht; [|discriminate].
          now rewrite (lookup_weaken _ _ _ _ Ht Hsub). }
        rewrite Hsame in E0. injection E0 as <-. intros t Ht. now left. }
      destruct (moveItems_kept JSON_parse Hparse h0 r _ _ _ _ Hk1 Ha E1) as [Hk2 Ha2].
      destruct (moveDeliveryRequirements_kept h0 r _ _ _ _ Hk2 Ha2 E2) as [Hk3 _].
      exact (mergeDrafts_kept h0 r _ _ _ _ _ Hk3 H). }
  destruct (Hk l (mk_is_Some _ _ Hl)) as [_ He]. rewrite He by (intros E; now apply Hne).
  exact Hl.
Qed.

(** On a fragment in canonical shape, with neither [items] nor
    [deliveryRequirements] at the top level, nothing is moved and no object
    of the caller is changed. *)
Theorem normalizeRfpDraft_canonical_fragment_frame JSON_parse
    (existingDraft draftUpdate result : ref_value) (h0 h' : heap)
    (update : gmap string ref_value) :
  (forall s h v h1, JSON_parse s h = Some (v, h1) -> h ⊆ h1) ->
  spread h0 draftUpdate = Some update ->
  truthy (field update "items") = false ->
  truthy (field update "deliveryRequirements") = false ->
  normalizeRfpDraft JSON_parse existingDraft draftUpdate h0 = Some (result, h') ->
  forall l o, h0 !! l = Some o -> h' !! l = Some o.
Proof.
  intros Hparse Hspread Hitems Hdelivery H l o Hl.
  assert (Hk : kept h0 RUndefined h').
  { unfold normalizeRfpDraft in H. step H.
    pose proof (normalizeExisting_kept JSON_parse Hparse h0 RUndefined _ _ _ _
                  (kept_start h0 RUndefined) E) as Hk1.
    destruct (negb (truthy draftUpdate)).
    - apply (alloc_kept _ _ _ _ _ _ Hk1) in H. tauto.
    - step H. step H. step H. cbv zeta in H.
      pose proof (normalizeExisting_extends JSON_parse Hparse _ _ _ _ E) as Hsub.
      assert (Hsame : spread h draftUpdate = Some update).
      { destruct draftUpdate as [| | | | |t]; try exact Hspread.
        simpl in *. destruct (h0 !! t) as [ob|] eqn:Ht; [|discriminate].
        now rewrite (lookup_weaken _ _ _ _ Ht Hsub). }
      rewrite Hsame in E0. injection E0 as <-.
      unfold moveItems in E1. step E1. rewrite Hitems in E1. simpl in E1.
      injection E1 as <- <-.
      unfold moveDeliveryRequirements in E2. step E2. rewrite Hdelivery in E2.
      simpl in E2. injection E2 as <- <-.
      exact (mergeDrafts_kept h0 RUndefined _ _ _ _ _ Hk1 H). }
  destruct (Hk l (mk_is_Some _ _ Hl)) as [_ He]. rewrite He by discriminate.
  exact Hl.
Qed.

(** The frame on the sample run: the draft [1], the fragment [2], its item
    array [3] and the item [5] are as they were; only [4], the
    [requirements] of the fragment, is not covered. *)
Example sample_run_frame :
  forall result h', sample_run = Some (result, h') ->
  forall l, l = 1%positive \/ l = 2%positive \/ l = 3%positive \/ l = 5%positive ->
  h' !! l = sample_heap !! l.
Proof.
  intros result h' H l Hl.
  assert (Hin : exists o, sample_heap !! l = Some o).
  { destruct Hl as [->|[->|[->| ->]]]; eexists; vm_compute; reflexivity. }
  destruct Hin as [o Ho]. rewrite Ho.
  apply (normalizeRfpDraft_frame no_json (RRef 1) (RRef 2) result sample_heap h'
           (list_to_map [("items", RRef 3%positive); ("requirements", RRef 4%positive)])).
  - intros s h v h1 Hp. discriminate Hp.
  - vm_compute. reflexivity.
  - exact H.
  - exact Ho.
  - intros E. vm_compute in E. injection E as <-.
    destruct Hl as [Hl|[Hl|[Hl|Hl]]]; discriminate Hl.
Qed.
End StoreFrame.

(** * Further properties *)

(** ** [evaluateProposals]: the ranking *)

Local Open Scope Z_scope.

Lemma insert_by_score_perm e l : Permutation (insert_by_score e l) (e :: l).
Proof.
  induction l as [|x l IH]; simpl; [reflexivity|].
  destruct (overallScore e <? overallScore x); [|reflexivity].
  rewrite IH. apply perm_swap.
Qed.



Lemma sort_by_score_perm l : Permutation (sort_by_score l) l.
Proof.
  induction l as [|e l IH]; simpl; [reflexivity|].
  rewrite insert_by_score_perm. now constructor.
Qed.




(** ** The overall score *)

Local Open Scope Q_scope.

Lemma mul64_mono (s1 s2 : Z) (w0 : Q) :
  0 <= w0 -> (s1 <= s2)%Z -> mul64 (inject_Z s1) (double w0) <= mul64 (inject_Z s2) (double w0).
Proof.
  intros Hw H. unfold mul64. apply double_mono.
  apply Qmult_le_compat_r; [now rewrite <- Zle_Qle | now apply double_nonneg].
Qed.

Lemma add64_mono (a b c d : Q) : a <= c -> b <= d -> add64 a b <= add64 c d.
Proof. intros H1 H2. unfold add64. apply double_mono. lra. Qed.

(** X2. The overall score is monotone in the criterion scores: when no
    criterion scores lower, the overall score is not lower. *)
Theorem calculateOverallScore_monotone (c1 c2 : EvaluationCriteria) :
  scores_le c1 c2 -> (calculateOverallScore c1 <= calculateOverallScore c2)%Z.
Proof.
  intros (H1 & H2 & H3 & H4 & H5 & H6 & H7).
  apply Math_round_mono. unfold weightedSum, weights.
  cbn [w_price w_delivery w_requirements w_paymentTerms w_warranty w_completeness
       w_otherRequirements].
  repeat apply add64_mono; apply mul64_mono; assumption || discriminate.
Qed.

Lemma calculateOverallScore_monotone_witness :
  let late := {| p_totalPrice := Some (inject_Z 9000); p_deliveryDays := Some (inject_Z 40);
                 p_paymentTerms := None; p_warranty := None; p_notes := None;
                 p_completeness := None; p_rawEmail := None; p_parsedData := None |} in
  let on_time := {| p_totalPrice := Some (inject_Z 9000); p_deliveryDays := Some (inject_Z 30);
                    p_paymentTerms := None; p_warranty := None; p_notes := None;
                    p_completeness := None; p_rawEmail := None; p_parsedData := None |} in
  let rfp := {| budget := Some (inject_Z 10000);
                requirements := {| items := None; deliveryDays := Some (inject_Z 30);
                                   paymentTerms := None; warranty := None;
                                   otherRequirements := None |} |} in
  scores_le (evaluateCriteria late rfp) (evaluateCriteria on_time rfp)
  /\ (calculateOverallScore (evaluateCriteria late rfp)
      <= calculateOverallScore (evaluateCriteria on_time rfp))%Z.
Proof.
  cbv zeta.
  match goal with |- ?H /\ _ => assert (Hle : H) by (vm_compute; repeat split; discriminate) end.
  split; [exact Hle|]. exact (calculateOverallScore_monotone _ _ Hle).
Defined.



Lemma evaluatePrice_missing p b :
  truthy_num p = None -> evaluatePrice p b
    = {| price_score := 0; matchesBudget := false; deviation := 0 |}.
Proof. intros H. unfold evaluatePrice. now rewrite H. Qed.



(** ** Delivery: the deadline is the peak *)

Lemma Math_round_eq (x : Q) (n : Z) : x == inject_Z n -> Math_round x = n.
Proof.
  intros H. rewrite <- (Math_round_Z n). unfold Math_round. apply Qfloor_comp.
  now rewrite H.
Qed.

(** Case analysis on a clamp: the inner [Qmin] first, then the [Qmax]. *)
Ltac clamp_cases :=
  repeat match goal with
  | |- context [Qmin ?a ?b] =>
      let H := fresh "Hmin" in
      destruct (Q.min_spec a b) as [[? H] | [? H]]; rewrite H
  end;
  max_cases.

(** X4. When the RFP requires a delivery time, the proposal meets the
    deadline exactly when its delivery score is at least 90; a late
    proposal scores at most 75. *)
Theorem meetsDeadline_iff_score (proposalDeliveryDays : option Q) (requiredDeliveryDays : Q) :
  ~ requiredDeliveryDays == 0 ->
  let d := evaluateDelivery proposalDeliveryDays (Some requiredDeliveryDays) in
  (meetsDeadline d = true <-> (90 <= delivery_score d)%Z)
  /\ (meetsDeadline d = false -> (delivery_score d <= 75)%Z).
Proof.
  intros Hr. cbv zeta. unfold evaluateDelivery.
  destruct (truthy_num proposalDeliveryDays) as [p|].
  2:{ simpl. split; [split; [discriminate | lia] | lia]. }
  rewrite (truthy_num_nonzero _ Hr). cbv zeta. cbn [meetsDeadline delivery_score].
  set (d := p - requiredDeliveryDays).
  destruct (Qle_bool d 0) eqn:E.
  - split; [|discriminate]. split; [intros _|reflexivity].
    change 90%Z with (Math_round 90). apply Math_round_mono. apply Q.le_max_l.
  - assert (H75 : (Math_round
             (if Qle_bool d 7 then 75 else if Qle_bool d 14 then 60
              else if Qle_bool d 30 then 40 else Qmax 0 (30 - d / 10)) <= 75)%Z).
    { change 75%Z with (Math_round 75) at 2. apply Math_round_mono.
      apply Qle_bool_false in E.
      split_tests; max_cases; try lra.
      unfold Qdiv in *. change (/ 10) with (1 # 10) in *. lra. }
    split; [|intros _; exact H75]. split; [discriminate | lia].
Qed.

Lemma meetsDeadline_iff_score_witness :
  ~ inject_Z 30 == 0
  /\ meetsDeadline (evaluateDelivery (Some (inject_Z 31)) (Some (inject_Z 30))) = false
  /\ (delivery_score (evaluateDelivery (Some (inject_Z 31)) (Some (inject_Z 30))) <= 75)%Z.
Proof.
  assert (H : ~ inject_Z 30 == 0) by discriminate.
  split; [exact H|]. split; [reflexivity|].
  exact (proj2 (meetsDeadline_iff_score (Some (inject_Z 31)) (inject_Z 30) H) eq_refl).
Defined.

(** X5. The delivery score peaks at the required day. For a required
    delivery time and two proposed times [p1 <= p2]: when both are on time
    the later one never scores lower (delivering earlier earns nothing,
    and more than five days early scores 90 instead of 100), when both are
    late the later one never scores higher, and delivery on the required
    day scores 100. *)
Theorem delivery_score_peaks_at_deadline (requiredDeliveryDays p1 p2 : Q) :
  ~ requiredDeliveryDays == 0 -> ~ p1 == 0 -> ~ p2 == 0 -> p1 <= p2 ->
  let score p := delivery_score (evaluateDelivery (Some p) (Some requiredDeliveryDays)) in
  (p2 <= requiredDeliveryDays -> (score p1 <= score p2)%Z)
  /\ (requiredDeliveryDays <= p1 -> (score p2 <= score p1)%Z)
  /\ score requiredDeliveryDays = 100%Z
  /\ (p1 <= requiredDeliveryDays - 5 -> score p1 = 90%Z).
Proof.
  intros Hr H1 H2 H12. cbv zeta. unfold evaluateDelivery.
  rewrite !(truthy_num_nonzero _ Hr), (truthy_num_nonzero _ H1), (truthy_num_nonzero _ H2).
  cbv zeta. cbn [delivery_score].
  set (d1 := p1 - requiredDeliveryDays). set (d2 := p2 - requiredDeliveryDays).
  set (d0 := requiredDeliveryDays - requiredDeliveryDays).
  assert (Hd : d1 <= d2) by (unfold d1, d2; lra).
  assert (Hd0 : d0 == 0) by (unfold d0; lra).
  split; [|split; [|split]].
  - intros Hon. assert (Hd2 : d2 <= 0) by (unfold d2; lra).
    apply Math_round_mono.
    rewrite (proj2 (Qle_bool_iff d1 0)) by lra. rewrite (proj2 (Qle_bool_iff d2 0)) by lra.
    rewrite (Qabs_neg d1), (Qabs_neg d2) by lra.
    clamp_cases; lra.
  - intros Hlate. assert (Hd1 : 0 <= d1) by (unfold d1; lra).
    apply Math_round_mono.
    destruct (Qle_bool d1 0) eqn:E1.
    + apply Qle_bool_iff in E1. rewrite (Qabs_pos d1) by lra.
      split_tests; clamp_cases; try lra;
        unfold Qdiv in *; change (/ 10) with (1 # 10) in *; lra.
    + apply Qle_bool_false in E1. rewrite (proj2 (Qle_bool_false d2 0)) by lra.
      split_tests; max_cases; try lra;
        unfold Qdiv in *; change (/ 10) with (1 # 10) in *; lra.
  - rewrite (proj2 (Qle_bool_iff d0 0)) by lra.
    apply Math_round_eq. change (inject_Z 100) with 100.
    rewrite (Qabs_pos d0) by lra. clamp_cases; lra.
  - intros Hearly. assert (Hd1 : d1 <= -5) by (unfold d1; lra).
    rewrite (proj2 (Qle_bool_iff d1 0)) by lra.
    apply Math_round_eq. change (inject_Z 90) with 90.
    rewrite (Qabs_neg d1) by lra. clamp_cases; lra.
Qed.

Lemma delivery_score_peaks_at_deadline_witness :
  delivery_score (evaluateDelivery (Some (inject_Z 10)) (Some (inject_Z 30))) = 90%Z
  /\ delivery_score (evaluateDelivery (Some (inject_Z 28)) (Some (inject_Z 30))) = 96%Z
  /\ (delivery_score (evaluateDelivery (Some (inject_Z 10)) (Some (inject_Z 30)))
      <= delivery_score (evaluateDelivery (Some (inject_Z 28)) (Some (inject_Z 30))))%Z.
Proof.
  split; [reflexivity|]. split; [reflexivity|].
  refine (proj1 (delivery_score_peaks_at_deadline (inject_Z 30) (inject_Z 10) (inject_Z 28)
                   _ _ _ _) _); discriminate.
Defined.

(** ** Payment terms and warranty that repeat the requirement *)

Lemma prefix_refl (s : string) : String.prefix s s = true.
Proof.
  induction s as [|c s IH]; [reflexivity|]. simpl.
  destruct (ascii_dec c c); [exact IH | congruence].
Qed.

Lemma includes_refl (s : string) : includes s s = true.
Proof. destruct s; cbn [includes]; now rewrite prefix_refl. Qed.

Lemma is_digit_lower (c : ascii) : is_digit (lower_ascii c) = is_digit c.
Proof. destruct c as [[] [] [] [] [] [] [] []]; reflexivity. Qed.

Lemma lower_digit (c : ascii) : is_digit c = true -> lower_ascii c = c.
Proof. destruct c as [[] [] [] [] [] [] [] []]; (reflexivity || discriminate). Qed.

Lemma take_digits_lower (a b : string) :
  toLowerCase a = toLowerCase b -> take_digits a = take_digits b.
Proof.
  revert b. induction a as [|c a IH]; intros [|d b] H; try discriminate; [reflexivity|].
  simpl in H. injection H as Hc Hs. simpl.
  pose proof (is_digit_lower c) as Ec. pose proof (is_digit_lower d) as Ed.
  rewrite Hc in Ec. rewrite <- Ec, Ed.
  destruct (is_digit d) eqn:E; [|reflexivity].
  rewrite (IH _ Hs). f_equal.
  rewrite <- (lower_digit c), <- (lower_digit d); [exact Hc | exact E | congruence].
Qed.

Lemma match_digits_lower (a b : string) :
  toLowerCase a = toLowerCase b -> match_digits a = match_digits b.
Proof.
  revert b. induction a as [|c a IH]; intros [|d b] H; try discriminate; [reflexivity|].
  pose proof (take_digits_lower _ _ H) as Ht.
  simpl in H. injection H as Hc Hs.
  cbn [match_digits].
  pose proof (is_digit_lower c) as Ec. pose proof (is_digit_lower d) as Ed.
  rewrite Hc in Ec. rewrite <- Ec, Ed.
  destruct (is_digit d); [now rewrite Ht | now apply IH].
Qed.

Lemma toLowerCase_nonempty (a b : string) :
  toLowerCase a = toLowerCase b -> b <> EmptyString -> truthy_str (Some a) = Some a.
Proof.
  intros H Hb. destruct a as [|c a]; [|reflexivity].
  destruct b; [congruence | discriminate].
Qed.

(** X6. Terms that repeat the requirement score in full. When the
    proposal's payment terms and the required ones are the same text up to
    letter case (and not empty), the payment terms score is 100 and the
    terms match; the same holds for the warranty. *)
Theorem same_terms_score_100 (proposalTerms requiredTerms : string) :
  requiredTerms <> EmptyString ->
  toLowerCase proposalTerms = toLowerCase requiredTerms ->
  evaluatePaymentTerms (Some proposalTerms) (Some requiredTerms)
    = {| paymentTerms_score := 100; matches := true |}
  /\ evaluateWarranty (Some proposalTerms) (Some requiredTerms)
    = {| warranty_score := 100; meetsRequirement := true |}.
Proof.
  intros Hr H.
  assert (Tp := toLowerCase_nonempty _ _ H Hr).
  assert (Tr := toLowerCase_nonempty requiredTerms requiredTerms eq_refl Hr).
  split.
  - unfold evaluatePaymentTerms. rewrite Tp, Tr. cbv zeta. rewrite H.
    set (K := List.filter _ paymentKeywords).
    destruct K as [|k K]; simpl.
    + now rewrite includes_refl.
    + now rewrite String.eqb_refl.
  - unfold evaluateWarranty. rewrite Tp, Tr. rewrite (match_digits_lower _ _ H).
    destruct (match_digits requiredTerms); cbv zeta.
    + now rewrite Z.leb_refl.
    + rewrite H. now rewrite includes_refl.
Qed.

Lemma same_terms_score_100_witness :
  paymentTerms_score (evaluatePaymentTerms (Some "NET 30") (Some "Net 30")) = 100%Z
  /\ warranty_score (evaluateWarranty (Some "NET 30") (Some "Net 30")) = 100%Z.
Proof.
  assert (H : evaluatePaymentTerms (Some "NET 30") (Some "Net 30")
              = {| paymentTerms_score := 100; matches := true |}
              /\ evaluateWarranty (Some "NET 30") (Some "Net 30")
              = {| warranty_score := 100; meetsRequirement := true |}).
  { apply (same_terms_score_100 "NET 30" "Net 30"); [discriminate | reflexivity]. }
  destruct H as [-> ->]. split; reflexivity.
Defined.

(** ** Full marks on the counted criteria *)

Lemma Math_round_below (x : Q) (n : Z) : x + (1 # 2) < inject_Z n -> (Math_round x < n)%Z.
Proof.
  intros H. unfold Math_round. rewrite Zlt_Qlt.
  eapply Qle_lt_trans; [apply Qfloor_le | exact H].
Qed.

Lemma ratio_full_score (m t : nat) :
  (m <= t)%nat -> (0 < t < 200)%nat ->
  Math_round (mul64 (div64 (Q_of_nat m) (Q_of_nat t)) 100) = 100%Z <-> m = t.
Proof.
  intros Hmt [Ht0 Ht].
  assert (Hb : 0 < Q_of_nat t).
  { unfold Q_of_nat. rewrite <- (Zlt_Qlt 0). lia. }
  split.
  - intros H. destruct (Nat.eq_dec m t) as [E|N]; [exact E | exfalso].
    assert (Hm : Q_of_nat m <= Q_of_nat t - 1).
    { unfold Q_of_nat.
      assert (H1 : inject_Z (Z.of_nat m + 1) <= inject_Z (Z.of_nat t))
        by (rewrite <- Zle_Qle; lia).
      rewrite inject_Z_plus in H1. change (inject_Z 1) with 1 in H1. lra. }
    assert (Ht' : Q_of_nat t <= 199).
    { unfold Q_of_nat. change 199 with (inject_Z 199). rewrite <- Zle_Qle. lia. }
    assert (Hq : Q_of_nat m / Q_of_nat t <= 198 # 199).
    { apply Qle_shift_div_r; [exact Hb | lra]. }
    assert (Hd : div64 (Q_of_nat m) (Q_of_nat t) <= double (198 # 199))
      by now apply double_mono.
    assert (Hp : mul64 (div64 (Q_of_nat m) (Q_of_nat t)) 100
                 <= mul64 (double (198 # 199)) 100)
      by (apply double_mono; lra).
    assert (Hc : mul64 (double (198 # 199)) 100 + (1 # 2) < 100)
      by (vm_compute; reflexivity).
    assert (Hlt : (Math_round (mul64 (div64 (Q_of_nat m) (Q_of_nat t)) 100) < 100)%Z).
    { apply Math_round_below. change (inject_Z 100) with 100. lra. }
    lia.
  - intros ->. apply Math_round_eq. change (inject_Z 100) with 100.
    assert (E1 : div64 (Q_of_nat t) (Q_of_nat t) == 1).
    { unfold div64. rewrite (double_comp _ 1) by (field; lra). vm_compute. reflexivity. }
    unfold mul64. rewrite (double_comp _ 100) by (rewrite E1; reflexivity).
    vm_compute. reflexivity.
Qed.

Lemma filter_partition_length {A} (f : A -> bool) (l : list A) :
  (List.length (List.filter f l) + List.length (List.filter (fun x => negb (f x)) l)
   = List.length l)%nat.
Proof.
  induction l as [|x l IH]; [reflexivity|]. simpl.
  destruct (f x); simpl; lia.
Qed.

Lemma filter_all_length {A} (f : A -> bool) (l : list A) :
  List.length (List.filter f l) = List.length l
  <-> List.filter (fun x => negb (f x)) l = [].
Proof.
  pose proof (filter_partition_length f l) as H. split; intros E.
  - apply length_zero_iff_nil. lia.
  - rewrite E in H. simpl in H. lia.
Qed.

Lemma matchItem_itemName ips text (rfpItem : RequirementItem) :
  itemName (snd (matchItem ips text rfpItem)) = name rfpItem.
Proof.
  unfold matchItem. cbv zeta.
  destruct (matchingProposalItem ips (toLowerCase (name rfpItem))); reflexivity.
Qed.

(** X7. The item matcher counts every required item once: [itemsTotal]
    is the number of required items, [itemsMatched] never exceeds it, and
    the breakdown lists the required items by name in their order. With
    fewer than 200 required items the requirements score is 100 exactly
    when every required item is matched. *)
Theorem matchItems_counts (rfpItems : list RequirementItem)
    (proposalItemPrices : option (list ItemPrice)) (proposalNotes rawEmail : option string) :
  (List.length rfpItems < 200)%nat ->
  let r := matchItems rfpItems proposalItemPrices proposalNotes rawEmail in
  itemsTotal r = List.length rfpItems
  /\ (itemsMatched r <= itemsTotal r)%nat
  /\ map itemName (itemBreakdown r) = map name rfpItems
  /\ (requirements_score r = 100%Z <-> itemsMatched r = itemsTotal r).
Proof.
  intros Hlen. cbv zeta. unfold matchItems.
  destruct rfpItems as [|it its] eqn:Eits; [simpl; repeat split; lia|].
  rewrite <- Eits in *. cbv zeta.
  cbn [itemsTotal itemsMatched itemBreakdown requirements_score].
  assert (Hle : (List.length (List.filter fst
      (map (matchItem proposalItemPrices
              (proposalText_of proposalItemPrices proposalNotes rawEmail)) rfpItems))
      <= List.length rfpItems)%nat).
  { etransitivity; [apply filter_length_le|]. now rewrite length_map. }
  split; [reflexivity|]. split; [exact Hle|]. split.
  - clear Hlen Hle Eits.
    induction rfpItems as [|a l IH]; [reflexivity|].
    cbn [map]. now rewrite IH, matchItem_itemName.
  - apply ratio_full_score; [exact Hle|]. split; [rewrite Eits; simpl; lia | exact Hlen].
Qed.

Lemma matchItems_counts_witness :
  let r := matchItems [laptop20] None (Some notes_only_reply) None in
  itemsMatched r = itemsTotal r /\ requirements_score r = 100%Z.
Proof.
  cbv zeta. split; [reflexivity|].
  apply (matchItems_counts [laptop20] None (Some notes_only_reply) None); [simpl; lia|].
  reflexivity.
Defined.

(** X8. The other requirements are split into the addressed and the
    missing ones: the number of matches and the number of missing
    requirements add up to the total. With fewer than 200 requirements the
    score is 100 exactly when none is missing. *)
Theorem otherRequirements_counts (proposalNotes rawEmail : option string)
    (otherRequirements : option (list string)) :
  (List.length (default [] otherRequirements) < 200)%nat ->
  let r := evaluateOtherRequirements proposalNotes rawEmail otherRequirements in
  (or_matches r + List.length (missing r) = or_total r)%nat
  /\ (otherRequirements_score r = 100%Z <-> missing r = []).
Proof.
  intros Hlen. cbv zeta. unfold evaluateOtherRequirements.
  destruct otherRequirements as [[|r rs]|]; try (simpl; repeat split; reflexivity).
  set (reqs := r :: rs) in *. cbv zeta.
  cbn [or_matches or_total missing otherRequirements_score].
  split; [apply filter_partition_length|].
  rewrite ratio_full_score; [apply filter_all_length | apply filter_length_le |].
  split; [simpl; lia | exact Hlen].
Qed.

Lemma otherRequirements_counts_witness :
  let r := evaluateOtherRequirements (Some "Includes onsite installation") None
             (Some ["Onsite installation"; "ISO 9001 certification"]%string) in
  (or_matches r + List.length (missing r) = or_total r)%nat
  /\ missing r = ["ISO 9001 certification"]%string.
Proof.
  cbv zeta. split; [|reflexivity].
  apply (otherRequirements_counts (Some "Includes onsite installation") None
           (Some ["Onsite installation"; "ISO 9001 certification"]%string)).
  simpl. lia.
Defined.

(** ** [generateFeedback] *)

(** One criterion's contribution: at most one strength or weakness, and a
    concern only together with a weakness. *)
Lemma feedback_block_sizes (f : Feedback) :
  f = no_feedback
  \/ (exists s, f = {| strengths := [s]; weaknesses := []; concerns := [] |})
  \/ (exists w, f = {| strengths := []; weaknesses := [w]; concerns := [] |})
  \/ (exists w c, f = {| strengths := []; weaknesses := [w]; concerns := [c] |}) ->
  (List.length (strengths f) + List.length (weaknesses f) <= 1)%nat
  /\ (List.length (concerns f) <= List.length (weaknesses f))%nat.
Proof.
  intros [-> | [[s ->] | [[w ->] | (w & c & ->)]]]; simpl; lia.
Qed.

Ltac feedback_block :=
  repeat match goal with
  | |- context [if ?c then _ else _] => destruct c
  | |- context [match ?c with Some _ => _ | None => _ end] => destruct c
  end; eauto 6.

Lemma priceFeedback_sizes p :
  (List.length (strengths (priceFeedback p)) + List.length (weaknesses (priceFeedback p)) <= 1)%nat
  /\ (List.length (concerns (priceFeedback p)) <= List.length (weaknesses (priceFeedback p)))%nat.
Proof. apply feedback_block_sizes. unfold priceFeedback. feedback_block. Qed.

Lemma deliveryFeedback_sizes d :
  (List.length (strengths (deliveryFeedback d))
   + List.length (weaknesses (deliveryFeedback d)) <= 1)%nat
  /\ (List.length (concerns (deliveryFeedback d))
      <= List.length (weaknesses (deliveryFeedback d)))%nat.
Proof. apply feedback_block_sizes. unfold deliveryFeedback. feedback_block. Qed.

Lemma requirementsFeedback_sizes r :
  (List.length (strengths (requirementsFeedback r))
   + List.length (weaknesses (requirementsFeedback r)) <= 1)%nat
  /\ (List.length (concerns (requirementsFeedback r))
      <= List.length (weaknesses (requirementsFeedback r)))%nat.
Proof. apply feedback_block_sizes. unfold requirementsFeedback. cbv zeta. feedback_block. Qed.

Lemma paymentTermsFeedback_sizes p :
  (List.length (strengths (paymentTermsFeedback p))
   + List.length (weaknesses (paymentTermsFeedback p)) <= 1)%nat
  /\ (List.length (concerns (paymentTermsFeedback p))
      <= List.length (weaknesses (paymentTermsFeedback p)))%nat.
Proof. apply feedback_block_sizes. unfold paymentTermsFeedback. feedback_block. Qed.

Lemma warrantyFeedback_sizes w :
  (List.length (strengths (warrantyFeedback w))
   + List.length (weaknesses (warrantyFeedback w)) <= 1)%nat
  /\ (List.length (concerns (warrantyFeedback w))
      <= List.length (weaknesses (warrantyFeedback w)))%nat.
Proof. apply feedback_block_sizes. unfold warrantyFeedback. feedback_block. Qed.

Lemma completenessFeedback_sizes c :
  (List.length (strengths (completenessFeedback c))
   + List.length (weaknesses (completenessFeedback c)) <= 1)%nat
  /\ (List.length (concerns (completenessFeedback c))
      <= List.length (weaknesses (completenessFeedback c)))%nat.
Proof. apply feedback_block_sizes. unfold completenessFeedback. feedback_block. Qed.

Lemma otherRequirementsFeedback_sizes o :
  strengths (otherRequirementsFeedback o) = []
  /\ (List.length (weaknesses (otherRequirementsFeedback o)) <= 1)%nat
  /\ concerns (otherRequirementsFeedback o) = [].
Proof.
  unfold otherRequirementsFeedback. destruct (0 <? _)%nat; simpl; repeat split; lia.
Qed.

(** X9. The feedback lists of every evaluation: a criterion is never
    both a strength and a weakness, so the strengths and the weaknesses
    together are at most seven and the strengths at most six (the other
    requirements are never a strength), and every concern comes with a
    weakness of its criterion, so there are never more concerns than
    weaknesses. *)
Theorem generateFeedback_sizes (evaluation : ProposalEvaluation) :
  let f := generateFeedback evaluation in
  (List.length (strengths f) + List.length (weaknesses f) <= 7)%nat
  /\ (List.length (strengths f) <= 6)%nat
  /\ (List.length (concerns f) <= List.length (weaknesses f))%nat.
Proof.
  cbv zeta. unfold generateFeedback. cbv zeta. unfold feedback_app.
  cbn [strengths weaknesses concerns]. rewrite !length_app.
  pose proof (priceFeedback_sizes (c_price (criteria evaluation))).
  pose proof (deliveryFeedback_sizes (c_delivery (criteria evaluation))).
  pose proof (requirementsFeedback_sizes (c_requirements (criteria evaluation))).
  pose proof (paymentTermsFeedback_sizes (c_paymentTerms (criteria evaluation))).
  pose proof (warrantyFeedback_sizes (c_warranty (criteria evaluation))).
  pose proof (completenessFeedback_sizes (c_completeness (criteria evaluation))).
  destruct (otherRequirementsFeedback_sizes (c_otherRequirements (criteria evaluation)))
    as (-> & ? & ->).
  simpl. lia.
Qed.

Lemma generateFeedback_concerns (evaluation : ProposalEvaluation) :
  concerns (generateFeedback evaluation)
  = concerns (priceFeedback (c_price (criteria evaluation)))
    ++ concerns (deliveryFeedback (c_delivery (criteria evaluation)))
    ++ concerns (requirementsFeedback (c_requirements (criteria evaluation)))
    ++ concerns (completenessFeedback (c_completeness (criteria evaluation))).
Proof.
  unfold generateFeedback. cbv zeta. unfold feedback_app. cbn [concerns].
  destruct (otherRequirementsFeedback_sizes (c_otherRequirements (criteria evaluation)))
    as (_ & _ & ->).
  assert (Hp : concerns (paymentTermsFeedback (c_paymentTerms (criteria evaluation))) = []).
  { unfold paymentTermsFeedback. feedback_block. }
  assert (Hw : concerns (warrantyFeedback (c_warranty (criteria evaluation))) = []).
  { unfold warrantyFeedback. feedback_block. }
  rewrite Hp, Hw. now rewrite app_nil_r.
Qed.

Lemma priceFeedback_concern p x :
  In x (concerns (priceFeedback p)) -> x = "Price deviation may be a concern"%string.
Proof.
  unfold priceFeedback.
  repeat match goal with |- context [if ?c then _ else _] => destruct c end;
    simpl; intuition.
Qed.

Lemma deliveryFeedback_concern d x :
  In x (concerns (deliveryFeedback d)) -> x = "Significant delivery delay"%string.
Proof.
  unfold deliveryFeedback.
  repeat match goal with
         | |- context [if ?c then _ else _] => destruct c
         | |- context [match ?c with Some _ => _ | None => _ end] => destruct c
         end; simpl; intuition.
Qed.

Lemma requirementsFeedback_concern r x :
  In x (concerns (requirementsFeedback r)) ->
  x = "Missing required items may disqualify this proposal"%string.
Proof.
  unfold requirementsFeedback. cbv zeta.
  repeat match goal with |- context [if ?c then _ else _] => destruct c end;
    simpl; intuition.
Qed.

Lemma completenessFeedback_concern c x :
  In x (concerns (completenessFeedback c)) ->
  x = "Incomplete proposal may require clarification"%string.
Proof.
  unfold completenessFeedback.
  repeat match goal with |- context [if ?c then _ else _] => destruct c end;
    simpl; intuition.
Qed.

(** X10. A proposal without a total price is reported as under budget.
    Whatever the budget, its first weakness is `Price significantly under
    budget' (the deviation of a missing price is 0, which is not over),
    and the price concern is never raised for it. *)
Theorem missing_price_feedback (proposal : Proposal) (rfp : Rfp) :
  truthy_num (resolved_totalPrice proposal) = None ->
  let f := generateFeedback (evaluateProposal proposal rfp) in
  (exists rest, weaknesses f = "Price significantly under budget"%string :: rest)
  /\ ~ In "Price deviation may be a concern"%string (concerns f).
Proof.
  intros H. cbv zeta.
  assert (Hp : c_price (criteria (evaluateProposal proposal rfp))
               = {| price_score := 0; matchesBudget := false; deviation := 0 |}).
  { unfold evaluateProposal, evaluateCriteria. cbn [criteria c_price].
    now apply evaluatePrice_missing. }
  split.
  - unfold generateFeedback. cbv zeta. rewrite Hp.
    unfold feedback_app. cbn [weaknesses]. eexists. reflexivity.
  - rewrite generateFeedback_concerns, Hp. rewrite !in_app_iff.
    intros [[]|[Hx|[Hx|Hx]]].
    + apply deliveryFeedback_concern in Hx. discriminate.
    + apply requirementsFeedback_concern in Hx. discriminate.
    + apply completenessFeedback_concern in Hx. discriminate.
Qed.

Lemma missing_price_feedback_witness :
  let unpriced := {| p_totalPrice := None; p_deliveryDays := Some (inject_Z 30);
                     p_paymentTerms := None; p_warranty := None; p_notes := None;
                     p_completeness := None; p_rawEmail := None; p_parsedData := None |} in
  hd_error (weaknesses (generateFeedback (evaluateProposal unpriced rfpA)))
  = Some "Price significantly under budget"%string.
Proof.
  cbv zeta.
  match goal with |- hd_error (weaknesses (generateFeedback (evaluateProposal ?p ?r))) = _ =>
    destruct (missing_price_feedback p r eq_refl) as [[rest ->] _] end.
  reflexivity.
Defined.

Lemma truthy_num_idemp (x : option Q) : truthy_num (truthy_num x) = truthy_num x.
Proof.
  destruct x as [q|]; [|reflexivity]. simpl.
  destruct (Qeq_bool q 0) eqn:E; [reflexivity|]. simpl. now rewrite E.
Qed.

(** X11. The concern `Significant delivery delay' is raised exactly for
    a proposal that states delivery days, against an RFP that requires a
    delivery time, and is more than 14 days late. *)
Theorem delivery_delay_concern_iff (proposal : Proposal) (rfp : Rfp) :
  In "Significant delivery delay"%string
     (concerns (generateFeedback (evaluateProposal proposal rfp)))
  <-> exists p r, truthy_num (resolved_deliveryDays proposal) = Some p
                  /\ truthy_num (deliveryDays (requirements rfp)) = Some r
                  /\ 14 < p - r.
Proof.
  rewrite generateFeedback_concerns, !in_app_iff.
  assert (Hd : In "Significant delivery delay"%string
                 (concerns (deliveryFeedback (c_delivery (criteria (evaluateProposal proposal rfp)))))
               <-> exists p r, truthy_num (resolved_deliveryDays proposal) = Some p
                  /\ truthy_num (deliveryDays (requirements rfp)) = Some r
                  /\ 14 < p - r).
  { unfold evaluateProposal, evaluateCriteria. cbn [criteria c_delivery].
    unfold evaluateDelivery. rewrite truthy_num_idemp.
    destruct (truthy_num (resolved_deliveryDays proposal)) as [p|].
    2:{ simpl. split; [tauto|]. intros (p & r & Hp & _). discriminate. }
    destruct (truthy_num (deliveryDays (requirements rfp))) as [r|].
    2:{ simpl. split; [tauto|]. intros (p' & r' & _ & Hr & _). discriminate. }
    cbv zeta. set (d := p - r).
    assert (Hiff : In "Significant delivery delay"%string
              (concerns (deliveryFeedback
                 {| delivery_score :=
                      Math_round (if Qle_bool d 0 then Qmax 90 (Qmin 100 (100 - Qabs d * 2))
                                  else if Qle_bool d 7 then 75
                                  else if Qle_bool d 14 then 60
                                  else if Qle_bool d 30 then 40
                                  else Qmax 0 (30 - d / 10));
                    meetsDeadline := Qle_bool d 0;
                    daysDifference := Some d |})) <-> 14 < d).
    { unfold deliveryFeedback. cbn [delivery_score daysDifference].
      destruct (Qle_bool d 0) eqn:E0.
      { apply Qle_bool_iff in E0.
        assert (H90 : (90 <= Math_round (Qmax 90 (Qmin 100 (100 - Qabs d * 2))))%Z).
        { rewrite <- (Math_round_Z 90) at 1. apply Math_round_mono. apply Q.le_max_l. }
        apply Z.leb_le in H90. rewrite H90. simpl. split; [tauto | lra]. }
      apply Qle_bool_false in E0.
      destruct (Qle_bool d 7) eqn:E7.
      { apply Qle_bool_iff in E7. simpl. split; [tauto | lra]. }
      apply Qle_bool_false in E7.
      destruct (Qle_bool d 14) eqn:E14.
      { apply Qle_bool_iff in E14. simpl. split; [tauto | lra]. }
      apply Qle_bool_false in E14.
      assert (Hlow : (Math_round (if Qle_bool d 30 then 40 else Qmax 0 (30 - d / 10)) < 60)%Z).
      { apply Math_round_below. change (inject_Z 60) with 60.
        split_tests; max_cases; try lra.
        unfold Qdiv in *. change (/ 10) with (1 # 10) in *. lra. }
      assert (H1 : (90 <=? Math_round (if Qle_bool d 30 then 40 else Qmax 0 (30 - d / 10)))%Z
                   = false) by (apply Z.leb_gt; lia).
      assert (H2 : (Math_round (if Qle_bool d 30 then 40 else Qmax 0 (30 - d / 10)) <? 60)%Z
                   = true) by (apply Z.ltb_lt; lia).
      rewrite H1, H2. cbn [concerns].
      rewrite truthy_num_nonzero by lra.
      rewrite (proj2 (Qlt_bool_iff 14 d) E14). simpl. tauto. }
    rewrite Hiff. split.
    - intros H. exists p, r. auto.
    - intros (p' & r' & [= <-] & [= <-] & H). exact H. }
  rewrite <- Hd. split; [|tauto].
  intros [Hx|[Hx|[Hx|Hx]]]; [| exact Hx | |].
  - apply priceFeedback_concern in Hx. discriminate.
  - apply requirementsFeedback_concern in Hx. discriminate.
  - apply completenessFeedback_concern in Hx. discriminate.
Qed.

(** ** [normalizeStateUpdate] *)

Lemma normalizeStateUpdate_cases parse (stateUpdate : value) :
  (normalizeStateUpdate parse stateUpdate = stateUpdate
   /\ (truthy stateUpdate && typeof_object stateUpdate = false
       \/ exists n, stateUpdate = VObj n
            /\ truthy (field n "rfpDraft") && typeof_object (field n "rfpDraft") = false))
  \/ (exists n, normalizeStateUpdate parse stateUpdate = VObj n
        /\ truthy (field n "rfpDraft") && typeof_object (field n "rfpDraft") = false
        /\ n = spread stateUpdate)
  \/ (exists n d, normalizeStateUpdate parse stateUpdate = VObj (<["rfpDraft" := VObj d]> n)
        /\ requirements_shape d).
Proof.
  unfold normalizeStateUpdate.
  destruct (truthy stateUpdate) eqn:Et; [|left; split; [reflexivity | now left]].
  destruct (typeof_object stateUpdate) eqn:Eo; [|left; split; [reflexivity | now left]].
  cbn [negb orb]. cbv zeta.
  destruct (truthy (field (spread stateUpdate) "rfpDraft")
            && typeof_object (field (spread stateUpdate) "rfpDraft")) eqn:Ed.
  2:{ right. left. eexists. split; [reflexivity|]. split; [exact Ed | reflexivity]. }
  right. right. eexists _, _. split; [reflexivity|].
  unfold requirements_shape.
  set (d := spread (field (spread stateUpdate) "rfpDraft")).
  destruct (field d "requirements") as [| | | |s|l m|m] eqn:Er;
    try (rewrite Er; exact I);
    try (unfold field; rewrite lookup_delete_eq; exact I).
  destruct (parse s) as [[| | | | | |]|]; cbn [typeof_object nullish negb andb];
    unfold field; rewrite ?lookup_delete_eq, ?lookup_insert_eq; exact I.
Qed.

(** X12. [normalizeStateUpdate] is idempotent, whatever [JSON.parse]
    does: normalizing a normalized state update changes nothing. *)
Theorem normalizeStateUpdate_idempotent (parse : string -> option value)
    (stateUpdate : value) :
  normalizeStateUpdate parse (normalizeStateUpdate parse stateUpdate)
  = normalizeStateUpdate parse stateUpdate.
Proof.
  destruct (normalizeStateUpdate_cases parse stateUpdate)
    as [[E _] | [(n & E & Hn & _) | (n & d & E & Hd)]]; rewrite E.
  - exact E.
  - unfold normalizeStateUpdate. cbn [truthy typeof_object negb orb spread]. cbv zeta.
    now rewrite Hn.
  - unfold normalizeStateUpdate. cbn [truthy typeof_object negb orb spread]. cbv zeta.
    assert (Hf : field (<["rfpDraft" := VObj d]> n) "rfpDraft" = VObj d)
      by (unfold field; now rewrite lookup_insert_eq).
    rewrite !Hf. cbn [truthy typeof_object andb spread].
    rewrite insert_insert_eq. unfold requirements_shape in Hd.
    destruct (field d "requirements"); try contradiction; reflexivity.
Qed.

Lemma ensureRequirements_shape (update : gmap string value) :
  requirements_shape update ->
  exists r, field (ensureRequirements update) "requirements" = r
            /\ match r with VArr _ _ | VObj _ => True | _ => False end.
Proof.
  unfold requirements_shape, ensureRequirements. intros H.
  destruct (field update "requirements") eqn:E; try contradiction; cbn [truthy].
  - eexists. split; [unfold field; rewrite lookup_insert_eq; reflexivity | exact I].
  - eexists. split; [exact E | exact I].
  - eexists. split; [exact E | exact I].
Qed.

Lemma setRequirement_shape (update : gmap string value) (k : string) (x : value) :
  match field update "requirements" with VArr _ _ | VObj _ => True | _ => False end ->
  exists update', setRequirement update k x = Some update' /\ requirements_shape update'.
Proof.
  unfold setRequirement, requirements_shape. intros H.
  destruct (field update "requirements") eqn:E; try contradiction; cbn [set_member mbind option_bind];
    eexists; (split; [reflexivity|]); unfold field; rewrite lookup_insert_eq; exact I.
Qed.

Lemma delete_shape (update : gmap string value) (k : string) :
  k <> "requirements"%string -> requirements_shape update ->
  requirements_shape (delete k update).
Proof.
  unfold requirements_shape, field. intros Hk H. now rewrite lookup_delete_ne.
Qed.

Lemma ensureRequirements_keeps_shape (update : gmap string value) :
  requirements_shape update -> requirements_shape (ensureRequirements update).
Proof.
  intros H. destruct (ensureRequirements_shape _ H) as (r & E & Hr).
  unfold requirements_shape. rewrite E. destruct r; try contradiction; exact I.
Qed.

Lemma moveItems_shape parse (update : gmap string value) :
  requirements_shape update ->
  exists update', moveItems parse update = Some update' /\ requirements_shape update'.
Proof.
  intros H. unfold moveItems.
  destruct (truthy (field update "items") && _); [|eauto].
  cbv zeta.
  destruct (ensureRequirements_shape _ H) as (r & E & Hr). rewrite <- E in Hr.
  destruct (field (ensureRequirements update) "items") eqn:Ei;
    try (cbn [mbind option_bind]; eexists; split; [reflexivity|];
         apply delete_shape; [discriminate | now apply ensureRequirements_keeps_shape]).
  - destruct (setRequirement_shape _ "items"
                (match parse s with
                 | Some parsed => parsed
                 | None => arr [VObj {["name" := VStr s]}]
                 end) Hr) as (u & -> & Hu).
    cbn [mbind option_bind]. eexists. split; [reflexivity|].
    apply delete_shape; [discriminate | exact Hu].
  - destruct (setRequirement_shape _ "items" (VArr elems props) Hr) as (u & -> & Hu).
    cbn [mbind option_bind]. eexists. split; [reflexivity|].
    apply delete_shape; [discriminate | exact Hu].
Qed.

Lemma moveDeliveryRequirements_shape (update : gmap string value) :
  requirements_shape update ->
  exists update', moveDeliveryRequirements update = Some update'
                  /\ requirements_shape update'.
Proof.
  intros H. unfold moveDeliveryRequirements.
  destruct (truthy (field update "deliveryRequirements") && _); [|eauto].
  cbv zeta.
  destruct (ensureRequirements_shape _ H) as (r & E & Hr). rewrite <- E in Hr.
  match goal with |- context [negb (isNaN ?d)] => destruct (negb (isNaN d)); set (dd := d) end.
  - destruct (setRequirement_shape _ "deliveryDays" dd Hr) as (u & -> & Hu).
    cbn [mbind option_bind]. eexists. split; [reflexivity|].
    apply delete_shape; [discriminate | exact Hu].
  - cbn [mbind option_bind]. eexists. split; [reflexivity|].
    apply delete_shape; [discriminate | now apply ensureRequirements_keeps_shape].
Qed.

(** X13. What [normalizeStateUpdate] guarantees about a draft fragment.
    When the normalized state update carries a draft object, the
    [requirements] of that draft are absent, an object or an array. So the
    salvage step of the chat, which deletes requirements that are not an
    object, finds nothing to delete, and the two moving steps of
    [normalizeRfpDraft] (top-level [items] and [deliveryRequirements] into
    [requirements]) do not throw on the draft. *)
Theorem normalized_fragment_is_safe (parse : string -> option value)
    (stateUpdate : value) (normalized rfpDraft : gmap string value) :
  normalizeStateUpdate parse stateUpdate = VObj normalized ->
  normalized !! "rfpDraft" = Some (VObj rfpDraft) ->
  requirements_shape rfpDraft
  /\ salvage_deletes (VObj normalized) = false
  /\ is_Some (moveSteps parse (spread (VObj rfpDraft))).
Proof.
  intros E Hd.
  assert (Hs : requirements_shape rfpDraft).
  { destruct (normalizeStateUpdate_cases parse stateUpdate)
      as [[E' H] | [(n & E' & Hn & _) | (n & d & E' & Hs)]]; rewrite E in E'.
    - destruct H as [H | (n & -> & H)].
      + rewrite <- E' in H. discriminate.
      + injection E' as <-. unfold field in H. rewrite Hd in H. discriminate.
    - injection E' as <-. unfold field in Hn. rewrite Hd in Hn. discriminate.
    - injection E' as ->. rewrite lookup_insert_eq in Hd. now injection Hd as <-. }
  split; [exact Hs|]. split.
  - assert (Hf : field normalized "rfpDraft" = VObj rfpDraft)
      by (unfold field; now rewrite Hd).
    unfold salvage_deletes. cbn [spread]. cbv zeta. rewrite !Hf.
    cbn [opt_chain nullish get]. unfold requirements_shape in Hs.
    destruct (field rfpDraft "requirements"); try contradiction; reflexivity.
  - unfold moveSteps. cbn [spread].
    destruct (moveItems_shape parse _ Hs) as (u1 & -> & H1). cbn [mbind option_bind].
    destruct (moveDeliveryRequirements_shape _ H1) as (u2 & -> & _). eauto.
Qed.

Lemma normalized_fragment_is_safe_witness :
  moveSteps no_json (spread (get stateUpdate_text_requirements "rfpDraft")) = None
  /\ exists rfpDraft,
       get (normalizeStateUpdate no_json stateUpdate_text_requirements) "rfpDraft"
       = VObj rfpDraft
       /\ is_Some (moveSteps no_json (spread (VObj rfpDraft))).
Proof.
  split; [vm_compute; reflexivity|].
  destruct (normalizeStateUpdate no_json stateUpdate_text_requirements)
    as [| | | | | |normalized] eqn:E; try (vm_compute in E; discriminate).
  destruct (normalized !! "rfpDraft") as [[| | | | | |rfpDraft]|] eqn:Ed;
    try (exfalso; revert Ed; injection E as <-; vm_compute; discriminate).
  exists rfpDraft. split; [cbn [get]; unfold field; now rewrite Ed|].
  exact (proj2 (proj2 (normalized_fragment_is_safe no_json _ _ _ E Ed))).
Defined.

(** ** [createRfpFromDraft] and [updateRfpFromDraft] *)

Lemma non_blank_Some (v : value) (s : string) :
  non_blank v = Some (Some s) -> v = VStr s /\ trim s <> EmptyString /\ s <> EmptyString.
Proof.
  unfold non_blank. destruct (truthy v) eqn:Et; [|discriminate].
  destruct v as [| | | |s'| |]; try discriminate.
  destruct (String.eqb_spec (trim s') ""); [discriminate|]. intros [= <-].
  split; [reflexivity|]. split; [assumption|]. intros ->. simpl in Et. discriminate.
Qed.

Lemma non_blank_None (v : value) :
  non_blank v = Some None ->
  truthy v = false \/ exists s, v = VStr s /\ s <> EmptyString /\ trim s = EmptyString.
Proof.
  unfold non_blank. destruct (truthy v) eqn:Et; [|now left].
  destruct v as [| | | |s'| |]; try discriminate.
  destruct (String.eqb_spec (trim s') ""); [|discriminate]. intros _. right.
  exists s'. split; [reflexivity|]. split; [|assumption]. intros ->. simpl in Et. discriminate.
Qed.

Lemma length_trim_start (s : string) : (String.length (trim_start s) <= String.length s)%nat.
Proof.
  induction s as [|c s IH]; simpl; [lia|]. destruct (is_space c); simpl; lia.
Qed.

Lemma length_string_of_list (l : list ascii) :
  String.length (string_of_list_ascii l) = List.length l.
Proof. induction l; simpl; congruence. Qed.

Lemma length_list_of_string (s : string) :
  List.length (list_ascii_of_string s) = String.length s.
Proof. induction s; simpl; congruence. Qed.

Lemma length_string_rev (s : string) : String.length (string_rev s) = String.length s.
Proof.
  unfold string_rev. now rewrite length_string_of_list, length_rev, length_list_of_string.
Qed.

Lemma length_trim (s : string) : (String.length (trim s) <= String.length s)%nat.
Proof.
  unfold trim. rewrite length_string_rev.
  etransitivity; [apply length_trim_start|]. rewrite length_string_rev.
  apply length_trim_start.
Qed.

Lemma length_substring_0 (n : nat) (s : string) : (String.length (substring 0 n s) <= n)%nat.
Proof.
  revert s. induction n as [|n IH]; intros [|c s]; simpl; try lia.
  specialize (IH s). lia.
Qed.

Lemma length_append (a b : string) :
  String.length (a ++ b)%string = (String.length a + String.length b)%nat.
Proof. induction a as [|c a IH]; simpl; [reflexivity | f_equal; exact IH]. Qed.

Lemma append_nonempty (a b : string) : b <> EmptyString -> (a ++ b)%string <> EmptyString.
Proof. destruct a; simpl; [tauto | discriminate]. Qed.

(** X14. The row that [createRfpFromDraft] inserts. Whenever a row is
    created, the draft's title is a string that is not blank, the stored
    description is a string that is not empty, a title other than the
    placeholder is stored as it is, and the stored title is never longer
    than the draft's title or 53 characters. The stored title is empty in
    exactly one case: the draft still has the placeholder title and its
    description is blank but not empty (the row then exists because of its
    items). *)
Theorem createRfpFromDraft_row (mergedRfpDraft : value) (row : NewRfp) :
  createRfpFromDraft mergedRfpDraft = Some (Some row) ->
  exists title,
    get mergedRfpDraft "title" = VStr title
    /\ trim title <> EmptyString
    /\ (title <> placeholderTitle -> n_title row = title)
    /\ (exists d, n_description row = VStr d /\ d <> EmptyString)
    /\ (String.length (n_title row) <= Nat.max (String.length title) 53)%nat
    /\ (n_title row = EmptyString
        <-> title = placeholderTitle
            /\ exists d, get mergedRfpDraft "description" = VStr d
                         /\ d <> EmptyString /\ trim d = EmptyString).
Proof.
  unfold createRfpFromDraft, get_member. destruct (nullish mergedRfpDraft); [discriminate|].
  cbn [mbind option_bind option_ret mret]. 
  destruct (non_blank (get mergedRfpDraft "title")) as [[title|]|] eqn:Et;
    cbn [mbind option_bind]; try discriminate.
  2:{ destruct (non_blank (get mergedRfpDraft "description")); discriminate. }
  destruct (non_blank_Some _ _ Et) as (Htitle & Htrim & Hne).
  destruct (non_blank (get mergedRfpDraft "description")) as [hd|] eqn:Ed;
    cbn [mbind option_bind]; try discriminate.
  cbv zeta. destruct (negb _ && negb _) eqn:Eg; [discriminate|].
  intros H. exists title. split; [exact Htitle|]. split; [exact Htrim|].
  destruct (String.eqb_spec title placeholderTitle) as [Ep|Ep]; cbn [andb] in H.
  - destruct (truthy (get mergedRfpDraft "description")) eqn:Etd.
    + destruct (get mergedRfpDraft "description") as [| | | |d| |] eqn:Eget; try discriminate.
      cbn [mbind option_bind] in H. injection H as <-. cbn [n_title n_description].
      assert (Hd : d <> EmptyString) by (intros ->; discriminate).
      split; [tauto|]. split; [exists d; split; [unfold or_else; now rewrite Etd | exact Hd]|].
      split.
      * destruct (50 <? String.length (trim d))%nat eqn:E50.
        -- rewrite length_append. pose proof (length_trim (substring 0 50 (trim d))).
           pose proof (length_substring_0 50 (trim d)). simpl String.length at 2. lia.
        -- apply Nat.ltb_ge in E50. lia.
      * destruct (50 <? String.length (trim d))%nat eqn:E50.
        -- split; [intros H; now apply append_nonempty in H|].
           intros (_ & d' & [= <-] & _ & Hb). rewrite Hb in E50. discriminate.
        -- split; [intros H; split; [exact Ep|]; now exists d|].
           now intros (_ & d' & [= <-] & _ & Hb).
    + cbn [mbind option_bind] in H. injection H as <-. cbn [n_title n_description].
      split; [tauto|].
      split; [exists title; split; [unfold or_else; now rewrite Etd | exact Hne]|].
      split; [lia|]. split; [intros H; contradiction|].
      intros (_ & d & Hd & Hdne & _). rewrite Hd in Etd. simpl in Etd.
      destruct (String.eqb_spec d ""); [contradiction | discriminate].
  - cbn [mbind option_bind] in H. injection H as <-. cbn [n_title n_description].
    split; [tauto|]. split.
    + unfold or_else. destruct (truthy (get mergedRfpDraft "description")) eqn:Etd.
      * destruct hd as [d|].
        -- destruct (non_blank_Some _ _ Ed) as (-> & _ & Hd). now exists d.
        -- destruct (non_blank_None _ Ed) as [Hf | (d & -> & Hd & _)]; [congruence|].
           now exists d.
      * now exists title.
    + split; [lia|]. split; [intros H; contradiction | tauto].
Qed.

Lemma createRfpFromDraft_row_witness :
  exists row, createRfpFromDraft draft_blank_description = Some (Some row)
              /\ n_title row = EmptyString
              /\ n_description row = VStr " ".
Proof.
  destruct (createRfpFromDraft draft_blank_description) as [[row|]|] eqn:E;
    try (vm_compute in E; discriminate).
  exists row. split; [reflexivity|].
  destruct (createRfpFromDraft_row _ _ E) as (title & Ht & _ & _ & _ & _ & Hempty).
  split.
  - apply Hempty. split.
    + vm_compute in Ht. now injection Ht as <-.
    + exists " "%string. split; [vm_compute; reflexivity|]. split; [discriminate | reflexivity].
  - revert E. vm_compute. now intros [= <-].
Defined.

Lemma trim_nonempty (s : string) : trim s <> EmptyString -> s <> EmptyString.
Proof. intros H ->. now apply H. Qed.

(** What a write of [updateRfpFromDraft] holds, column by column. *)
Lemma updateRfpFromDraft_inv (existingRfp : RfpRow) (mergedRfpDraft : value)
    (u : UpdateData) :
  updateRfpFromDraft (Some existingRfp) mergedRfpDraft = Some (Some u) ->
  let r := get mergedRfpDraft "requirements" in
  let b := get mergedRfpDraft "budget" in
  u_budget u = (if nullish b then None else Some b)
  /\ u_requirements u = (if hasRequirementsData r then Some (requirementsOf r) else None)
  /\ u_cacheCleared u
     = bool_decide (is_Some (u_requirements u)) || bool_decide (is_Some (u_budget u))
  /\ (forall t, u_title u = Some t ->
        t <> EmptyString
        /\ (rfp_title existingRfp <> placeholderTitle ->
            get mergedRfpDraft "title" = VStr t
            /\ t <> rfp_title existingRfp /\ t <> placeholderTitle))
  /\ (forall d, u_description u = Some d ->
        get mergedRfpDraft "description" = VStr d
        /\ trim d <> EmptyString /\ d <> rfp_description existingRfp).
Proof.
  unfold updateRfpFromDraft, get_member.
  destruct (nullish mergedRfpDraft); [discriminate|]. cbn [mbind option_bind]. cbv zeta.
  set (fromDescription := if String.eqb (rfp_title existingRfp) placeholderTitle
                          then non_blank (get mergedRfpDraft "description") else Some None).
  destruct fromDescription as [fd|] eqn:Efd; [|discriminate]. cbn [mbind option_bind].
  match goal with |- (?computed ≫= _) = _ -> _ =>
    destruct computed as [title|] eqn:Etitle; [|discriminate] end.
  cbn [mbind option_bind].
  destruct (non_blank (get mergedRfpDraft "description")) as [d|] eqn:Ed; [|discriminate].
  cbn [mbind option_bind].
  match goal with |- (if ?w then _ else _) = _ -> _ => destruct w; [|discriminate] end.
  intros [= <-]. cbn [u_budget u_requirements u_cacheCleared u_title u_description].
  split; [reflexivity|]. split; [reflexivity|]. split; [reflexivity|]. split.
  - intros t ->. destruct fd as [description|].
    + injection Etitle as Et. subst fromDescription.
      destruct (String.eqb_spec (rfp_title existingRfp) placeholderTitle) as [Ep|Ep];
        [|discriminate].
      injection Efd as ->.
      destruct (non_blank_Some _ _ Ed) as (_ & Htrim & _).
      split; [|intros H; contradiction].
      destruct (40 <? String.length description)%nat; subst t;
        [now apply append_nonempty | exact Htrim].
    + destruct (non_blank (get mergedRfpDraft "title")) as [[t'|]|] eqn:Et;
        cbn [mbind option_bind] in Etitle; try discriminate.
      destruct (non_blank_Some _ _ Et) as (Hget & _ & Hne).
      destruct (String.eqb_spec t' placeholderTitle); [discriminate|].
      destruct (String.eqb_spec t' (rfp_title existingRfp)); [discriminate|].
      injection Etitle as <-. auto.
  - intros d'. destruct d as [d|]; [|discriminate].
    destruct (non_blank_Some _ _ Ed) as (Hget & Htrim & _).
    destruct (String.eqb_spec d (rfp_description existingRfp)); [discriminate|].
    intros [= <-]. auto.
Qed.

(** X15. What [updateRfpFromDraft] writes. A title that it writes is
    never empty, and unless the row has the placeholder title, it is the
    draft's title and differs from the stored one; a description that it
    writes is the draft's, is not blank and differs from the stored one.
    The comparison cache is cleared exactly when the merged draft carries
    a budget or requirement data, whether or not they differ from what the
    row holds. *)
Theorem updateRfpFromDraft_writes (existingRfp : RfpRow) (mergedRfpDraft : value)
    (u : UpdateData) :
  updateRfpFromDraft (Some existingRfp) mergedRfpDraft = Some (Some u) ->
  (forall t, u_title u = Some t ->
     t <> EmptyString
     /\ (rfp_title existingRfp <> placeholderTitle ->
         get mergedRfpDraft "title" = VStr t
         /\ t <> rfp_title existingRfp /\ t <> placeholderTitle))
  /\ (forall d, u_description u = Some d ->
        get mergedRfpDraft "description" = VStr d
        /\ trim d <> EmptyString /\ d <> rfp_description existingRfp)
  /\ (u_cacheCleared u = true
      <-> nullish (get mergedRfpDraft "budget") = false
          \/ hasRequirementsData (get mergedRfpDraft "requirements") = true).
Proof.
  intros H. destruct (updateRfpFromDraft_inv _ _ _ H) as (Hb & Hr & Hc & Ht & Hd).
  split; [exact Ht|]. split; [exact Hd|].
  rewrite Hc, Hb, Hr.
  destruct (nullish (get mergedRfpDraft "budget")),
           (hasRequirementsData (get mergedRfpDraft "requirements")); cbn; intuition discriminate.
Qed.

Lemma updateRfpFromDraft_writes_witness :
  exists u,
    updateRfpFromDraft (Some {| rfp_title := "Office laptops"; rfp_description := "Laptops" |})
      draft_Laptop = Some (Some u)
    /\ u_title u = None /\ u_cacheCleared u = true.
Proof.
  destruct (updateRfpFromDraft (Some {| rfp_title := "Office laptops";
                                        rfp_description := "Laptops" |}) draft_Laptop)
    as [[u|]|] eqn:E; try (vm_compute in E; discriminate).
  exists u. split; [reflexivity|]. split.
  - revert E. vm_compute. now intros [= <-].
  - apply (updateRfpFromDraft_writes _ _ _ E). left. vm_compute. reflexivity.
Defined.

(** X16. A budget that the language model gives as text, end to end.
    When [processRfpDraft] updates the RFP of the conversation from a
    fragment whose budget is a non-empty string, the budget column
    receives the number that [parseFloat] reads at the start of the text
    (and the comparison cache is cleared), and is not written at all when
    the text does not start with a number: the RFP keeps its budget. *)
Theorem text_budget_reaches_rfp (parse : string -> option value)
    (agent_rfpId : option string) (agent_rfpDraft : value) (existingRfp : option RfpRow)
    (stateUpdate rfpDraft : value) (s : string) (rfpId : string) (u : UpdateData) :
  get_member stateUpdate "rfpDraft" = Some rfpDraft ->
  field (spread rfpDraft) "budget" = VStr s -> s <> EmptyString ->
  processRfpDraft parse agent_rfpId agent_rfpDraft existingRfp stateUpdate
  = Some (Updated rfpId (Some u)) ->
  match parseFloat s with
  | NaN => u_budget u = None
  | n => u_budget u = Some (VNum n) /\ u_cacheCleared u = true
  end.
Proof.
  intros Hget Hb Hs. unfold processRfpDraft. rewrite Hget. cbn [mbind option_bind].
  destruct (truthy rfpDraft) eqn:Ht; [|discriminate]. cbn [negb]. cbv zeta.
  destruct (normalizeRfpDraft parse _ rfpDraft) as [merged|] eqn:En; [|discriminate].
  cbn [mbind option_bind].
  destruct (normalizeRfpDraft_canonical _ _ _ _ Ht En) as (m & -> & _).
  pose proof (normalizeRfpDraft_budget _ _ _ _ Ht En) as Hm.
  destruct (truthy_str agent_rfpId) as [id|].
  2:{ destruct (createRfpFromDraft (VObj m)) as [[?|]|]; discriminate. }
  destruct existingRfp as [row|]; [|discriminate].
  destruct (updateRfpFromDraft (Some row) (VObj m)) as [[u'|]|] eqn:Eu; try discriminate.
  cbn [mbind option_bind]. intros [= _ <-].
  destruct (updateRfpFromDraft_inv _ _ _ Eu) as (Hub & Hur & Hc & _).
  cbn [get] in Hub. unfold field at 1 2 in Hub.
  unfold normalizeBudget in Hm. rewrite Hb in Hm.
  destruct (String.eqb_spec s ""); [contradiction|].
  rewrite lookup_insert_eq in Hm. rewrite Hm in Hub. cbn [default] in Hub.
  rewrite Hc, Hub.
  destruct (parseFloat s) eqn:Ep; cbn [isNaN ToNumber nullish]; split; try reflexivity.
  - now rewrite orb_true_r.
  - now rewrite orb_true_r.
Qed.

Lemma text_budget_reaches_rfp_witness :
  exists u,
    processRfpDraft no_json (Some "rfp-1"%string) draft_Laptop
      (Some {| rfp_title := "Office laptops"; rfp_description := "Laptops" |})
      (obj [("rfpDraft", fragment_bad_budget)])
    = Some (Updated "rfp-1" (Some u))
    /\ u_budget u = None.
Proof.
  set (stateUpdate := obj [("rfpDraft", fragment_bad_budget)]).
  set (row := {| rfp_title := "Office laptops"; rfp_description := "Laptops" |}).
  destruct (processRfpDraft no_json (Some "rfp-1"%string) draft_Laptop (Some row) stateUpdate)
    as [[?|rfpId [u|]|?|]|] eqn:E; try (vm_compute in E; discriminate).
  assert (Hid : rfpId = "rfp-1"%string) by (revert E; vm_compute; now intros [= <- _]).
  subst rfpId. exists u. split; [reflexivity|].
  exact (text_budget_reaches_rfp no_json _ _ _ stateUpdate fragment_bad_budget
           "about five thousand" _ u eq_refl eq_refl ltac:(discriminate) E).
Defined.

(** ** The comparison route *)

Local Open Scope Z_scope.

Lemma evaluateProposals_length (proposals : list Proposal) (rfp : Rfp) :
  List.length (evaluateProposals proposals rfp) = List.length proposals.
Proof.
  unfold evaluateProposals. cbv zeta.
  rewrite (Permutation_length (sort_by_score_perm _)). apply length_map.
Qed.

Lemma cacheIsValid_fresh (comparison : ComparisonResult) (cacheUpdate : Z)
    (proposals : list ProposalRow) :
  List.length (default [] (evaluations comparison)) = List.length proposals ->
  (forall p, In p proposals -> not_after (updatedAt p) cacheUpdate) ->
  cacheIsValid comparison cacheUpdate proposals = true.
Proof.
  intros Hlen Hall. unfold cacheIsValid. apply andb_true_iff. split.
  - apply Nat.eqb_eq. destruct (evaluations comparison); exact Hlen.
  - assert (H : not_after (lastProposalUpdate proposals) cacheUpdate).
    { apply (lastProposalUpdate_fold cacheUpdate proposals None). split; [exact I|].
      intros p Hp u Hu. specialize (Hall p Hp). now rewrite Hu in Hall. }
    destruct (lastProposalUpdate proposals); simpl in H; [now apply Z.leb_le | reflexivity].
Qed.

(** X17. The [cached] flag of the response does not tell whether the
    comparison came from the cache. Whenever the route answers, it has
    generated and saved a comparison exactly when it did not use the
    cache, and it answers [cached: true] next to a comparison that it has
    just generated exactly when a cache was present, no refresh was
    requested, and the cache was not valid for the current proposals. *)
Theorem stale_cache_answers_cached (refresh : option string) (rfp : Rfp)
    (comparisonCache : option ComparisonResult) (comparisonCacheUpdatedAt : option Z)
    (proposals : list StoredProposal) (model_answers : bool) (now : Z)
    (comparison : ComparisonResult) (cached : bool)
    (saved : option (ComparisonResult * Z)) :
  compareRoute refresh rfp comparisonCache comparisonCacheUpdatedAt proposals
    model_answers now = Answer comparison cached saved ->
  (saved = None
   <-> usesCache (bool_decide (is_Some (truthy_str refresh))) comparisonCache
         comparisonCacheUpdatedAt (map sp_row proposals) = true)
  /\ (cached = true /\ saved = Some (comparison, now)
      <-> truthy_str refresh = None
          /\ exists cache cacheUpdate,
               comparisonCache = Some cache /\ comparisonCacheUpdatedAt = Some cacheUpdate
               /\ cacheIsValid cache cacheUpdate (map sp_row proposals) = false).
Proof.
  unfold compareRoute. destruct (List.length proposals =? 0)%nat; [discriminate|].
  cbv zeta. unfold compareProposals. cbv zeta.
  destruct (truthy_str refresh) as [r|] eqn:Er.
  - (* a refresh is requested *)
    rewrite (bool_decide_eq_true_2 (is_Some (Some r))) by eauto.
    assert (Hu : usesCache true comparisonCache comparisonCacheUpdatedAt
                   (map sp_row proposals) = false)
      by (destruct comparisonCache, comparisonCacheUpdatedAt; reflexivity).
    rewrite Hu. destruct model_answers; [|discriminate]. intros [= <- <- <-].
    split; [split; discriminate|]. split; [intros [H _]; discriminate H|].
    intros [H _]. discriminate H.
  - rewrite (bool_decide_eq_false_2 (is_Some None)) by (intros [? ?]; discriminate).
    destruct comparisonCache as [cache|], comparisonCacheUpdatedAt as [cacheUpdate|];
      cbn [usesCache negb andb].
    + destruct (cacheIsValid cache cacheUpdate (map sp_row proposals)) eqn:Ev.
      * intros [= <- <- <-]. split; [tauto|]. split; [intros [_ H]; discriminate H|].
        intros (_ & c & u & [= <-] & [= <-] & H). congruence.
      * destruct model_answers; [|discriminate]. intros [= <- <- <-].
        split; [split; discriminate|]. split; [|intros _; split; reflexivity].
        intros _. split; [reflexivity|]. now exists cache, cacheUpdate.
    + destruct model_answers; [|discriminate]. intros [= <- <- <-].
      split; [split; discriminate|]. split; [intros [H _]; discriminate H|].
      intros (_ & c & u & _ & H & _). discriminate H.
    + destruct model_answers; [|discriminate]. intros [= <- <- <-].
      split; [split; discriminate|]. split; [intros [H _]; discriminate H|].
      intros (_ & c & u & H & _). discriminate H.
    + destruct model_answers; [|discriminate]. intros [= <- <- <-].
      split; [split; discriminate|]. split; [intros [H _]; discriminate H|].
      intros (_ & c & u & H & _). discriminate H.
Qed.

Lemma stale_cache_answers_cached_witness :
  let stored := [{| sp_data := proposalA; sp_row := {| updatedAt := Some 60 |} |}] in
  let stale := {| evaluations := Some [evaluateProposal proposalA rfpA] |} in
  exists generated,
    compareRoute None rfpA (Some stale) (Some 50) stored true 70
    = Answer generated true (Some (generated, 70))
    /\ cacheIsValid stale 50 (map sp_row stored) = false.
Proof.
  cbv zeta. eexists. split; [reflexivity|].
  pose proof (stale_cache_answers_cached None rfpA
                (Some {| evaluations := Some [evaluateProposal proposalA rfpA] |}) (Some 50)
                [{| sp_data := proposalA; sp_row := {| updatedAt := Some 60 |} |}] true 70
                _ true _ eq_refl) as [_ H].
  destruct (proj1 H (conj eq_refl eq_refl)) as (_ & c & u & [= <-] & [= <-] & Hv).
  exact Hv.
Defined.

(** X18. A comparison that the route has just generated and saved is
    served from the cache by the next request without a refresh, as long
    as the proposals are the same and none of them was updated after the
    save; any non-empty [refresh] value, the text [false] included, makes
    the route generate again. *)
Theorem saved_comparison_is_reused (refresh : option string) (rfp : Rfp)
    (comparisonCache : option ComparisonResult) (comparisonCacheUpdatedAt : option Z)
    (proposals : list StoredProposal) (now : Z)
    (comparison saved : ComparisonResult) (cached : bool) (savedAt : Z) :
  compareRoute refresh rfp comparisonCache comparisonCacheUpdatedAt proposals true now
  = Answer comparison cached (Some (saved, savedAt)) ->
  (forall p, In p proposals -> not_after (updatedAt (sp_row p)) savedAt) ->
  (forall later, compareRoute None rfp (Some saved) (Some savedAt) proposals true later
                 = Answer saved true None)
  /\ (forall later r, r <> EmptyString ->
        compareRoute (Some r) rfp (Some saved) (Some savedAt) proposals true later
        = Answer saved false (Some (saved, later))).
Proof.
  unfold compareRoute. destruct proposals as [|p ps]; [discriminate|].
  set (stored := p :: ps). cbn [List.length Nat.eqb]. cbv zeta.
  set (generated := {| evaluations := Some (evaluateProposals (map sp_data stored) rfp) |}).
  intros H Hall.
  assert (Hs : saved = generated).
  { destruct (usesCache _ comparisonCache comparisonCacheUpdatedAt (map sp_row stored)).
    - destruct comparisonCache; [discriminate|]. cbn in H. now injection H as _ _ <- _.
    - cbn in H. now injection H as _ _ <- _. }
  assert (Hv : cacheIsValid saved savedAt (map sp_row stored) = true).
  { apply cacheIsValid_fresh.
    - rewrite Hs. unfold generated. simpl.
      rewrite evaluateProposals_length. simpl. now rewrite !length_map.
    - intros q Hq. apply in_map_iff in Hq as (sp & <- & Hsp). now apply Hall. }
  split.
  - intros later. cbn [truthy_str usesCache]. now rewrite Hv.
  - intros later r Hr. cbn [truthy_str].
    destruct (String.eqb_spec r ""); [contradiction|].
    cbn. now rewrite Hs.
Qed.

Lemma saved_comparison_is_reused_witness :
  let stored := [{| sp_data := proposalA; sp_row := {| updatedAt := Some 60 |} |}] in
  let generated := {| evaluations := Some (evaluateProposals [proposalA] rfpA) |} in
  compareRoute None rfpA (Some generated) (Some 70) stored true 80
  = Answer generated true None.
Proof.
  cbv zeta.
  refine (proj1 (saved_comparison_is_reused None rfpA None None
                   [{| sp_data := proposalA; sp_row := {| updatedAt := Some 60 |} |}] 70
                   _ _ false 70 eq_refl _) 80).
  intros p [<-|[]]. simpl. lia.
Defined.

(** ** The in-memory cache *)

Lemma get_set_same {T : Type} (cache : CacheService.Cache T) (key : string)
    (data : T) (ttlMs stored now : Z) :
  let cache' := CacheService.set stored key data ttlMs cache in
  (now <= stored + ttlMs -> CacheService.get now key cache' = (Some data, cache'))
  /\ (stored + ttlMs < now ->
      CacheService.get now key cache' = (None, CacheService.delete key cache)).
Proof.
  cbv zeta. unfold CacheService.get, CacheService.set, CacheService.delete.
  rewrite lookup_insert_eq. cbn [CacheService.expiresAt CacheService.data].
  split.
  - intros H. now rewrite (proj2 (Z.ltb_ge _ _) H).
  - intros H. rewrite (proj2 (Z.ltb_lt _ _) H). now rewrite delete_insert_eq.
Qed.

(** X19. Reading what was stored. An entry stored at [stored] with a
    time to live is returned by [get] up to and including the instant
    [stored + ttlMs]; after it, [get] returns [null] and removes the entry.
    Storing under one key does not change what [get] returns for another. *)
Theorem cache_get_after_set {T : Type} (cache : CacheService.Cache T) (key : string)
    (data : T) (ttlMs stored now : Z) :
  let cache' := CacheService.set stored key data ttlMs cache in
  (now <= stored + ttlMs -> CacheService.get now key cache' = (Some data, cache'))
  /\ (stored + ttlMs < now ->
      CacheService.get now key cache' = (None, CacheService.delete key cache))
  /\ (forall other, other <> key ->
        (CacheService.get now other cache').1 = (CacheService.get now other cache).1).
Proof.
  cbv zeta. destruct (get_set_same cache key data ttlMs stored now) as [Hin Hout].
  split; [exact Hin|]. split; [exact Hout|].
  intros other Hne. unfold CacheService.get, CacheService.set.
  rewrite lookup_insert_ne by congruence.
  destruct (cache !! other) as [entry|]; [|reflexivity].
  destruct (CacheService.expiresAt entry <? now); reflexivity.
Qed.

(** X20. The periodic cleanup is not observable through [get]: once the
    expired entries have been cleared at [cleaned], a [get] at that time
    or later returns what it would have returned without the cleanup. *)
Theorem clearExpired_unobservable {T : Type} (cache : CacheService.Cache T) (key : string)
    (cleaned now : Z) :
  cleaned <= now ->
  (CacheService.get now key (CacheService.clearExpired cleaned cache)).1
  = (CacheService.get now key cache).1.
Proof.
  intros Hle. unfold CacheService.get, CacheService.clearExpired.
  destruct (cache !! key) as [entry|] eqn:E.
  - destruct (CacheService.expiresAt entry <? cleaned) eqn:Ec.
    + rewrite (proj2 (map_lookup_filter_None _ cache key)).
      * apply Z.ltb_lt in Ec. rewrite (proj2 (Z.ltb_lt _ _)) by lia. reflexivity.
      * right. intros x Hx. rewrite E in Hx. injection Hx as <-. cbn. now rewrite Ec.
    + rewrite (proj2 (map_lookup_filter_Some _ cache key entry)).
      * destruct (CacheService.expiresAt entry <? now); reflexivity.
      * split; [exact E|]. cbn. now rewrite Ec.
  - rewrite (proj2 (map_lookup_filter_None _ cache key)); [reflexivity|]. now left.
Qed.

Lemma clearExpired_unobservable_witness :
  let cache : CacheService.Cache string :=
    CacheService.set 0 "vendors:all" "v1" 600000
      (CacheService.set 0 "rfps:all" "r1" 300000 ∅) in
  (CacheService.get 400000 "vendors:all" (CacheService.clearExpired 350000 cache)).1
  = Some "v1"%string.
Proof.
  cbv zeta. rewrite clearExpired_unobservable by lia. reflexivity.
Defined.

(** ** [sanitizeString] *)

Lemma strip_tags_has_gt (in_tag : bool) (s : string) :
  has_gt s = false -> has_gt (strip_tags in_tag s) = false.
Proof.
  revert in_tag. induction s as [|c s IH]; intros in_tag H; [reflexivity|].
  simpl in H. apply orb_false_iff in H as [Hc Hs]. simpl.
  destruct in_tag; [now apply IH|].
  rewrite Hs, andb_false_r. simpl. rewrite Hc. now apply IH.
Qed.

Lemma strip_tags_has_tag (in_tag : bool) (s : string) :
  has_tag (strip_tags in_tag s) = false.
Proof.
  revert in_tag. induction s as [|c s IH]; intros in_tag; [reflexivity|]. simpl.
  destruct in_tag; [apply IH|].
  destruct (Ascii.eqb c "<" && has_gt s) eqn:E; [apply IH|].
  simpl. rewrite IH, orb_false_r.
  apply andb_false_iff in E as [E|E]; [now rewrite E|].
  rewrite (strip_tags_has_gt _ _ E). apply andb_false_r.
Qed.

Lemma strip_tags_id (s : string) : has_tag s = false -> strip_tags false s = s.
Proof.
  induction s as [|c s IH]; [reflexivity|]. simpl. intros H.
  apply orb_false_iff in H as [H1 H2]. rewrite H1. now rewrite IH.
Qed.

(** X21. What [sanitizeString] returns holds no tag: no [<] that a [>]
    follows. A text that holds no tag once trimmed is returned trimmed and
    otherwise unchanged, and only a missing or empty input gives
    [undefined]. *)
Theorem sanitizeString_no_tags (input : option string) :
  match sanitizeString input with
  | None => input = None \/ input = Some EmptyString
  | Some out =>
      has_tag out = false
      /\ exists s, input = Some s /\ (has_tag (trim s) = false -> out = trim s)
  end.
Proof.
  unfold sanitizeString. destruct input as [s|]; [|now left]. simpl.
  destruct (String.eqb_spec s ""); [right; congruence|].
  split; [apply strip_tags_has_tag|].
  exists s. split; [reflexivity|]. apply strip_tags_id.
Qed.

(** ** Sending in batches *)

Lemma batches_from_concat {V} (rounds i : nat) (vendors : list V) :
  (List.length vendors <= i + CONCURRENCY_LIMIT * rounds)%nat ->
  concat (batches_from rounds i vendors) = skipn i vendors.
Proof.
  revert i. induction rounds as [|rounds IH]; intros i H; simpl.
  - symmetry. apply skipn_all2. unfold CONCURRENCY_LIMIT in H. lia.
  - destruct (Nat.ltb_spec i (List.length vendors)) as [Hi|Hi].
    + cbn [concat]. rewrite IH by (unfold CONCURRENCY_LIMIT in *; lia).
      rewrite Nat.add_comm, <- skipn_skipn. apply firstn_skipn.
    + symmetry. now apply skipn_all2.
Qed.

Lemma batches_from_sizes {V} (rounds i : nat) (vendors : list V) :
  Forall (fun batch => (1 <= List.length batch <= CONCURRENCY_LIMIT)%nat)
         (batches_from rounds i vendors).
Proof.
  revert i. induction rounds as [|rounds IH]; intros i; simpl; [constructor|].
  destruct (Nat.ltb_spec i (List.length vendors)) as [Hi|Hi]; [|constructor].
  constructor; [|apply IH].
  rewrite length_firstn, length_skipn. unfold CONCURRENCY_LIMIT. lia.
Qed.

(** X22. Sending in batches loses and repeats nothing: the results of
    the route are the results of the vendors one by one, in the order of
    the vendor list, and every batch holds between one and five vendors. *)
Theorem send_results_in_order {V R : Type} (processVendorEmail : V -> R)
    (vendors : list V) :
  send_results processVendorEmail vendors = map processVendorEmail vendors
  /\ Forall (fun batch => (1 <= List.length batch <= CONCURRENCY_LIMIT)%nat)
            (batches_from (List.length vendors) 0 vendors).
Proof.
  split; [|apply batches_from_sizes].
  unfold send_results. rewrite <- concat_map.
  rewrite batches_from_concat by (unfold CONCURRENCY_LIMIT; lia). reflexivity.
Qed.

(** X23. A list read through the cache is as old as the query of the
    read that stored it. A read misses the cache at [first]; its query is
    awaited and its list is stored at [stored], whatever other requests did
    to the cache in between. On the cache as that read leaves it, every
    read up to and including [stored + ttlMs] returns the list of the first
    read, whatever the query would return by then; a read after that
    instant returns the list queried then. *)
Theorem cachedRead_within_ttl {T : Type} (cache : CacheService.Cache T) (key : string)
    (ttlMs first stored later stored_later : Z) (queried_first queried_later : T)
    (during during_later : CacheService.Cache T -> CacheService.Cache T) :
  (CacheService.get first key cache).1 = None ->
  let '(list_first, cache') :=
    cachedRead first key ttlMs queried_first during stored cache in
  list_first = queried_first
  /\ (later <= stored + ttlMs ->
      (cachedRead later key ttlMs queried_later during_later stored_later cache').1
      = queried_first)
  /\ (stored + ttlMs < later ->
      (cachedRead later key ttlMs queried_later during_later stored_later cache').1
      = queried_later).
Proof.
  intros Hmiss. unfold cachedRead at 1.
  destruct (CacheService.get first key cache) as [[l|] c] eqn:E; [discriminate|].
  split; [reflexivity|]. unfold cachedRead.
  destruct (get_set_same (during c) key queried_first ttlMs stored later) as (Hin & Hout).
  split; intros H; [rewrite (Hin H) | rewrite (Hout H)]; reflexivity.
Qed.

Lemma cachedRead_within_ttl_witness :
  let '(list_first, cache') :=
    cachedRead 0 "rfps:list:10" 300000 ["Office laptops"]%string
      (CacheService.set 40 "rfps:list:10" ["Chairs"]%string 300000) 50 ∅ in
  (cachedRead 300020 "rfps:list:10" 300000 ["Office laptops"; "Chairs"]%string
     (fun cache => cache) 300090 cache').1
  = ["Office laptops"]%string.
Proof.
  pose proof (cachedRead_within_ttl (∅ : CacheService.Cache (list string)) "rfps:list:10"
                300000 0 50 300020 300090 ["Office laptops"]%string
                ["Office laptops"; "Chairs"]%string
                (CacheService.set 40 "rfps:list:10" ["Chairs"]%string 300000)
                (fun cache => cache) eq_refl) as H.
  destruct (cachedRead 0 "rfps:list:10" 300000 ["Office laptops"]%string
              (CacheService.set 40 "rfps:list:10" ["Chairs"]%string 300000) 50 ∅)
    as [list_first cache'].
  apply H. lia.
Defined.

(** Two reads in flight: the second misses while the first awaits its
    query and stores its list first; the list of the first read replaces
    it. *)
Example cachedRead_in_flight :
  let key := "rfps:list:10"%string in
  let second cache :=
    (cachedRead 10 key 300000 ["Chairs"]%string (fun cache => cache) 40 cache).2 in
  let '(list_first, cache') :=
    cachedRead 0 key 300000 ["Office laptops"]%string second 50 ∅ in
  list_first = ["Office laptops"]%string
  /\ (CacheService.get 100 key cache').1 = Some ["Office laptops"]%string.
Proof. vm_compute. split; reflexivity. Qed.

(** ** [normalizeRfpDraft]: the other fields *)

Lemma normalizeBudget_other (u : gmap string value) (k' : string) :
  k' <> "budget"%string -> normalizeBudget u !! k' = u !! k'.
Proof.
  intros Hk. unfold normalizeBudget.
  destruct (field u "budget") as [| | | |s| |]; try reflexivity.
  - now rewrite lookup_delete_ne.
  - destruct (String.eqb s ""); [now rewrite lookup_delete_ne | now rewrite lookup_insert_ne].
Qed.

Lemma normalizeDeadline_deadline (u : gmap string value) :
  normalizeDeadline u !! "deadline"
  = match field u "deadline" with
    | VNull | VStr EmptyString => None
    | _ => u !! "deadline"
    end.
Proof.
  unfold normalizeDeadline, field.
  destruct (u !! "deadline") as [v|] eqn:E; cbn [default from_option id]; [|now rewrite E].
  destruct v as [| | | |s| |]; rewrite ?lookup_delete_eq, ?E; try reflexivity.
  destruct s; cbn [String.eqb]; rewrite ?lookup_delete_eq, ?E; reflexivity.
Qed.

Lemma normalizeRfpDraft_steps parse (existingDraft draftUpdate : value)
    (merged : gmap string value) :
  truthy draftUpdate = true ->
  normalizeRfpDraft parse existingDraft draftUpdate = Some (VObj merged) ->
  exists u1 u2,
    moveItems parse (spread draftUpdate) = Some u1
    /\ moveDeliveryRequirements u1 = Some u2
    /\ forall k, k <> "requirements"%string ->
         merged !! k
         = (normalizeDeadline (normalizeBudget u2) ∪ normalizeExisting parse existingDraft) !! k.
Proof.
  intros Ht H. unfold normalizeRfpDraft in H. rewrite Ht in H. simpl in H.
  destruct (moveItems parse (spread draftUpdate)) as [u1|] eqn:E1; [|discriminate].
  simpl in H. destruct (moveDeliveryRequirements u1) as [u2|] eqn:E2; [|discriminate].
  simpl in H. exists u1, u2. split; [reflexivity|]. split; [exact E2|].
  intros k Hk. unfold mergeDrafts in H.
  match type of H with (?r ≫= _) = _ => destruct r as [rq|]; [|discriminate] end.
  simpl in H. injection H as <-. now rewrite lookup_insert_ne by congruence.
Qed.

(** X24. The fields that the merge does not treat specially. For every
    key other than [requirements], [items], [deliveryRequirements],
    [budget] and [deadline], the merged draft has the fragment's value when
    the fragment has the key and the existing draft's value otherwise. The
    merged deadline is the fragment's too, unless the fragment's deadline
    is [null] or the empty string, which leave the existing deadline. *)
Theorem normalizeRfpDraft_fragment_wins (parse : string -> option value)
    (existingDraft draftUpdate : value) (merged : gmap string value) :
  truthy draftUpdate = true ->
  normalizeRfpDraft parse existingDraft draftUpdate = Some (VObj merged) ->
  (forall k : string,
     k <> "requirements"%string -> k <> "items"%string ->
     k <> "deliveryRequirements"%string -> k <> "budget"%string -> k <> "deadline"%string ->
     merged !! k = (spread draftUpdate ∪ spread existingDraft) !! k)
  /\ merged !! "deadline"
     = match field (spread draftUpdate) "deadline" with
       | VNull | VStr EmptyString => spread existingDraft !! "deadline"
       | _ => (spread draftUpdate ∪ spread existingDraft) !! "deadline"
       end.
Proof.
  intros Ht H.
  destruct (normalizeRfpDraft_steps _ _ _ _ Ht H) as (u1 & u2 & E1 & E2 & Hm).
  assert (Hu : forall k : string, k <> "requirements"%string -> k <> "items"%string ->
                 k <> "deliveryRequirements"%string -> u2 !! k = spread draftUpdate !! k).
  { intros k Hr Hi Hd. rewrite (moveDeliveryRequirements_other _ _ k Hr Hd E2).
    exact (moveItems_other parse _ _ k Hr Hi E1). }
  split.
  - intros k Hr Hi Hd Hb Hdl. rewrite (Hm k Hr), !lookup_union.
    rewrite normalizeDeadline_other, normalizeBudget_other, Hu by assumption.
    now rewrite normalizeExisting_other.
  - rewrite (Hm "deadline"%string) by discriminate. rewrite !lookup_union.
    rewrite normalizeExisting_other by discriminate.
    assert (Hd : normalizeBudget u2 !! "deadline" = spread draftUpdate !! "deadline").
    { rewrite normalizeBudget_other by discriminate. apply Hu; discriminate. }
    rewrite normalizeDeadline_deadline. unfold field. rewrite Hd.
    destruct (spread draftUpdate !! "deadline") as [[| | | |s| |]|];
      cbn [default from_option id]; try reflexivity.
    + now destruct (spread existingDraft !! "deadline").
    + destruct s; [now destruct (spread existingDraft !! "deadline") | reflexivity].
Qed.

Lemma normalizeRfpDraft_fragment_wins_witness :
  exists merged,
    normalizeRfpDraft no_json draft_Laptop fragment_empty_budget = Some (VObj merged)
    /\ merged !! "title" = Some (VStr "Office laptops")
    /\ merged !! "description" = Some (VStr "Laptops for the new office").
Proof.
  destruct (normalizeRfpDraft no_json draft_Laptop fragment_empty_budget) as [[| | | | | |m]|]
    eqn:H; try (vm_compute in H; discriminate).
  exists m. split; [reflexivity|].
  destruct (normalizeRfpDraft_fragment_wins no_json draft_Laptop fragment_empty_budget m
              eq_refl H) as [Hk _].
  split; rewrite Hk by discriminate; vm_compute; reflexivity.
Defined.

(** X25. The fields of the requirements merge like the fields of the
    draft. When the existing draft and the fragment both carry a
    requirements object (and the fragment has no top-level [items] or
    [deliveryRequirements] to move), every requirement field other than
    [items] has the fragment's value when the fragment has it and the
    existing value otherwise: a fragment that sets the delivery time keeps
    the payment terms collected before. *)
Theorem requirements_fragment_wins (parse : string -> option value)
    (existingDraft draftUpdate : value) (merged ur er : gmap string value) :
  truthy draftUpdate = true ->
  truthy (field (spread draftUpdate) "items") = false ->
  truthy (field (spread draftUpdate) "deliveryRequirements") = false ->
  spread draftUpdate !! "requirements" = Some (VObj ur) ->
  spread existingDraft !! "requirements" = Some (VObj er) ->
  normalizeRfpDraft parse existingDraft draftUpdate = Some (VObj merged) ->
  exists mr, merged !! "requirements" = Some (VObj mr)
             /\ forall k : string, k <> "items"%string -> mr !! k = (ur ∪ er) !! k.
Proof.
  intros Ht Hi Hd Hur Her H. unfold normalizeRfpDraft in H. rewrite Ht in H.
  cbn [negb] in H. cbv zeta in H.
  unfold moveItems in H. rewrite Hi in H. cbn [andb mbind option_bind] in H.
  unfold moveDeliveryRequirements in H. rewrite Hd in H. cbn [andb mbind option_bind] in H.
  unfold mergeDrafts in H.
  assert (Hu : field (normalizeDeadline (normalizeBudget (spread draftUpdate))) "requirements"
               = VObj ur).
  { unfold field. rewrite normalizeDeadline_other, normalizeBudget_other by discriminate.
    now rewrite Hur. }
  assert (He : field (normalizeExisting parse existingDraft) "requirements" = VObj er).
  { unfold normalizeExisting, field. rewrite Her. cbn [default from_option id].
    now rewrite Her. }
  rewrite Hu, He in H. cbn [or_else truthy spread] in H.
  match type of H with (?r ≫= _) = _ => destruct r as [rq|] eqn:Er; [|discriminate] end.
  cbn [mbind option_bind] in H. injection H as <-.
  rewrite lookup_insert_eq.
  do 3 (match type of Er with (?r ≫= _) = _ => destruct r; [|discriminate] end;
        cbn [mbind option_bind] in Er).
  injection Er as <-.
  eexists. split; [reflexivity|]. intros k Hk. now rewrite lookup_insert_ne by congruence.
Qed.

Lemma requirements_fragment_wins_witness :
  exists merged mr,
    normalizeRfpDraft no_json draft_with_terms fragment_delivery = Some (VObj merged)
    /\ merged !! "requirements" = Some (VObj mr)
    /\ mr !! "deliveryDays" = Some (num 14)
    /\ mr !! "paymentTerms" = Some (VStr "Net 30").
Proof.
  destruct (normalizeRfpDraft no_json draft_with_terms fragment_delivery) as [[| | | | | |m]|]
    eqn:H; try (vm_compute in H; discriminate).
  exists m.
  destruct (requirements_fragment_wins no_json draft_with_terms fragment_delivery m
              (list_to_map [("deliveryDays", num 14)])
              (list_to_map [("items", arr [item_Laptop]); ("paymentTerms", VStr "Net 30");
                            ("deliveryDays", num 30)])
              eq_refl eq_refl eq_refl) as (mr & Hm & Hk);
    [vm_compute; reflexivity | vm_compute; reflexivity | exact H |].
  exists mr. split; [reflexivity|]. split; [exact Hm|].
  split; rewrite Hk by discriminate; vm_compute; reflexivity.
Defined.
